(** * dxkite/explorer: the indexer (scan.go), the positional record stream
    (stream/stream.go) and the search engine (search), as a shallow embedding.

    Go strings are modelled as [string] (sequences of bytes), Go maps as
    [gmap], int64 offsets and counters as [Z].  Functions of the Go standard
    library that the program calls are either transcribed from the library
    source ([strings.Index], [strings.TrimPrefix], [filepath.Ext]) or taken
    as fields of an interface ([RegexpEngine], [GoRuntime], [Codec]). *)

From Stdlib Require Import ZArith Lia Ascii String DecimalString Sorted.
From stdpp Require Import base strings gmap list.

Set Warnings "-register-all".

Local Open Scope string_scope.
Local Open Scope Z_scope.

(* ===================================================================== *)
(** ** Package strings (the functions the program uses) *)
(* ===================================================================== *)

Module GoStrings.

(** [strings.HasPrefix s prefix]. *)
Fixpoint HasPrefix (s prefix : string) : bool :=
  match prefix, s with
  | EmptyString, _ => true
  | String _ _, EmptyString => false
  | String c p', String d s' => if Ascii.eqb c d then HasPrefix s' p' else false
  end.

(** [strings.Index s substr]: index of the first instance of [substr] in [s],
    or -1.  [from] is the index of the first byte of [s] in the whole string. *)
Fixpoint Index_from (s substr : string) (from : Z) : Z :=
  if HasPrefix s substr then from
  else match s with
       | EmptyString => -1
       | String _ s' => Index_from s' substr (from + 1)
       end.

Definition Index (s substr : string) : Z := Index_from s substr 0.

(** [strings.TrimPrefix s prefix]. *)
Fixpoint TrimPrefix_go (s prefix : string) : option string :=
  match prefix, s with
  | EmptyString, _ => Some s
  | String _ _, EmptyString => None
  | String c p', String d s' => if Ascii.eqb c d then TrimPrefix_go s' p' else None
  end.

Definition TrimPrefix (s prefix : string) : string :=
  match TrimPrefix_go s prefix with
  | Some rest => rest
  | None => s
  end.

(** [strings.ReplaceAll s old new] for one-byte [old] and [new]. *)
Fixpoint ReplaceAll1 (s : string) (old new : ascii) : string :=
  match s with
  | EmptyString => EmptyString
  | String c s' =>
      String (if Ascii.eqb c old then new else c) (ReplaceAll1 s' old new)
  end.

(** [strings.ToLower] on one byte of an ASCII string: 'A'..'Z' are moved to
    'a'..'z', every other byte is kept. *)
Definition lower_byte (c : ascii) : ascii :=
  let n := nat_of_ascii c in
  if ((65 <=? n)%nat && (n <=? 90)%nat)%bool then ascii_of_nat (n + 32) else c.

(** [strings.ToLower] restricted to ASCII strings (on which Go takes the same
    byte-wise path). *)
Fixpoint ToLowerASCII (s : string) : string :=
  match s with
  | EmptyString => EmptyString
  | String c s' => String (lower_byte c) (ToLowerASCII s')
  end.

(** Every byte of [s] satisfies [p]; [has_no c s]: the byte [c] does not
    occur in [s]. *)
Fixpoint all_bytes (p : ascii -> bool) (s : string) : bool :=
  match s with
  | EmptyString => true
  | String c s' => (p c && all_bytes p s')%bool
  end.

Definition has_no (c : ascii) (s : string) : bool :=
  all_bytes (fun d => negb (Ascii.eqb d c)) s.

(** The proposition "[sub] occurs in [s]". *)
Definition Contains (s sub : string) : Prop :=
  exists pre post, s = pre +:+ sub +:+ post.

End GoStrings.

(* ===================================================================== *)
(** ** Package path/filepath: [Ext] *)
(* ===================================================================== *)

Module Filepath.

(** [os.IsPathSeparator] on a Unix system. *)
Definition IsPathSeparator (c : ascii) : bool := Ascii.eqb c "/"%char.

(** The loop of [filepath.Ext]:
    [for i := len(path)-1; i >= 0 && !IsPathSeparator(path[i]); i--].
    The argument [n] is [i + 1]. *)
Fixpoint Ext_loop (path : string) (n : nat) : string :=
  match n with
  | O => ""
  | S i =>
      match String.get i path with
      | None => ""
      | Some c =>
          if IsPathSeparator c then ""
          else if Ascii.eqb c "."%char
               then String.substring i (String.length path - i) path
               else Ext_loop path i
      end
  end.

Definition Ext (path : string) : string := Ext_loop path (String.length path).

End Filepath.

(* ===================================================================== *)
(** ** Package regexp, as the interface the indexer uses *)
(* ===================================================================== *)

(** A compiled pattern offers [NumSubexp] and [FindAllStringSubmatch]; each
    match is the slice [whole; group 1; ...; group NumSubexp]. *)
Class RegexpEngine := {
  Regexp : Type;
  NumSubexp : Regexp -> nat;
  FindAllStringSubmatch : Regexp -> string -> list (list string);
  FindAllStringSubmatch_length :
    forall (re : Regexp) (s : string) (m : list string),
      In m (FindAllStringSubmatch re s) -> length m = S (NumSubexp re)
}.

(** A backtracking engine for a fragment of the syntax (literals, escapes,
    [.], [\w] [\d] [\s], groups, alternation, greedy [*] [+] [?]) with the
    leftmost-first semantics of package regexp, on ASCII input. *)
Module MiniRegexp.

Inductive re :=
  | Empty
  | Chr (p : ascii -> bool)
  | Cat (a b : re)
  | Alt (a b : re)
  | Star (a : re)
  | Plus (a : re)
  | Opt (a : re)
  | Group (i : nat) (a : re).

Record prog := { body : re; NumCap : nat }.

Definition between (lo hi : nat) (c : ascii) : bool :=
  let n := nat_of_ascii c in ((lo <=? n)%nat && (n <=? hi)%nat)%bool.

Definition is_digit : ascii -> bool := between 48 57.
Definition is_word (c : ascii) : bool :=
  (is_digit c || between 65 90 c || between 97 122 c || Ascii.eqb c "_"%char)%bool.
Definition is_space (c : ascii) : bool :=
  let n := nat_of_ascii c in
  ((n =? 9)%nat || (n =? 10)%nat || (n =? 12)%nat || (n =? 13)%nat || (n =? 32)%nat)%bool.
Definition is_any (c : ascii) : bool := negb (nat_of_ascii c =? 10)%nat.
Definition is_punct (c : ascii) : bool :=
  negb (is_word c || is_space c || (127 <=? nat_of_ascii c)%nat
        || (nat_of_ascii c <? 33)%nat)%bool.

(** *** Parsing a pattern *)

Definition one_of (cs : string) (c : ascii) : bool :=
  existsb (Ascii.eqb c) (list_ascii_of_string cs).

(** The optional repetition operator after an atom; a second operator in a
    row is rejected. *)
Definition postfix (a : re) (s : list ascii) : option (re * list ascii) :=
  let '(a', rest) :=
    match s with
    | c :: rest =>
        if Ascii.eqb c "*"%char then (Star a, rest)
        else if Ascii.eqb c "+"%char then (Plus a, rest)
        else if Ascii.eqb c "?"%char then (Opt a, rest)
        else (a, s)
    | [] => (a, s)
    end in
  match rest with
  | c :: _ => if one_of "*+?" c then None else Some (a', rest)
  | [] => Some (a', rest)
  end.

Definition join_alt (alt : option re) (cat : re) : re :=
  match alt with
  | None => cat
  | Some a => Alt a cat
  end.

Definition escape (c : ascii) : option re :=
  if Ascii.eqb c "w"%char then Some (Chr is_word)
  else if Ascii.eqb c "d"%char then Some (Chr is_digit)
  else if Ascii.eqb c "s"%char then Some (Chr is_space)
  else if is_punct c then Some (Chr (Ascii.eqb c))
  else None.

(** Parses an alternation up to the end of the input or an unmatched [)];
    [n] is the number of groups opened so far.  Returns the expression, the
    new group count and the remaining input. *)
Fixpoint parse (fuel : nat) (s : list ascii) (n : nat) (cat : re) (alt : option re)
  : option (re * nat * list ascii) :=
  match fuel with
  | O => None
  | S fuel' =>
      match s with
      | [] => Some (join_alt alt cat, n, [])
      | c :: rest =>
          if Ascii.eqb c ")"%char then Some (join_alt alt cat, n, s)
          else if Ascii.eqb c "|"%char
          then parse fuel' rest n Empty (Some (join_alt alt cat))
          else if Ascii.eqb c "("%char then
            match parse fuel' rest (S n) Empty None with
            | Some (g, n', c' :: rest') =>
                if Ascii.eqb c' ")"%char then
                  match postfix (Group (S n) g) rest' with
                  | Some (a, rest'') => parse fuel' rest'' n' (Cat cat a) alt
                  | None => None
                  end
                else None
            | _ => None
            end
          else if Ascii.eqb c "\"%char then
            match rest with
            | e :: rest' =>
                match escape e with
                | Some a0 =>
                    match postfix a0 rest' with
                    | Some (a, rest'') => parse fuel' rest'' n (Cat cat a) alt
                    | None => None
                    end
                | None => None
                end
            | [] => None
            end
          else if one_of "*+?[{^$" c then None
          else
            match postfix (Chr (if Ascii.eqb c "."%char then is_any else Ascii.eqb c)) rest with
            | Some (a, rest'') => parse fuel' rest'' n (Cat cat a) alt
            | None => None
            end
      end
  end.

(** [regexp.Compile] on the fragment. *)
Definition Compile (expr : string) : option prog :=
  let s := list_ascii_of_string expr in
  match parse (S (length s)) s 0 Empty None with
  | Some (r, n, []) => Some {| body := r; NumCap := n |}
  | _ => None
  end.

(** *** Matching *)

Definition mstate : Type := nat * list string.

Definition slice (s : list ascii) (b e : nat) : string :=
  string_of_list_ascii (take (e - b) (drop b s)).

Fixpoint star_loop (step : mstate -> list mstate) (n : nat) (st : mstate) : list mstate :=
  match n with
  | O => [st]
  | S n' =>
      flat_map (fun st' => if (fst st <? fst st')%nat then star_loop step n' st' else [])
               (step st) ++ [st]
  end.

(** All ways [r] can match at the position of [st], most preferred first. *)
Fixpoint run (r : re) (s : list ascii) (st : mstate) : list mstate :=
  match r with
  | Empty => [st]
  | Chr p =>
      match s !! fst st with
      | Some c => if p c then [(S (fst st), snd st)] else []
      | None => []
      end
  | Cat a b => flat_map (fun st' => run b s st') (run a s st)
  | Alt a b => run a s st ++ run b s st
  | Star a => star_loop (fun st' => run a s st') (length s) st
  | Plus a =>
      flat_map (fun st' => star_loop (fun st'' => run a s st'') (length s) st')
               (run a s st)
  | Opt a => run a s st ++ [st]
  | Group i a =>
      map (fun st' => (fst st', <[i := slice s (fst st) (fst st')]> (snd st')))
          (run a s st)
  end.

(** The match of [p] that starts at [pos]: its end and its submatches. *)
Definition match_at (p : prog) (s : list ascii) (pos : nat) : option (nat * list string) :=
  match run (body p) s (pos, replicate (S (NumCap p)) "") with
  | (e, caps) :: _ => Some (e, <[0%nat := slice s pos e]> caps)
  | [] => None
  end.

(** The leftmost match at or after [pos]; [n] bounds the start positions. *)
Fixpoint doExecute (p : prog) (s : list ascii) (n : nat) (pos : nat)
  : option (nat * nat * list string) :=
  match match_at p s pos with
  | Some (e, caps) => Some (pos, e, caps)
  | None =>
      match n with
      | O => None
      | S n' => doExecute p s n' (S pos)
      end
  end.

(** The loop of [Regexp.allMatches]. *)
Fixpoint allMatches (p : prog) (s : list ascii) (fuel : nat) (pos : nat) (prevMatchEnd : Z)
  : list (list string) :=
  match fuel with
  | O => []
  | S fuel' =>
      if (length s <? pos)%nat then []
      else
        match doExecute p s (length s - pos) pos with
        | None => []
        | Some (b, e, caps) =>
            let accept := negb ((e =? pos)%nat && Z.eqb (Z.of_nat b) prevMatchEnd)%bool in
            let pos' := if (e =? pos)%nat then S pos else e in
            let rest := allMatches p s fuel' pos' (Z.of_nat e) in
            if accept then caps :: rest else rest
        end
  end.

Definition FindAll (p : prog) (name : string) : list (list string) :=
  let s := list_ascii_of_string name in
  allMatches p s (S (S (length s))) 0 (-1).

End MiniRegexp.

(* ===================================================================== *)
(** ** Errors, results and the state of a run *)
(* ===================================================================== *)

(** Go [error] values.  [io.EOF] is the one the search loop compares with. *)
Inductive error :=
  | EOF
  | PathError (op path : string)
  | SyntaxError (msg : string).

Definition error_is_EOF (e : error) : bool :=
  match e with
  | EOF => true
  | _ => false
  end.

(** A [(value, error)] pair returned by a library call. *)
Inductive result (A : Type) :=
  | Ok (a : A)
  | Err (e : error).
Arguments Ok {A} a.
Arguments Err {A} e.

(** Where a [time.Time] is located: the [loc] pointer is [nil] for UTC,
    [&localLoc] for [time.Local], and a location of its own for a fixed
    offset (in hours here). *)
Inductive Location :=
  | UTC
  | Local
  | FixedZone (offset : Z).

(** A [time.Time] without a monotonic clock reading, as [os.Stat] and the
    decoding of JSON give them: the instant, counted from the zero time, and
    the location.  [time.Time{}] is [zeroTime]. *)
Record Time := {
  instant : Z;
  loc : Location
}.

Definition zeroTime : Time := {| instant := 0; loc := UTC |}.

(** [time.Unix]: the time at an instant, in [time.Local].  [ModTime()] of a
    file info is such a time, and so is [time.Now()], its monotonic reading
    apart (the program only encodes it, which drops that reading). *)
Definition time_Unix (t : Z) : Time := {| instant := t; loc := Local |}.

(** Equality of two location pointers.  The program compares a time in
    [time.Local] with a decoded one, never two fixed zones with each
    other. *)
Definition Location_eqb (a b : Location) : bool :=
  match a, b with
  | UTC, UTC => true
  | Local, Local => true
  | FixedZone o1, FixedZone o2 => Z.eqb o1 o2
  | _, _ => false
  end.

(** The [==] of the program on two times: the same instant and the same
    location.  Two times that show the same instant in different locations
    are not [==]. *)
Definition Time_eqb (t u : Time) : bool :=
  (Z.eqb (instant t) (instant u) && Location_eqb (loc t) (loc u))%bool.

(** What [filepath.Walk] finds below a path: a non-directory, a directory
    ([readable] is false when listing it fails) or a name whose [Lstat]
    fails.  The name is [info.Name()]. *)
Inductive entry :=
  | File (name : string)
  | Dir (name : string) (readable : bool) (kids : list entry)
  | Bad (name : string).

Definition entry_name (e : entry) : string :=
  match e with
  | File n => n
  | Dir n _ _ => n
  | Bad n => n
  end.

Definition entry_IsDir (e : entry) : bool :=
  match e with
  | Dir _ _ _ => true
  | _ => false
  end.

(** The operating system and the Go runtime as one run observes them: the
    modification time [os.Stat] reports (an instant, none when it fails),
    the clock, the source tree, which operations on the data directory
    fail, and the order in which a [range] over a map yields its keys, which
    Go leaves open and changes from run to run. *)
Record World := {
  os_Stat : string -> option Z;
  time_Now : Z;
  source_tree : string -> entry;
  mkdir_fails : string -> bool;
  open_fails : string -> bool;
  read_fails : string -> bool;
  write_fails : string -> string -> string -> bool;
  range_order : gmap string bool -> list string;
  range_order_keys : forall m, range_order m ≡ₚ (map_to_list m).*1
}.

(** The regular files of the data directory: path to content. *)
Abbreviation Files := (gmap string string).

(** [os.OpenFile(name, O_RDWR|O_CREATE|O_TRUNC, ModePerm)]: the file exists
    and is empty afterwards. *)
Definition os_OpenFile_trunc (w : World) (name : string) (fs : Files)
  : option error * Files :=
  if open_fails w name then (Some (PathError "open" name), fs)
  else (None, <[name := ""]> fs).

(** [f.Write(data)] on the file opened at [name]: appends, or fails and
    leaves the content as it is. *)
Definition file_Write (w : World) (name data : string) (fs : Files)
  : option error * Files :=
  let cur := default "" (fs !! name) in
  if write_fails w name cur data then (Some (PathError "write" name), fs)
  else (None, <[name := cur +:+ data]> fs).

(** [os.ReadFile]. *)
Definition os_ReadFile (w : World) (name : string) (fs : Files) : result string :=
  if read_fails w name then Err (PathError "open" name)
  else match fs !! name with
       | Some b => Ok b
       | None => Err (PathError "open" name)
       end.

(* ===================================================================== *)
(** ** Package core, scan.go: the indexer *)
(* ===================================================================== *)

Module Scan.

Record FileInfo := {
  Name : string;
  Path : string;
  Tags : list string;
  Ext : string
}.

Record MetaData := {
  LastUpdate : Time;
  CreateTime : Time
}.

(** Modelled from the spec: the declaration of [ScanConfig] is not among the
    sources; these are the fields scan.go reads, with the types it uses them
    at (section 6, configuration object). *)
Record ScanConfig := {
  IgnoreName : list string;
  IgnoreExt : list string;
  TagExpr : string;
  IndexFile : string;
  ExtListFile : string;
  TagListFile : string;
  MetaFile : string
}.

Record IndexCreator := {
  Config : ScanConfig;
  ignoreNameMap : gmap string bool;
  extMap : gmap string bool;
  tagMap : gmap string bool
}.

(** Reading a [map[string]bool]: the zero value for a missing key. *)
Definition map_get (m : gmap string bool) (k : string) : bool :=
  default false (m !! k).

Definition set_extMap (ic : IndexCreator) (m : gmap string bool) : IndexCreator :=
  {| Config := Config ic; ignoreNameMap := ignoreNameMap ic;
     extMap := m; tagMap := tagMap ic |}.

Definition set_tagMap (ic : IndexCreator) (m : gmap string bool) : IndexCreator :=
  {| Config := Config ic; ignoreNameMap := ignoreNameMap ic;
     extMap := extMap ic; tagMap := m |}.

(** [for _, v := range l { m[v] = b }]. *)
Definition mark_all (b : bool) (l : list string) (m : gmap string bool)
  : gmap string bool :=
  foldl (fun acc v => <[v := b]> acc) m l.

Definition NewIndexCreator (cfg : ScanConfig) : IndexCreator :=
  {| Config := cfg;
     ignoreNameMap := mark_all true (IgnoreName cfg) ∅;
     extMap := mark_all true (IgnoreExt cfg) ∅;
     tagMap := ∅ |}.

(** The library functions the indexer calls besides regexp. *)
Class GoRuntime `{RegexpEngine} := {
  ToLower : string -> string;
  regexp_Compile : string -> result Regexp;
  path_Join : string -> string -> string;
  filepath_Join : string -> string -> string;
  filepath_Abs : string -> string;
  json_Marshal_FileInfo : FileInfo -> result string;
  json_Marshal_map : gmap string bool -> result string;
  json_Marshal_strings : list string -> result string;
  json_Marshal_MetaData : MetaData -> result string;
  (** [json.Unmarshal(b, meta)]: the struct as the call leaves it, and the
      error. *)
  json_Unmarshal_MetaData : string -> MetaData -> MetaData * option error;
  (** [json.Valid]; input that is not valid JSON is refused by
      [json.Unmarshal] before it stores anything. *)
  json_Valid : string -> bool;
  json_Unmarshal_invalid :
    forall (b : string) (meta : MetaData),
      json_Valid b = false ->
      exists e, json_Unmarshal_MetaData b meta = (meta, Some e)
}.

Section Indexer.
Context `{GoRuntime}.

(** *** The pure helpers *)

Definition getExt (filename : string) : string :=
  let ext := Filepath.Ext filename in
  if (String.length ext <=? 1)%nat then ""
  else ToLower (String.substring 1 (String.length ext - 1) ext).

Definition normalizePath (filename : string) : string :=
  GoStrings.ReplaceAll1 filename "\"%char "/"%char.

(** The loop of [parseTag]; [m[1]] out of range is a run-time panic, here
    [None]. *)
Fixpoint parseTag_loop (matches : list (list string)) (tags : list string)
  : option (list string) :=
  match matches with
  | [] => Some tags
  | m :: rest =>
      match m !! 1%nat with
      | Some t => parseTag_loop rest (tags ++ [t])
      | None => None
      end
  end.

(** [parseTag]: [None] when it panics, otherwise its two results. *)
Definition parseTag (name : string) (reg : Regexp)
  : option (list string * option error) :=
  let matches := FindAllStringSubmatch reg name in
  match parseTag_loop matches [] with
  | Some tags => Some (tags, None)
  | None => None
  end.

(** *** Stateful code: the creator's maps and the data files *)

Record State := {
  ic : IndexCreator;
  files : Files
}.

(** A computation either panics ([None]) or returns; the state is kept in
    both cases. *)
Definition M (A : Type) : Type := State -> option A * State.

Definition ret {A} (a : A) : M A := fun st => (Some a, st).
Definition panic {A} : M A := fun st => (None, st).
Definition bind {A B} (m : M A) (k : A -> M B) : M B :=
  fun st =>
    match m st with
    | (Some a, st') => k a st'
    | (None, st') => (None, st')
    end.
Definition get_ic : M IndexCreator := fun st => (Some (ic st), st).
Definition put_ic (c : IndexCreator) : M unit :=
  fun st => (Some tt, {| ic := c; files := files st |}).
Definition on_files {A} (f : Files -> A * Files) : M A :=
  fun st => let '(a, fs) := f (files st) in (Some a, {| ic := ic st; files := fs |}).
Definition read_files {A} (f : Files -> A) : M A :=
  fun st => (Some (f (files st)), st).

Notation "'let*' x ':=' m 'in' k" := (bind m (fun x => k))
  (at level 10, x name, m at level 100, k at level 200, only parsing).

Definition newline : string := String (ascii_of_nat 10) EmptyString.

(** [writeJsonFile(filename, v)]; [enc] is [json.Marshal(v)]. *)
Definition writeJsonFile (w : World) (filename : string) (enc : result string)
  : M (option error) :=
  let* e := on_files (os_OpenFile_trunc w filename) in
  match e with
  | Some err => ret (Some err)
  | None =>
      match enc with
      | Err err => ret (Some err)
      | Ok data =>
          let* e' := on_files (file_Write w filename data) in
          match e' with
          | Some err => ret (Some err)
          | None => ret None
          end
      end
  end.

(** *** [filepath.Walk] *)

Inductive walk_ret :=
  | WalkNil
  | SkipDir
  | WalkErr (e : error).

Record WalkInfo := { info_Name : string; info_IsDir : bool }.

Definition WalkFunc : Type := string -> option WalkInfo -> option error -> M walk_ret.

Definition info_of (e : entry) : WalkInfo :=
  {| info_Name := entry_name e; info_IsDir := entry_IsDir e |}.

(** The loop of [filepath.walk] over the names a directory lists; [rec] is
    [walk] itself. *)
Definition walk_names (rec : string -> entry -> M walk_ret) (fn : WalkFunc)
    (path : string) : list entry -> M walk_ret :=
  fix loop (names : list entry) : M walk_ret :=
    match names with
    | [] => ret WalkNil
    | k :: rest =>
        let filename := filepath_Join path (entry_name k) in
        match k with
        | Bad _ =>
            let* r := fn filename None (Some (PathError "lstat" filename)) in
            match r with
            | WalkErr err => ret (WalkErr err)
            | _ => loop rest
            end
        | _ =>
            let* r := rec filename k in
            match r with
            | WalkNil => loop rest
            | SkipDir => if entry_IsDir k then loop rest else ret SkipDir
            | WalkErr err => ret (WalkErr err)
            end
        end
    end.

(** [filepath.walk]: the function is called on the entry, then on what a
    readable directory lists, in order. *)
Fixpoint walk (fn : WalkFunc) (path : string) (e : entry) : M walk_ret :=
  match e with
  | Dir _ readable kids =>
      let* err1 := fn path (Some (info_of e))
                     (if readable then None else Some (PathError "open" path)) in
      match readable, err1 with
      | true, WalkNil => walk_names (walk fn) fn path kids
      | _, _ => ret err1
      end
  | File _ => fn path (Some (info_of e)) None
  | Bad _ => fn path None (Some (PathError "lstat" path))
  end.

(** [filepath.Walk(root, fn)]. *)
Definition Walk (w : World) (root : string) (fn : WalkFunc) : M (option error) :=
  let* r := walk fn root (source_tree w root) in
  match r with
  | WalkErr err => ret (Some err)
  | _ => ret None
  end.

(** *** [createIndexFile] *)

(** The function literal handed to [filepath.Walk]; it closes over the
    compiled pattern, the open index file and the absolute root. *)
Definition indexEntry (w : World) (reg : Regexp) (index absRootPath : string)
  : WalkFunc :=
  fun path info err =>
    match err, info with
    | Some _, _ => ret WalkNil
    | None, None => panic
    | None, Some info =>
        let name := info_Name info in
        let ext := getExt name in
        let* c := get_ic in
        if map_get (ignoreNameMap c) name then
          if info_IsDir info then ret SkipDir else ret WalkNil
        else if info_IsDir info then ret WalkNil
        else if map_get (extMap c) ext then ret WalkNil
        else
          let* _ := put_ic (set_extMap c (<[ext := false]> (extMap c))) in
          match parseTag name reg with
          | None => panic
          | Some (_, Some perr) => ret (WalkErr perr)
          | Some (tags, None) =>
              let* c' := get_ic in
              let* _ := put_ic (set_tagMap c' (mark_all true tags (tagMap c'))) in
              let filePath := GoStrings.TrimPrefix path absRootPath in
              let filePath := normalizePath filePath in
              let v := {| Name := name; Path := filePath; Tags := tags; Ext := ext |} in
              match json_Marshal_FileInfo v with
              | Err merr => ret (WalkErr merr)
              | Ok b =>
                  let* e1 := on_files (file_Write w index b) in
                  match e1 with
                  | Some werr => ret (WalkErr werr)
                  | None =>
                      let* e2 := on_files (file_Write w index newline) in
                      match e2 with
                      | Some werr => ret (WalkErr werr)
                      | None => ret WalkNil
                      end
                  end
              end
          end
    end.

Definition createIndexFile (w : World) (root dataRoot : string) : M (option error) :=
  let* c := get_ic in
  match regexp_Compile (TagExpr (Config c)) with
  | Err _ => panic
  | Ok reg =>
      let index := path_Join dataRoot (IndexFile (Config c)) in
      if mkdir_fails w dataRoot then panic
      else
        let* e := on_files (os_OpenFile_trunc w index) in
        match e with
        | Some err => ret (Some err)
        | None =>
            let absRootPath := filepath_Abs root in
            Walk w root (indexEntry w reg index absRootPath)
        end
  end.

(** *** Metadata and dictionaries *)

Definition getMeta (w : World) (dataRoot : string) : M MetaData :=
  let* c := get_ic in
  let meta := {| LastUpdate := zeroTime; CreateTime := zeroTime |} in
  let filename := path_Join dataRoot (MetaFile (Config c)) in
  let* r := read_files (os_ReadFile w filename) in
  match r with
  | Err _ => ret meta
  | Ok b =>
      let '(meta', uerr) := json_Unmarshal_MetaData b meta in
      match uerr with
      | Some _ => ret meta'
      | None => ret meta'
      end
  end.

Definition createExtListFile (w : World) (dataRoot : string) : M (option error) :=
  let* c := get_ic in
  let filename := path_Join dataRoot (ExtListFile (Config c)) in
  let* e := writeJsonFile w filename (json_Marshal_map (extMap c)) in
  match e with
  | Some err => ret (Some err)
  | None => ret None
  end.

(** [for k := range ic.tagMap]: the keys, in the order this run yields
    them. *)
Definition range_keys (w : World) (m : gmap string bool) : list string :=
  range_order w m.

Definition createTagListFile (w : World) (dataRoot : string) : M (option error) :=
  let* c := get_ic in
  let filename := path_Join dataRoot (TagListFile (Config c)) in
  let tags := foldl (fun (acc : list string) k => (acc ++ [k])%list) []
                    (range_keys w (tagMap c)) in
  let* e := writeJsonFile w filename (json_Marshal_strings tags) in
  match e with
  | Some err => ret (Some err)
  | None => ret None
  end.

(** *** [Create] *)

(** The first block of [Create]: [Some meta'] to go on with the rebuild,
    [None] for the early [return nil]. *)
Definition check_mtime (w : World) (root : string) (meta : MetaData) : option MetaData :=
  match os_Stat w root with
  | Some t =>
      let modTime := time_Unix t in
      if Time_eqb modTime (LastUpdate meta) then None
      else Some {| LastUpdate := modTime; CreateTime := time_Unix (time_Now w) |}
  | None => Some meta
  end.

(** The build proper, lines 77 to 92 of [Create], with the metadata to
    persist. *)
Definition rebuild (w : World) (root dataRoot : string) (meta : MetaData)
  : M (option error) :=
  let* e1 := createIndexFile w root dataRoot in
  match e1 with
  | Some err => ret (Some err)
  | None =>
      let* e2 := createExtListFile w dataRoot in
      match e2 with
      | Some err => ret (Some err)
      | None =>
          let* e3 := createTagListFile w dataRoot in
          match e3 with
          | Some err => ret (Some err)
          | None =>
              let* c := get_ic in
              let* e4 := writeJsonFile w (path_Join dataRoot (MetaFile (Config c)))
                           (json_Marshal_MetaData meta) in
              match e4 with
              | Some err => ret (Some err)
              | None => ret None
              end
          end
      end
  end.

Definition Create (w : World) (root dataRoot : string) : M (option error) :=
  let* meta := getMeta w dataRoot in
  match check_mtime w root meta with
  | None => ret None
  | Some meta' => rebuild w root dataRoot meta'
  end.

(** *** Vocabulary for the statements *)

(** The four output paths of a creator. *)
Definition index_path (c : IndexCreator) (dataRoot : string) : string :=
  path_Join dataRoot (IndexFile (Config c)).
Definition ext_path (c : IndexCreator) (dataRoot : string) : string :=
  path_Join dataRoot (ExtListFile (Config c)).
Definition tag_path (c : IndexCreator) (dataRoot : string) : string :=
  path_Join dataRoot (TagListFile (Config c)).
Definition meta_path (c : IndexCreator) (dataRoot : string) : string :=
  path_Join dataRoot (MetaFile (Config c)).

(** [st'] differs from [st] at most in the creator and in the file [f]. *)
Definition only_writes (f : string) (st st' : State) : Prop :=
  forall g, g <> f -> files st' !! g = files st !! g.

(** A call of a walk function, or a walk, returned without an error (and
    did not panic). *)
Definition returns_ok (res : option walk_ret * State) : Prop :=
  match fst res with
  | Some WalkNil | Some SkipDir => True
  | _ => False
  end.

(** The creator's configuration and ignore-name map are the same. *)
Definition same_config (st st' : State) : Prop :=
  Config (ic st') = Config (ic st) /\ ignoreNameMap (ic st') = ignoreNameMap (ic st).

(** The metadata [getMeta] loads in a state. *)
Definition loaded_meta (w : World) (dataRoot : string) (st : State) : MetaData :=
  let zero := {| LastUpdate := zeroTime; CreateTime := zeroTime |} in
  match os_ReadFile w (meta_path (ic st) dataRoot) (files st) with
  | Err _ => zero
  | Ok b => fst (json_Unmarshal_MetaData b zero)
  end.

(** The content of an index file that holds the records [recs]: each
    encoding followed by a line feed. *)
Fixpoint index_content (recs : list FileInfo) : option string :=
  match recs with
  | [] => Some ""
  | v :: rest =>
      match json_Marshal_FileInfo v, index_content rest with
      | Ok b, Some tail => Some (b +:+ newline +:+ tail)
      | _, _ => None
      end
  end.

(** The state of a build that has written the records [recs] to the index
    file at [index], starting from the extension map [m0]: the file holds
    their encodings, the extension map is [m0] with the extension of each
    record marked [false], and no record has an extension that [m0] marks
    [true]. *)
Definition indexed (index : string) (m0 : gmap string bool) (recs : list FileInfo)
    (st : State) : Prop :=
  extMap (ic st) = mark_all false (map Ext recs) m0 /\
  Forall (fun v => Ext v = getExt (Name v) /\ map_get m0 (Ext v) = false) recs /\
  exists c, index_content recs = Some c /\ files st !! index = Some c.

(** The stages of a build, in order: each outcome of [rebuild] with the
    stage that produced it. *)
Inductive rebuild_trace (w : World) (root dataRoot : string) (meta : MetaData)
    (st : State)
  : option (option error) * State -> Prop :=
  | stops_at_index r st1 :
      createIndexFile w root dataRoot st = (r, st1) ->
      r <> Some None ->
      rebuild_trace w root dataRoot meta st (r, st1)
  | stops_at_ext st1 err st2 :
      createIndexFile w root dataRoot st = (Some None, st1) ->
      createExtListFile w dataRoot st1 = (Some (Some err), st2) ->
      rebuild_trace w root dataRoot meta st (Some (Some err), st2)
  | stops_at_tag st1 st2 err st3 :
      createIndexFile w root dataRoot st = (Some None, st1) ->
      createExtListFile w dataRoot st1 = (Some None, st2) ->
      createTagListFile w dataRoot st2 = (Some (Some err), st3) ->
      rebuild_trace w root dataRoot meta st (Some (Some err), st3)
  | reaches_meta st1 st2 st3 e st4 :
      createIndexFile w root dataRoot st = (Some None, st1) ->
      createExtListFile w dataRoot st1 = (Some None, st2) ->
      createTagListFile w dataRoot st2 = (Some None, st3) ->
      writeJsonFile w (meta_path (ic st) dataRoot) (json_Marshal_MetaData meta) st3
        = (Some e, st4) ->
      rebuild_trace w root dataRoot meta st (Some e, st4).

(** *** [InitIndex] *)

(** Modelled from the spec: the declaration of the type [Config] is not
    among the sources; [InitIndex] reads its scan configuration, its source
    root and its data root (section 6, configuration object). *)
Record RootConfig := {
  cfg_ScanConfig : ScanConfig;
  SrcRoot : string;
  DataRoot : string
}.

(** [InitIndex(cfg)], run over the data files [fs]: a new creator, then
    [Create]. *)
Definition InitIndex (w : World) (cfg : RootConfig) (fs : Files)
  : option (option error) * State :=
  Create w (SrcRoot cfg) (DataRoot cfg)
         {| ic := NewIndexCreator (cfg_ScanConfig cfg); files := fs |}.

(** *** Vocabulary for the statements about a whole build *)

(** The tags [parseTag] returns for a name (none when it panics). *)
Definition tags_of (name : string) (reg : Regexp) : list string :=
  match parseTag name reg with
  | Some (tags, _) => tags
  | None => []
  end.

(** The record the walk function builds for the file [name] found at
    [path]. *)
Definition record_of (reg : Regexp) (absRootPath path name : string) : FileInfo :=
  {| Name := name;
     Path := normalizePath (GoStrings.TrimPrefix path absRootPath);
     Tags := tags_of name reg;
     Ext := getExt name |}.

(** The records of the files under an entry found at [path], in the order
    of the walk: a file whose name [ign] marks or whose extension [m0] marks
    gives none; a directory that cannot be listed or whose name [ign] marks
    gives none, with all that is below it; an entry that cannot be statted
    gives none. *)
Fixpoint records_under (ign m0 : gmap string bool) (reg : Regexp)
    (absRootPath path : string) (e : entry) : list FileInfo :=
  match e with
  | File n =>
      if (map_get ign n || map_get m0 (getExt n))%bool then []
      else [record_of reg absRootPath path n]
  | Dir n readable kids =>
      if (negb readable || map_get ign n)%bool then []
      else flat_map (fun k => records_under ign m0 reg absRootPath
                                (filepath_Join path (entry_name k)) k) kids
  | Bad _ => []
  end.

(** The state of a build that has written the records [recs], starting from
    the extension map [m0] and the tag map [t0]: [indexed], and every tag of
    the records is marked in the tag map. *)
Definition built (index : string) (m0 t0 : gmap string bool) (recs : list FileInfo)
    (st : State) : Prop :=
  indexed index m0 recs st /\
  tagMap (ic st) = mark_all true (concat (map Tags recs)) t0.

(** Between two states, the extension map and the tag map only grow: a key
    keeps its value, or it was not marked ignored and is now a seen
    extension, respectively is now a marked tag. *)
Definition maps_grow (st st' : State) : Prop :=
  (forall k, extMap (ic st') !! k = extMap (ic st) !! k \/
             (map_get (extMap (ic st)) k = false /\ extMap (ic st') !! k = Some false)) /\
  (forall k, tagMap (ic st') !! k = tagMap (ic st) !! k \/
             tagMap (ic st') !! k = Some true).

(** The three outputs of a build that started in [st] over the source tree
    are in place in [st']: the index file holds the records of the files of
    the tree that the creator does not exclude, in the order of the walk;
    the extension map and the tag map are those of [st] with the extensions
    of these records marked [false] and their tags marked [true]; the
    extension dictionary holds the encoding of that extension map and the
    tag dictionary the encoding of the keys of that tag map, in the order in
    which the run yields them. *)
Definition outputs_of_build (w : World) (root dataRoot : string) (st st' : State)
  : Prop :=
  exists reg ci de dt,
    let recs := records_under (ignoreNameMap (ic st)) (extMap (ic st)) reg
                              (filepath_Abs root) root (source_tree w root) in
    regexp_Compile (TagExpr (Config (ic st))) = Ok reg /\
    extMap (ic st') = mark_all false (map Ext recs) (extMap (ic st)) /\
    tagMap (ic st') = mark_all true (concat (map Tags recs)) (tagMap (ic st)) /\
    index_content recs = Some ci /\
    files st' !! index_path (ic st) dataRoot = Some ci /\
    json_Marshal_map (extMap (ic st')) = Ok de /\
    files st' !! ext_path (ic st) dataRoot = Some de /\
    json_Marshal_strings (range_keys w (tagMap (ic st'))) = Ok dt /\
    files st' !! tag_path (ic st) dataRoot = Some dt.

(** The creators a program can hold for a configuration: the maps of an
    [IndexCreator] are not exported, so a creator is one that
    [NewIndexCreator] made, used since for any number of [Create] calls,
    whatever they did. *)
Inductive creator_of (cfg : ScanConfig) : IndexCreator -> Prop :=
  | creator_new : creator_of cfg (NewIndexCreator cfg)
  | creator_used c w root dataRoot fs :
      creator_of cfg c ->
      creator_of cfg (ic (snd (Create w root dataRoot {| ic := c; files := fs |}))).

End Indexer.
End Scan.

(* ===================================================================== *)
(** ** Package stream: the positional record stream *)
(* ===================================================================== *)

Module Stream.

(** What one [binary.Read(r, rst)] does to a reader over [content] whose
    cursor is at [pos]: it fills the record or fails, and leaves the cursor
    at [pos']. *)
Inductive read_result :=
  | ReadOk (v : Scan.FileInfo) (pos' : Z)
  | ReadErr (e : error) (pos' : Z).

(** Modelled from the spec: package binary (the Record Codec) is not among
    the sources.  Section 4.2: a read decodes exactly one record starting at
    the cursor and advances the cursor past it; the encoding of a record is
    self-delimited, hence not empty, and the cursor of a file reader does
    not pass the end of the file. *)
Class Codec := {
  binary_Read : string -> Z -> read_result;
  binary_Read_advances :
    forall (content : string) (pos : Z) (v : Scan.FileInfo) (pos' : Z),
      binary_Read content pos = ReadOk v pos' ->
      pos < pos' <= Z.of_nat (String.length content)
}.

(** [JsonStream]: the [io.ReadSeeker] is a file content and a cursor. *)
Record JsonStream := {
  r_content : string;
  r_cursor : Z
}.

(** [NewJsonStream] over a file that was just opened. *)
Definition NewJsonStream (content : string) : JsonStream :=
  {| r_content := content; r_cursor := 0 |}.

(** The largest offset the file system takes in a seek; it fits an
    [int64], and no file is longer. *)
Class SeekLimit := {
  max_offset : Z;
  max_offset_int64 : 0 <= max_offset < 2 ^ 63
}.

(** [Offset]: [Seek(offset, io.SeekStart)] on the file.  The seek refuses a
    negative offset and an offset beyond the limit of the file system
    (EINVAL), and leaves the cursor where it was; an offset inside the file
    is within that limit. *)
Definition Offset `{SeekLimit} (j : JsonStream) (offset : Z)
  : option error * JsonStream :=
  if offset <? 0 then (Some (PathError "seek" ""), j)
  else if Z.max max_offset (Z.of_nat (String.length (r_content j))) <? offset
  then (Some (PathError "seek" ""), j)
  else (None, {| r_content := r_content j; r_cursor := offset |}).

Section WithCodec.
Context `{Codec}.

(** [ScanNext]: the offset before the read, the record, the error.
    [Seek(0, io.SeekCurrent)] on an open file reports the cursor. *)
Definition ScanNext (j : JsonStream)
  : (Z * option Scan.FileInfo * option error) * JsonStream :=
  let cur := r_cursor j in
  match binary_Read (r_content j) cur with
  | ReadErr err pos' =>
      ((cur, None, Some err), {| r_content := r_content j; r_cursor := pos' |})
  | ReadOk rst pos' =>
      ((cur, Some rst, None), {| r_content := r_content j; r_cursor := pos' |})
  end.

End WithCodec.
End Stream.

(* ===================================================================== *)
(** ** Package core, search: the search engine *)
(* ===================================================================== *)

Module Search.

(** Modelled from the spec: the record type [scan.Index] is not among the
    sources; the search reads its fields [Name], [Path], [Ext] and [Tags],
    those of a File Record (section 3), which is [Scan.FileInfo]. *)
Abbreviation Index := Scan.FileInfo.

Record SearchParams := {
  Name : string;
  Tag : string;
  Ext : string;
  Path : string
}.

Record SearchFileInfo := {
  Id : Z;
  info : Index
}.

(** The loop over [fi.Tags] of [isMatchSearch], with its [break]. *)
Fixpoint tag_loop (tags : list string) (tag : string) : bool :=
  match tags with
  | [] => false
  | t :: rest => if String.eqb t tag then true else tag_loop rest tag
  end.

Definition isMatchSearch (fi : Index) (m : SearchParams) : bool :=
  if (negb (String.eqb (Path m) "")
      && Z.eqb (GoStrings.Index (Scan.Path fi) (Path m)) (-1))%bool then false
  else if (negb (String.eqb (Name m) "")
      && Z.eqb (GoStrings.Index (Scan.Name fi) (Name m)) (-1))%bool then false
  else if (negb (String.eqb (Ext m) "")
      && negb (String.eqb (Scan.Ext fi) (Ext m)))%bool then false
  else if (negb (String.eqb (Tag m) "")
      && negb (tag_loop (Scan.Tags fi) (Tag m)))%bool then false
  else true.

Section WithCodec.
Context `{Stream.Codec}.

(** The [for] loop of [SearchFile]; [None] when [fuel] iterations were not
    enough. *)
Fixpoint search_loop (fuel : nat) (s : Stream.JsonStream) (m : SearchParams)
    (limit : Z) (rst : list SearchFileInfo) (take : Z)
  : option (result (list SearchFileInfo)) :=
  match fuel with
  | O => None
  | S fuel' =>
      let '((offset, info, err), s') := Stream.ScanNext s in
      match err, info with
      | Some e, _ =>
          if error_is_EOF e then Some (Ok rst) else Some (Err e)
      | None, None => Some (Err (SyntaxError "nil record"))
      | None, Some fi =>
          if negb (isMatchSearch fi m) then search_loop fuel' s' m limit rst take
          else
            let rst' := (rst ++ [ {| Id := offset; info := fi |} ])%list in
            let take' := take + 1 in
            if Z.eqb limit (-1) then search_loop fuel' s' m limit rst' take'
            else if take' >=? limit then Some (Ok rst')
            else search_loop fuel' s' m limit rst' take'
      end
  end.

(** [SearchFile(filename, match, offset, limit)].  The loop declares its own
    [offset]; the parameter is not read. *)
Definition SearchFile (w : World) (fs : Files) (filename : string)
    (m : SearchParams) (offset limit : Z)
  : option (result (list SearchFileInfo)) :=
  match os_ReadFile w filename fs with
  | Err e => Some (Err e)
  | Ok content =>
      let s := Stream.NewJsonStream content in
      search_loop (S (String.length content)) s m limit [] 0
  end.

(** *** Vocabulary for the statements *)

(** The records of a file in file order, each with the offset at which it
    begins, up to the first read that fails, and the error of that read
    ([None] when [fuel] reads were not enough to get there). *)
Fixpoint records_from (fuel : nat) (content : string) (pos : Z)
  : list (Z * Index) * option error :=
  match fuel with
  | O => ([], None)
  | S fuel' =>
      match Stream.binary_Read content pos with
      | Stream.ReadErr e _ => ([], Some e)
      | Stream.ReadOk v pos' =>
          let '(recs, e) := records_from fuel' content pos' in
          ((pos, v) :: recs, e)
      end
  end.

(** The entries for the records that match, in the order of the records. *)
Fixpoint matching (m : SearchParams) (recs : list (Z * Index)) : list SearchFileInfo :=
  match recs with
  | [] => []
  | (off, v) :: rest =>
      if isMatchSearch v m then {| Id := off; info := v |} :: matching m rest
      else matching m rest
  end.

(** How a scan that reached the end of the records finishes. *)
Definition at_end (e : error) (rst : list SearchFileInfo) : result (list SearchFileInfo) :=
  if error_is_EOF e then Ok rst else Err e.

(** What the loop returns, from the records that are left to read: with the
    sentinel -1 all their matches; otherwise the matches up to the one that
    brings the count to the limit (at least one match is taken before the
    count is compared), or all of them when there are fewer. *)
Definition loop_result (m : SearchParams) (limit : Z) (recs : list (Z * Index))
    (e : error) (rst : list SearchFileInfo) (take : Z) : result (list SearchFileInfo) :=
  let ms := matching m recs in
  if Z.eqb limit (-1) then at_end e (rst ++ ms)%list
  else
    let need := Z.to_nat (Z.max limit 1 - take) in
    if (need <=? length ms)%nat then Ok (rst ++ firstn need ms)%list
    else at_end e (rst ++ ms)%list.

End WithCodec.
End Search.

(* ===================================================================== *)
(** ** A concrete runtime *)
(* ===================================================================== *)

(** Concrete library functions on which the model can be run: byte-wise
    lower-casing, [MiniRegexp], paths joined with a slash, and a
    line-oriented text encoding of records (fields separated by tabs, tags
    by commas) in the place of JSON. *)
Module Ref.

Definition tab : ascii := ascii_of_nat 9.
Definition lf : ascii := ascii_of_nat 10.

Fixpoint split_on (c : ascii) (s : string) : list string :=
  match s with
  | EmptyString => [""]
  | String d s' =>
      if Ascii.eqb d c then "" :: split_on c s'
      else match split_on c s' with
           | f :: fs => String d f :: fs
           | [] => [String d ""]
           end
  end.

Fixpoint string_drop (n : nat) (s : string) : string :=
  match n, s with
  | O, _ => s
  | S _, EmptyString => EmptyString
  | S n', String _ s' => string_drop n' s'
  end.

(** The bytes up to the next line feed, and what follows it. *)
Fixpoint read_line (s : string) : option (string * string) :=
  match s with
  | EmptyString => None
  | String c s' =>
      if Ascii.eqb c lf then Some ("", s')
      else match read_line s' with
           | Some (l, r) => Some (String c l, r)
           | None => None
           end
  end.

Definition encode_record (v : Scan.FileInfo) : string :=
  String.concat (String tab "")
    [Scan.Name v; Scan.Path v; Scan.Ext v; String.concat "," (Scan.Tags v)].

Definition decode_line (line : string) : option Scan.FileInfo :=
  match split_on tab line with
  | [n; p; e; t] =>
      Some {| Scan.Name := n; Scan.Path := p;
              Scan.Tags := if String.eqb t "" then [] else split_on "," t;
              Scan.Ext := e |}
  | _ => None
  end.

(** Decoding one record at the cursor: a whole line, line feed included. *)
Definition line_Read (content : string) (pos : Z) : Stream.read_result :=
  if pos <? 0 then Stream.ReadErr (PathError "read" "") pos
  else
    match string_drop (Z.to_nat pos) content with
    | EmptyString => Stream.ReadErr EOF pos
    | rest =>
        match read_line rest with
        | None =>
            Stream.ReadErr (SyntaxError "unexpected end of input")
                           (Z.of_nat (String.length content))
        | Some (line, _) =>
            let pos' := pos + Z.of_nat (String.length line) + 1 in
            match decode_line line with
            | Some v => Stream.ReadOk v pos'
            | None => Stream.ReadErr (SyntaxError "malformed record") pos'
            end
        end
    end.

Definition show_Z (z : Z) : string := NilZero.string_of_int (Z.to_int z).
Definition read_Z (s : string) : option Z := option_map Z.of_int (NilZero.int_of_string s).

Definition show_entry (kv : string * bool) : string :=
  fst kv +:+ (if snd kv then "=true" else "=false").

Definition encode_map (m : gmap string bool) : string :=
  String.concat ";" (map show_entry (map_to_list m)).

(** Times are written as the instant, [@], and the zone: [Z] for the offset
    0 and the offset in hours otherwise.  [host] is the offset of the local
    zone of the machine: a time in [time.Local] is written with it, so on a
    machine whose local zone is UTC it is written with [Z]. *)
Definition zone_offset (host : Z) (l : Location) : Z :=
  match l with
  | UTC => 0
  | Local => host
  | FixedZone o => o
  end.

Definition encode_time (host : Z) (t : Time) : string :=
  let o := zone_offset host (loc t) in
  show_Z (instant t) +:+ "@" +:+ (if Z.eqb o 0 then "Z" else show_Z o).

(** Reading a time back: [Z] gives UTC; an offset gives [time.Local] when
    it is the offset of the local zone, and a fixed zone otherwise. *)
Definition decode_time (host : Z) (s : string) : option Time :=
  match split_on "@" s with
  | [i; z] =>
      match read_Z i with
      | None => None
      | Some t =>
          if String.eqb z "Z" then Some {| instant := t; loc := UTC |}
          else match read_Z z with
               | None => None
               | Some o =>
                   Some {| instant := t;
                           loc := if Z.eqb o host then Local else FixedZone o |}
               end
      end
  | _ => None
  end.

Definition encode_meta (host : Z) (m : Scan.MetaData) : string :=
  encode_time host (Scan.LastUpdate m) +:+ " " +:+ encode_time host (Scan.CreateTime m).

(** Well-formed metadata: two fields separated by one space. *)
Definition valid_meta (b : string) : bool :=
  match split_on " " b with
  | [_; _] => true
  | _ => false
  end.

(** Fills the fields that parse, and reports the first one that does not. *)
Definition decode_meta (host : Z) (b : string) (meta : Scan.MetaData)
  : Scan.MetaData * option error :=
  match split_on " " b with
  | [u; c] =>
      match decode_time host u with
      | None => (meta, Some (SyntaxError "invalid timestamp"))
      | Some t =>
          let m1 := {| Scan.LastUpdate := t; Scan.CreateTime := Scan.CreateTime meta |} in
          match decode_time host c with
          | None => (m1, Some (SyntaxError "invalid timestamp"))
          | Some t' => ({| Scan.LastUpdate := t; Scan.CreateTime := t' |}, None)
          end
      end
  | _ => (meta, Some (SyntaxError "invalid metadata"))
  end.

(** [filepath.Abs] with the working directory [/work]. *)
Definition Abs (p : string) : string :=
  if GoStrings.HasPrefix p "/" then p else "/work/" +:+ p.

Definition Compile (expr : string) : result MiniRegexp.prog :=
  match MiniRegexp.Compile expr with
  | Some p => Ok p
  | None => Err (SyntaxError expr)
  end.

Definition Join (a b : string) : string := a +:+ "/" +:+ b.

(** The compiled form of a pattern of the fragment (the empty pattern for
    a string outside it). *)
Definition MustCompile (expr : string) : MiniRegexp.prog :=
  match MiniRegexp.Compile expr with
  | Some p => p
  | None => {| MiniRegexp.body := MiniRegexp.Empty; MiniRegexp.NumCap := 0 |}
  end.

(** *** A source tree, a configuration and an index file to run on *)

Definition sample_tree : entry :=
  Dir "src" true
    [ File "a.tmp";
      File "photo[cat][2024].JPG";
      Dir ".git" true [File "config"];
      File "notes.txt";
      Bad "gone";
      Dir "docs" true [File "x[cat].txt"; File "B.TMP"];
      File ".bashrc" ].

Definition sample_config : Scan.ScanConfig :=
  {| Scan.IgnoreName := [".git"];
     Scan.IgnoreExt := ["tmp"];
     Scan.TagExpr := "\[(\w+)\]";
     Scan.IndexFile := "index";
     Scan.ExtListFile := "ext";
     Scan.TagListFile := "tags";
     Scan.MetaFile := "meta" |}.

(** A world in which the source root has the modification time [mtime] (or
    cannot be statted), the tree below it is [tree], and opening a file for
    writing fails exactly on the paths [locked]. *)
Definition sample_world (mtime : option Z) (tree : entry) (locked : list string)
  : World :=
  {| os_Stat := fun _ => mtime;
     time_Now := 1700000100;
     source_tree := fun _ => tree;
     mkdir_fails := fun _ => false;
     open_fails := fun name => existsb (String.eqb name) locked;
     read_fails := fun _ => false;
     write_fails := fun _ _ _ => false;
     range_order := fun m => (map_to_list m).*1;
     range_order_keys := fun m => Permutation_refl _ |}.

(** The same world a hundred ticks later. *)
Definition later_world (w : World) : World :=
  {| os_Stat := os_Stat w;
     time_Now := time_Now w + 100;
     source_tree := source_tree w;
     mkdir_fails := mkdir_fails w;
     open_fails := open_fails w;
     read_fails := read_fails w;
     write_fails := write_fails w;
     range_order := range_order w;
     range_order_keys := range_order_keys w |}.

(** The same world in a run whose [range] yields the keys of a map in the
    reverse order. *)
Definition reversed_world (w : World) : World :=
  {| os_Stat := os_Stat w;
     time_Now := time_Now w;
     source_tree := source_tree w;
     mkdir_fails := mkdir_fails w;
     open_fails := open_fails w;
     read_fails := read_fails w;
     write_fails := write_fails w;
     range_order := fun m => reverse (range_order w m);
     range_order_keys :=
       fun m => Permutation_trans (reverse_Permutation _) (range_order_keys w m) |}.

Definition record_a : Scan.FileInfo :=
  {| Scan.Name := "a.txt"; Scan.Path := "/x/a.txt"; Scan.Tags := ["x"]; Scan.Ext := "txt" |}.
Definition record_b : Scan.FileInfo :=
  {| Scan.Name := "b.txt"; Scan.Path := "/y/b.txt"; Scan.Tags := ["y"]; Scan.Ext := "txt" |}.

(** A fresh creator for [sample_config], over the data files [fs]. *)
Definition sample_state (fs : Files) : Scan.State :=
  {| Scan.ic := Scan.NewIndexCreator sample_config; Scan.files := fs |}.

(** An index file with the two records, one per line. *)
Definition sample_index : string :=
  encode_record record_a +:+ String lf (encode_record record_b +:+ String lf "").

(** The same index file followed by a line that is no record. *)
Definition broken_index : string :=
  sample_index +:+ "not a record" +:+ String lf "".

(** The filter [ext = txt] and the entries it finds in the sample index. *)
Definition by_ext_txt : Search.SearchParams :=
  {| Search.Name := ""; Search.Tag := ""; Search.Ext := "txt"; Search.Path := "" |}.
Definition hit_a : Search.SearchFileInfo := {| Search.Id := 0; Search.info := record_a |}.
Definition hit_b : Search.SearchFileInfo := {| Search.Id := 21; Search.info := record_b |}.

(** A world and data files for searches: the sample index at [data/index],
    the broken one at [data/broken]. *)
Definition search_world : World := sample_world None (Bad "src") [].
Definition search_files : Files :=
  {[ "data/index" := sample_index; "data/broken" := broken_index ]}.

(** The sample configuration with roots, and one whose pattern does not
    compile. *)
Definition sample_root_config : Scan.RootConfig :=
  {| Scan.cfg_ScanConfig := sample_config; Scan.SrcRoot := "src"; Scan.DataRoot := "data" |}.

Definition bad_pattern_config : Scan.ScanConfig :=
  {| Scan.IgnoreName := [];
     Scan.IgnoreExt := [];
     Scan.TagExpr := "(";
     Scan.IndexFile := "index";
     Scan.ExtListFile := "ext";
     Scan.TagListFile := "tags";
     Scan.MetaFile := "meta" |}.

End Ref.

(* ===================================================================== *)
(** * Properties *)
(* ===================================================================== *)

(** ** Strings *)

Section StringFacts.
Import GoStrings.

Lemma HasPrefix_iff (s prefix : string) :
  HasPrefix s prefix = true <-> exists post, s = prefix +:+ post.
Proof.
  revert s. induction prefix as [|c p IH]; intros s.
  - destruct s; simpl; split; eauto.
  - destruct s as [|d s']; simpl.
    + split; [discriminate | intros [post Hp]; discriminate].
    + destruct (Ascii.eqb_spec c d) as [->|Hne].
      * rewrite IH. split; intros [post Hp]; exists post.
        -- simpl. now rewrite Hp.
        -- simpl in Hp. now inversion Hp.
      * split; [discriminate | intros [post Hp]; simpl in Hp; inversion Hp; congruence].
Qed.

Lemma Contains_cons (c : ascii) (s sub : string) :
  Contains (String c s) sub <-> HasPrefix (String c s) sub = true \/ Contains s sub.
Proof.
  split.
  - intros (pre & post & Hs). destruct pre as [|d pre'].
    + left. apply HasPrefix_iff. exists post. exact Hs.
    + right. simpl in Hs. inversion Hs; subst. exists pre', post. reflexivity.
  - intros [Hp | (pre & post & Hs)].
    + apply HasPrefix_iff in Hp as [post Hp]. exists "", post. exact Hp.
    + exists (String c pre), post. simpl. now rewrite Hs.
Qed.

Lemma Contains_empty (sub : string) :
  Contains "" sub <-> HasPrefix "" sub = true.
Proof.
  rewrite HasPrefix_iff. split.
  - intros (pre & post & Hs). destruct pre; [|discriminate]. eauto.
  - intros [post Hs]. exists "", post. exact Hs.
Qed.

(** [Index_from] answers -1 exactly when there is no occurrence. *)
Lemma Index_from_spec (s sub : string) (from : Z) :
  0 <= from ->
  (Index_from s sub from = -1 /\ ~ Contains s sub)
  \/ (from <= Index_from s sub from /\ Contains s sub).
Proof.
  revert from. induction s as [|c s IH]; intros from Hfrom.
  - cbn [Index_from]. destruct (HasPrefix "" sub) eqn:Hp.
    + right. split; [lia|]. now apply Contains_empty.
    + left. split; [reflexivity|]. rewrite Contains_empty. congruence.
  - cbn [Index_from]. destruct (HasPrefix (String c s) sub) eqn:Hp.
    + right. split; [lia|]. apply Contains_cons. now left.
    + destruct (IH (from + 1)) as [[He Hn]|[Hle Hc]]; [lia| |].
      * left. split; [exact He|]. rewrite Contains_cons. intros [?|?]; [congruence|tauto].
      * right. split; [lia|]. apply Contains_cons. now right.
Qed.

Lemma Index_not_found (s sub : string) :
  Z.eqb (Index s sub) (-1) = false <-> Contains s sub.
Proof.
  unfold Index. rewrite Z.eqb_neq.
  destruct (Index_from_spec s sub 0) as [[He Hn]|[Hle Hc]]; [lia| |].
  - split; [congruence | contradiction].
  - split; [tauto | lia].
Qed.

End StringFacts.

(** ** The match predicate of the search *)

Lemma tag_loop_In (tags : list string) (tag : string) :
  Search.tag_loop tags tag = true <-> In tag tags.
Proof.
  induction tags as [|t rest IH]; simpl.
  - split; [discriminate | tauto].
  - destruct (String.eqb_spec t tag) as [->|Hne].
    + split; auto.
    + rewrite IH. split; [auto | intros [?|?]; [contradiction | assumption]].
Qed.

(** One criterion of the filter: skipped when the configured value is empty,
    otherwise the test [found] has to succeed. *)
Lemma criterion_iff (value : string) (found : bool) (P : Prop) :
  (found = true <-> P) ->
  (negb (String.eqb value "") && negb found)%bool = false <-> (value = "" \/ P).
Proof.
  intros HP. destruct (String.eqb_spec value "") as [->|Hne]; simpl.
  - split; auto.
  - destruct found; simpl.
    + split; [intros _; right; now apply HP | reflexivity].
    + split; [discriminate | intros [?|HP']; [contradiction | apply HP in HP'; discriminate]].
Qed.

(** C5. A record matches a filter exactly when all four criteria hold, a
    criterion with an empty configured value holding vacuously: name and
    path are case-sensitive substring tests, extension is equality with the
    record's extension, tag is equality with some element of the record's
    tags. *)
Theorem isMatchSearch_conjunction (fi : Search.Index) (m : Search.SearchParams) :
  Search.isMatchSearch fi m = true <->
    (Search.Name m = "" \/ GoStrings.Contains (Scan.Name fi) (Search.Name m)) /\
    (Search.Path m = "" \/ GoStrings.Contains (Scan.Path fi) (Search.Path m)) /\
    (Search.Ext m = "" \/ Scan.Ext fi = Search.Ext m) /\
    (Search.Tag m = "" \/ In (Search.Tag m) (Scan.Tags fi)).
Proof.
  pose proof (criterion_iff (Search.Path m)
                (negb (Z.eqb (GoStrings.Index (Scan.Path fi) (Search.Path m)) (-1)))
                (GoStrings.Contains (Scan.Path fi) (Search.Path m))) as HPath.
  pose proof (criterion_iff (Search.Name m)
                (negb (Z.eqb (GoStrings.Index (Scan.Name fi) (Search.Name m)) (-1)))
                (GoStrings.Contains (Scan.Name fi) (Search.Name m))) as HName.
  pose proof (criterion_iff (Search.Ext m)
                (String.eqb (Scan.Ext fi) (Search.Ext m))
                (Scan.Ext fi = Search.Ext m) (String.eqb_eq _ _)) as HExt.
  pose proof (criterion_iff (Search.Tag m)
                (Search.tag_loop (Scan.Tags fi) (Search.Tag m))
                (In (Search.Tag m) (Scan.Tags fi)) (tag_loop_In _ _)) as HTag.
  rewrite negb_involutive in HPath, HName.
  assert (HP : forall s sub, negb (Z.eqb (GoStrings.Index s sub) (-1)) = true
                             <-> GoStrings.Contains s sub).
  { intros s sub. rewrite negb_true_iff. apply Index_not_found. }
  specialize (HPath (HP _ _)). specialize (HName (HP _ _)).
  unfold Search.isMatchSearch.
  destruct (negb (String.eqb (Search.Path m) "")
            && Z.eqb (GoStrings.Index (Scan.Path fi) (Search.Path m)) (-1))%bool.
  { split; [discriminate|]. intros (_ & H & _). apply HPath in H. discriminate. }
  destruct (negb (String.eqb (Search.Name m) "")
            && Z.eqb (GoStrings.Index (Scan.Name fi) (Search.Name m)) (-1))%bool.
  { split; [discriminate|]. intros (H & _). apply HName in H. discriminate. }
  destruct (negb (String.eqb (Search.Ext m) "")
            && negb (String.eqb (Scan.Ext fi) (Search.Ext m)))%bool.
  { split; [discriminate|]. intros (_ & _ & H & _). apply HExt in H. discriminate. }
  destruct (negb (String.eqb (Search.Tag m) "")
            && negb (Search.tag_loop (Scan.Tags fi) (Search.Tag m)))%bool.
  { split; [discriminate|]. intros (_ & _ & _ & H). apply HTag in H. discriminate. }
  split; [intros _|reflexivity].
  repeat split; [apply HName | apply HPath | apply HExt | apply HTag]; reflexivity.
Qed.

(** ** The extension of a file name *)

Section ExtFacts.
Import GoStrings Filepath.

Lemma length_app (a b : string) :
  String.length (a +:+ b) = (String.length a + String.length b)%nat.
Proof. induction a as [|c a IH]; simpl; [reflexivity | now rewrite IH]. Qed.

Lemma get_app_r (pre s : string) (j : nat) :
  String.get (String.length pre + j) (pre +:+ s) = String.get j s.
Proof. induction pre as [|c pre IH]; simpl; [reflexivity | exact IH]. Qed.

Lemma substring_app_r (pre s : string) (n : nat) :
  String.substring (String.length pre) n (pre +:+ s) = String.substring 0 n s.
Proof. induction pre as [|c pre IH]; simpl; [reflexivity | exact IH]. Qed.

Lemma substring_all (s : string) :
  String.substring 0 (String.length s) s = s.
Proof. induction s as [|c s IH]; simpl; [reflexivity | now rewrite IH]. Qed.

Lemma get_Some_lt (s : string) (i : nat) :
  (i < String.length s)%nat -> exists c, String.get i s = Some c.
Proof.
  revert i. induction s as [|c s IH]; intros i Hi; simpl in *; [lia|].
  destruct i as [|i]; [eauto | apply IH; lia].
Qed.

Lemma all_bytes_get (p : ascii -> bool) (s : string) (i : nat) (c : ascii) :
  all_bytes p s = true -> String.get i s = Some c -> p c = true.
Proof.
  revert i. induction s as [|d s IH]; intros i Hall Hget; simpl in *; [discriminate|].
  apply andb_true_iff in Hall as [Hd Hs].
  destruct i as [|i]; [inversion Hget; subst; exact Hd | eauto].
Qed.

(** Without a dot the loop of [Ext] finds nothing. *)
Lemma Ext_loop_no_dot (path : string) (n : nat) :
  has_no "." path = true -> Ext_loop path n = "".
Proof.
  intros Hno. induction n as [|i IH]; simpl; [reflexivity|].
  destruct (String.get i path) as [c|] eqn:Hget; [|reflexivity].
  destruct (IsPathSeparator c); [reflexivity|].
  pose proof (all_bytes_get _ _ _ _ Hno Hget) as Hc. simpl in Hc.
  apply negb_true_iff in Hc. rewrite Hc. exact IH.
Qed.

(** Scanning back over a suffix with neither dot nor separator stops at the
    dot in front of it. *)
Lemma Ext_loop_suffix (pre suf : string) (k : nat) :
  has_no "." suf = true -> has_no "/" suf = true ->
  (k <= String.length suf)%nat ->
  Ext_loop (pre +:+ "." +:+ suf) (String.length pre + 1 + k) = "." +:+ suf.
Proof.
  intros Hdot Hsep. induction k as [|k IH]; intros Hk.
  - replace (String.length pre + 1 + 0)%nat with (S (String.length pre)) by lia.
    cbn [Ext_loop].
    replace (String.length pre) with (String.length pre + 0)%nat at 1 by lia.
    rewrite get_app_r. change (String.get 0 ("." +:+ suf)) with (Some "."%char).
    cbn iota. change (IsPathSeparator ".") with false. cbn iota.
    change (Ascii.eqb "." ".") with true. cbn iota.
    rewrite substring_app_r, length_app.
    replace (String.length pre + String.length ("." +:+ suf) - String.length pre)%nat
      with (String.length ("." +:+ suf)) by lia.
    apply substring_all.
  - replace (String.length pre + 1 + S k)%nat with (S (String.length pre + 1 + k)) by lia.
    cbn [Ext_loop].
    replace (String.length pre + 1 + k)%nat with (String.length pre + S k)%nat at 1 by lia.
    rewrite get_app_r. change (String.get (S k) ("." +:+ suf)) with (String.get k suf).
    destruct (get_Some_lt suf k) as [c Hc]; [lia|]. rewrite Hc.
    pose proof (all_bytes_get _ _ _ _ Hdot Hc) as H1.
    pose proof (all_bytes_get _ _ _ _ Hsep Hc) as H2. simpl in H1, H2.
    apply negb_true_iff in H1, H2. unfold IsPathSeparator. rewrite H1, H2.
    apply IH. lia.
Qed.

Lemma Ext_at_final_dot (pre suf : string) :
  has_no "." suf = true -> has_no "/" suf = true ->
  Ext (pre +:+ "." +:+ suf) = "." +:+ suf.
Proof.
  intros Hdot Hsep. unfold Ext. rewrite length_app.
  change (String.length ("." +:+ suf)) with (S (String.length suf)).
  replace (String.length pre + S (String.length suf))%nat
    with (String.length pre + 1 + String.length suf)%nat by lia.
  apply Ext_loop_suffix; auto.
Qed.

End ExtFacts.

(** C4, as the code has it.  The extension is the lower-cased suffix after
    the last dot of the file name; it is empty when the name has no dot or
    when nothing follows the last dot.  A leading dot counts like any other:
    the name [.bashrc] has the extension [bashrc]. *)
Theorem getExt_last_dot `{Scan.GoRuntime} :
  (forall name, GoStrings.has_no "." name = true -> Scan.getExt name = "") /\
  (forall pre suf,
      GoStrings.has_no "." suf = true -> GoStrings.has_no "/" suf = true ->
      Scan.getExt (pre +:+ "." +:+ suf)
      = if String.eqb suf "" then "" else Scan.ToLower suf) /\
  Scan.getExt ".bashrc" = Scan.ToLower "bashrc".
Proof.
  assert (Hsuf : forall pre suf,
      GoStrings.has_no "." suf = true -> GoStrings.has_no "/" suf = true ->
      Scan.getExt (pre +:+ "." +:+ suf)
      = if String.eqb suf "" then "" else Scan.ToLower suf).
  { intros pre suf Hdot Hsep. unfold Scan.getExt.
    rewrite (Ext_at_final_dot pre suf Hdot Hsep).
    destruct suf as [|c suf]; [reflexivity|].
    change (String.eqb (String c suf) "") with false. cbn iota.
    simpl String.length. cbn [Nat.leb].
    replace (S (S (String.length suf)) - 1)%nat with (S (String.length suf)) by lia.
    change (String.substring 1 (S (String.length suf)) ("." +:+ String c suf))
      with (String.substring 0 (String.length (String c suf)) (String c suf)).
    now rewrite substring_all. }
  split; [|split].
  - intros name Hno. unfold Scan.getExt, Filepath.Ext.
    now rewrite Ext_loop_no_dot.
  - exact Hsuf.
  - apply (Hsuf "" "bashrc"); reflexivity.
Qed.

(** ** The concrete instances *)

Section MiniRegexpFacts.
Import MiniRegexp.

Lemma star_loop_caps (step : mstate -> list mstate) :
  (forall st st', In st' (step st) -> length (snd st') = length (snd st)) ->
  forall n st st', In st' (star_loop step n st) -> length (snd st') = length (snd st).
Proof.
  intros Hstep. induction n as [|n IH]; intros st st' Hin; simpl in Hin.
  - destruct Hin as [<-|[]]. reflexivity.
  - apply in_app_iff in Hin as [Hin|[<-|[]]]; [|reflexivity].
    apply in_flat_map in Hin as (mid & Hmid & Hin).
    destruct (fst st <? fst mid)%nat; [|destruct Hin].
    rewrite (IH _ _ Hin). now apply Hstep.
Qed.

(** Matching never changes the number of submatch slots. *)
Lemma run_caps (r : re) (s : list ascii) :
  forall st st', In st' (run r s st) -> length (snd st') = length (snd st).
Proof.
  induction r as [|p|a IHa b IHb|a IHa b IHb|a IHa|a IHa|a IHa|i a IHa];
    intros st st' Hin; simpl in Hin.
  - destruct Hin as [<-|[]]. reflexivity.
  - destruct (s !! fst st) as [c|]; [|destruct Hin].
    destruct (p c); [|destruct Hin]. destruct Hin as [<-|[]]. reflexivity.
  - apply in_flat_map in Hin as (mid & Hmid & Hin).
    rewrite (IHb _ _ Hin). now apply IHa.
  - apply in_app_iff in Hin as [Hin|Hin]; [now apply IHa | now apply IHb].
  - now apply (star_loop_caps _ IHa) in Hin.
  - apply in_flat_map in Hin as (mid & Hmid & Hin).
    apply (star_loop_caps _ IHa) in Hin. rewrite Hin. now apply IHa.
  - apply in_app_iff in Hin as [Hin|[<-|[]]]; [now apply IHa | reflexivity].
  - apply in_map_iff in Hin as (mid & <- & Hmid). simpl.
    rewrite length_insert. now apply IHa.
Qed.

Lemma match_at_caps (p : prog) (s : list ascii) (pos e : nat) (caps : list string) :
  match_at p s pos = Some (e, caps) -> length caps = S (NumCap p).
Proof.
  unfold match_at.
  destruct (run (body p) s (pos, replicate (S (NumCap p)) "")) as [|[e' caps'] rest] eqn:Hrun;
    [discriminate|].
  intros Heq. inversion Heq; subst. rewrite length_insert.
  assert (Hin : In (e, caps') (run (body p) s (pos, replicate (S (NumCap p)) "")))
    by (rewrite Hrun; now left).
  apply run_caps in Hin. simpl in Hin. now rewrite Hin, length_replicate.
Qed.

Lemma doExecute_caps (p : prog) (s : list ascii) (n pos b e : nat) (caps : list string) :
  doExecute p s n pos = Some (b, e, caps) -> length caps = S (NumCap p).
Proof.
  revert pos. induction n as [|n IH]; intros pos; simpl;
    destruct (match_at p s pos) as [[e' caps']|] eqn:Hm.
  - intros Heq. inversion Heq; subst. eapply match_at_caps; eauto.
  - discriminate.
  - intros Heq. inversion Heq; subst. eapply match_at_caps; eauto.
  - apply IH.
Qed.

Lemma allMatches_caps (p : prog) (s : list ascii) (fuel pos : nat) (prev : Z) (m : list string) :
  In m (allMatches p s fuel pos prev) -> length m = S (NumCap p).
Proof.
  revert pos prev. induction fuel as [|fuel IH]; intros pos prev; simpl; [tauto|].
  destruct (length s <? pos)%nat; [simpl; tauto|].
  destruct (doExecute p s (length s - pos) pos) as [[[b e] caps]|] eqn:Hd; [|simpl; tauto].
  destruct (negb _); [intros [<-|Hin] | intros Hin]; eauto using doExecute_caps.
Qed.

Lemma FindAll_length (p : prog) (name : string) (m : list string) :
  In m (FindAll p name) -> length m = S (NumCap p).
Proof. apply allMatches_caps. Qed.

End MiniRegexpFacts.

#[export] Instance MiniEngine : RegexpEngine := {|
  Regexp := MiniRegexp.prog;
  NumSubexp := MiniRegexp.NumCap;
  FindAllStringSubmatch := MiniRegexp.FindAll;
  FindAllStringSubmatch_length := FindAll_length
|}.

Lemma decode_meta_invalid (host : Z) (b : string) (meta : Scan.MetaData) :
  Ref.valid_meta b = false ->
  exists e, Ref.decode_meta host b meta = (meta, Some e).
Proof.
  unfold Ref.valid_meta, Ref.decode_meta.
  destruct (Ref.split_on " " b) as [|u [|c [|x rest]]]; try discriminate; eauto.
Qed.

(** The runtime of a machine whose local zone has the offset [host]. *)
Definition HostRuntime (host : Z) : @Scan.GoRuntime MiniEngine := {|
  Scan.ToLower := GoStrings.ToLowerASCII;
  Scan.regexp_Compile := Ref.Compile;
  Scan.path_Join := Ref.Join;
  Scan.filepath_Join := Ref.Join;
  Scan.filepath_Abs := Ref.Abs;
  Scan.json_Marshal_FileInfo := fun v => Ok (Ref.encode_record v);
  Scan.json_Marshal_map := fun m => Ok (Ref.encode_map m);
  Scan.json_Marshal_strings := fun l => Ok (String.concat "," l);
  Scan.json_Marshal_MetaData := fun m => Ok (Ref.encode_meta host m);
  Scan.json_Unmarshal_MetaData := Ref.decode_meta host;
  Scan.json_Valid := Ref.valid_meta;
  Scan.json_Unmarshal_invalid := decode_meta_invalid host
|}.

(** A machine eight hours east of Greenwich, and one on UTC. *)
#[export] Instance RefRuntime : @Scan.GoRuntime MiniEngine := HostRuntime 8.
Definition UtcRuntime : @Scan.GoRuntime MiniEngine := HostRuntime 0.

Section LineCodecFacts.
Import Ref.

Lemma string_drop_length (n : nat) (s : string) :
  String.length (string_drop n s) = (String.length s - n)%nat.
Proof.
  revert s. induction n as [|n IH]; intros s; simpl; [lia|].
  destruct s as [|c s]; simpl; [reflexivity | apply IH].
Qed.

Lemma read_line_length (s line rest : string) :
  read_line s = Some (line, rest) ->
  String.length s = (String.length line + 1 + String.length rest)%nat.
Proof.
  revert line. induction s as [|c s IH]; intros line; simpl; [discriminate|].
  destruct (Ascii.eqb c lf).
  - intros Heq. inversion Heq; subst. simpl. lia.
  - destruct (read_line s) as [[l r]|]; [|discriminate].
    intros Heq. inversion Heq; subst. simpl. rewrite (IH l eq_refl). lia.
Qed.

Lemma line_Read_advances (content : string) (pos : Z) (v : Scan.FileInfo) (pos' : Z) :
  line_Read content pos = Stream.ReadOk v pos' ->
  pos < pos' <= Z.of_nat (String.length content).
Proof.
  unfold line_Read. destruct (Z.ltb_spec pos 0) as [Hneg|Hpos]; [discriminate|].
  pose proof (string_drop_length (Z.to_nat pos) content) as Hlen.
  destruct (string_drop (Z.to_nat pos) content) as [|c rest] eqn:Hdrop; [discriminate|].
  destruct (read_line (String c rest)) as [[line r]|] eqn:Hline; [|discriminate].
  apply read_line_length in Hline.
  destruct (decode_line line); [|discriminate].
  intros Heq. inversion Heq; subst. lia.
Qed.

End LineCodecFacts.

#[export] Instance LineCodec : Stream.Codec := {|
  Stream.binary_Read := Ref.line_Read;
  Stream.binary_Read_advances := line_Read_advances
|}.

(** The limit of ext4 with blocks of 4 KiB: 16 TiB less one block. *)
Lemma ext4_limit_int64 : 0 <= 17592186040320 < 2 ^ 63.
Proof. lia. Qed.

#[export] Instance Ext4Limit : Stream.SeekLimit := {|
  Stream.max_offset := 17592186040320;
  Stream.max_offset_int64 := ext4_limit_int64
|}.

(** ** Tag extraction *)

Section ParseTagFacts.
Context `{Scan.GoRuntime}.

(** The loop of [parseTag] appends group 1 of each match, in order, to what
    it has already collected; it fails as soon as a match has no group 1. *)
Lemma parseTag_loop_spec (matches : list (list string)) (acc r : list string) :
  Scan.parseTag_loop matches acc = Some r <->
  exists tags,
    Forall2 (fun (m : list string) t => m !! 1%nat = Some t) matches tags /\
    r = (acc ++ tags)%list.
Proof.
  revert acc. induction matches as [|m rest IH]; intros acc; simpl.
  - split.
    + intros Heq. inversion Heq; subst. exists []. split; [constructor|].
      now rewrite app_nil_r.
    + intros (tags & HF & ->). inversion HF; subst. now rewrite app_nil_r.
  - destruct (m !! 1%nat) as [t|] eqn:Hm.
    + rewrite IH. split.
      * intros (tags & HF & ->). exists (t :: tags). split; [now constructor|].
        now rewrite <- app_assoc.
      * intros (tags & HF & ->). inversion HF as [|? t' ? tags' Ht HF']; subst.
        assert (t' = t) by congruence. subst t'.
        exists tags'. split; [exact HF'|]. now rewrite <- app_assoc.
    + split; [discriminate|].
      intros (tags & HF & _). inversion HF; subst. congruence.
Qed.

Lemma parseTag_loop_total (matches : list (list string)) (acc : list string) :
  Forall (fun m : list string => (2 <= length m)%nat) matches ->
  exists r, Scan.parseTag_loop matches acc = Some r.
Proof.
  intros HF. revert acc. induction HF as [|m rest Hm HF IH]; intros acc; simpl; [eauto|].
  destruct (lookup_lt_is_Some_2 m 1%nat) as [t Ht]; [lia|].
  rewrite Ht. apply IH.
Qed.

End ParseTagFacts.

(** C8. For every file name and compiled pattern, the tags [parseTag]
    returns are the first capture group of each match of
    [FindAllStringSubmatch] (the non-overlapping matches, in match order),
    one tag per match and nothing removed, so duplicates stay; for the
    pattern [\[(\w+)\]] and the name [photo[cat][2024].jpg] they are [cat],
    [2024]. *)
Theorem parseTag_first_groups_in_order :
  (forall (E : RegexpEngine) (R : Scan.GoRuntime) (name : string) (reg : Regexp)
          (tags : list string),
      Scan.parseTag name reg = Some (tags, None) <->
      Forall2 (fun (m : list string) t => m !! 1%nat = Some t)
              (FindAllStringSubmatch reg name) tags) /\
  (Scan.regexp_Compile "\[(\w+)\]" = Ok (Ref.MustCompile "\[(\w+)\]") /\
   Scan.parseTag "photo[cat][2024].jpg" (Ref.MustCompile "\[(\w+)\]")
   = Some (["cat"; "2024"], None) /\
   Scan.parseTag "x[a][b][a]" (Ref.MustCompile "\[(\w+)\]")
   = Some (["a"; "b"; "a"], None)).
Proof.
  split.
  - intros E R name reg tags. unfold Scan.parseTag.
    destruct (Scan.parseTag_loop (FindAllStringSubmatch reg name) []) as [r|] eqn:Hloop.
    + apply parseTag_loop_spec in Hloop as (ts & HF & ->). simpl. split.
      * intros Heq. inversion Heq; subst. exact HF.
      * intros HF'. f_equal. f_equal.
        clear -HF HF'. revert tags HF'.
        induction HF as [|m t ms ts' Hm HF IH]; intros tags HF'; inversion HF'; subst;
          [reflexivity|]. f_equal; [congruence | now apply IH].
    + split; [discriminate|]. intros HF.
      assert (Hs : Scan.parseTag_loop (FindAllStringSubmatch reg name) [] = Some ([] ++ tags)%list)
        by (apply parseTag_loop_spec; eauto).
      congruence.
  - split; [|split]; vm_compute; reflexivity.
Qed.

(** C9. [parseTag] reads group 1 of every match unguarded.  With at least
    one capture group in the pattern it returns for every name, and its
    error is nil; with a pattern that has no capture group, a name the
    pattern matches makes it panic (index out of range).  Whenever it
    returns, its error result is nil. *)
Theorem parseTag_total_iff_capture_group `{Scan.GoRuntime} (name : string) (reg : Regexp) :
  ((1 <= NumSubexp reg)%nat -> exists tags, Scan.parseTag name reg = Some (tags, None)) /\
  (NumSubexp reg = 0%nat -> FindAllStringSubmatch reg name <> [] ->
   Scan.parseTag name reg = None) /\
  (forall tags e, Scan.parseTag name reg = Some (tags, e) -> e = None).
Proof.
  split; [|split].
  - intros Hn. unfold Scan.parseTag.
    destruct (parseTag_loop_total (FindAllStringSubmatch reg name) []) as [r Hr].
    { apply Forall_forall. intros m Hm. apply list_elem_of_In in Hm.
      apply FindAllStringSubmatch_length in Hm. lia. }
    rewrite Hr. eauto.
  - intros Hn Hne. unfold Scan.parseTag.
    destruct (FindAllStringSubmatch reg name) as [|m rest] eqn:Hms; [contradiction|].
    assert (Hlen : length m = 1%nat).
    { rewrite <- Hn. apply (FindAllStringSubmatch_length reg name). rewrite Hms. now left. }
    simpl. rewrite (lookup_ge_None_2 m 1%nat) by lia. reflexivity.
  - intros tags e. unfold Scan.parseTag.
    destruct (Scan.parseTag_loop _ _); [|discriminate].
    intros Heq. now inversion Heq.
Qed.

(** The pattern [\[(\w+)\]] has a group: tags are returned.  The pattern
    [\w+] has none and matches [a.txt]: the call panics. *)
Lemma parseTag_total_iff_capture_group_witness :
  (exists tags,
      Scan.parseTag "photo[cat].jpg" (Ref.MustCompile "\[(\w+)\]") = Some (tags, None)) /\
  Scan.parseTag "a.txt" (Ref.MustCompile "\w+") = None.
Proof.
  split.
  - refine (proj1 (parseTag_total_iff_capture_group
                     "photo[cat].jpg" (Ref.MustCompile "\[(\w+)\]")) _).
    vm_compute. constructor.
  - refine (proj1 (proj2 (parseTag_total_iff_capture_group
                            "a.txt" (Ref.MustCompile "\w+"))) _ _).
    + vm_compute. reflexivity.
    + vm_compute. discriminate.
Defined.

(** ** The indexer: writing files *)

Section CreateFacts.
Context `{Scan.GoRuntime}.
Import Scan.

Implicit Types (st : State) (w : World).

Lemma only_writes_refl f st : only_writes f st st.
Proof. intros g _. reflexivity. Qed.

Lemma only_writes_trans f st1 st2 st3 :
  only_writes f st1 st2 -> only_writes f st2 st3 -> only_writes f st1 st3.
Proof. intros H12 H23 g Hg. rewrite (H23 g Hg). exact (H12 g Hg). Qed.

Lemma os_OpenFile_trunc_frame w f fs e fs' :
  os_OpenFile_trunc w f fs = (e, fs') ->
  (forall g, g <> f -> fs' !! g = fs !! g) /\
  (e = None -> fs' !! f = Some "").
Proof.
  unfold os_OpenFile_trunc. destruct (open_fails w f); intros Heq; inversion Heq; subst.
  - split; [reflexivity | discriminate].
  - split; [intros g Hg; now rewrite lookup_insert_ne | intros _; apply lookup_insert_eq].
Qed.

Lemma file_Write_frame w f data fs e fs' :
  file_Write w f data fs = (e, fs') ->
  (forall g, g <> f -> fs' !! g = fs !! g) /\
  (e = None -> fs' !! f = Some (default "" (fs !! f) +:+ data)).
Proof.
  unfold file_Write.
  destruct (write_fails w f (default "" (fs !! f)) data); intros Heq; inversion Heq; subst.
  - split; [reflexivity | discriminate].
  - split; [intros g Hg; now rewrite lookup_insert_ne | intros _; apply lookup_insert_eq].
Qed.

(** [writeJsonFile] returns (no panic), keeps the creator, writes only
    [f], and on success [f] holds the encoding. *)
Lemma writeJsonFile_spec w f enc st :
  exists e st',
    writeJsonFile w f enc st = (Some e, st') /\
    ic st' = ic st /\
    only_writes f st st' /\
    (e = None -> exists data, enc = Ok data /\ files st' !! f = Some data).
Proof.
  unfold writeJsonFile, bind, on_files, ret.
  destruct (os_OpenFile_trunc w f (files st)) as [e1 fs1] eqn:Hopen.
  apply os_OpenFile_trunc_frame in Hopen as [Hfr1 Hc1].
  destruct e1 as [err|].
  - eexists _, _. split; [reflexivity|]. simpl. repeat split; auto. discriminate.
  - destruct enc as [data|err].
    + simpl. destruct (file_Write w f data fs1) as [e2 fs2] eqn:Hwrite.
      apply file_Write_frame in Hwrite as [Hfr2 Hc2]. simpl.
      destruct e2 as [err|]; eexists _, _; (split; [reflexivity|]); simpl.
      * repeat split; auto; [|discriminate].
        intros g Hg. simpl. now rewrite Hfr2, Hfr1.
      * repeat split; auto.
        -- intros g Hg. simpl. now rewrite Hfr2, Hfr1.
        -- intros _. exists data. split; [reflexivity|].
           rewrite Hc2, Hc1 by reflexivity. reflexivity.
    + eexists _, _. split; [reflexivity|]. simpl. repeat split; auto. discriminate.
Qed.

(** *** Walking the tree *)

(** Induction on an entry, with the hypothesis for all listed entries of a
    directory. *)
Lemma entry_ind' (P : entry -> Prop)
    (HF : forall n, P (File n))
    (HD : forall n r kids, Forall P kids -> P (Dir n r kids))
    (HB : forall n, P (Bad n)) :
  forall e, P e.
Proof.
  fix IH 1. intros [n|n r kids|n]; [apply HF | | apply HB].
  apply HD. induction kids as [|k kids IHk]; constructor; [apply IH | exact IHk].
Qed.

Section WalkFacts.
Variable fn : WalkFunc.

(** A reflexive and transitive relation that every call of the function
    respects, whatever the call returns, is respected by the walk. *)
Section AnyOutcome.
Variable R : State -> State -> Prop.
Hypothesis R_refl : forall st, R st st.
Hypothesis R_trans : forall st1 st2 st3, R st1 st2 -> R st2 st3 -> R st1 st3.
Hypothesis R_fn : forall path info err st, R st (snd (fn path info err st)).

Lemma walk_names_rel (rec : string -> entry -> M walk_ret) path names :
  Forall (fun k => forall p st, R st (snd (rec p k st))) names ->
  forall st, R st (snd (walk_names rec fn path names st)).
Proof.
  induction 1 as [|k rest Hk _ IH]; intros st; simpl; [apply R_refl|].
  destruct k as [n|n r kids|n]; unfold bind.
  - specialize (Hk (filepath_Join path n) st). simpl entry_name.
    destruct (rec (filepath_Join path n) (File n) st) as [[[| |e]|] st1]; simpl in *; eauto.
  - specialize (Hk (filepath_Join path n) st). simpl entry_name.
    destruct (rec (filepath_Join path n) (Dir n r kids) st) as [[[| |e]|] st1];
      simpl in *; eauto.
  - simpl entry_name.
    pose proof (R_fn (filepath_Join path n) None
                  (Some (PathError "lstat" (filepath_Join path n))) st) as Hf.
    destruct (fn (filepath_Join path n) None _ st) as [[[| |e]|] st1]; simpl in *; eauto.
Qed.

Lemma walk_rel e : forall path st, R st (snd (walk fn path e st)).
Proof.
  induction e as [n|n r kids IH|n] using entry_ind'; intros path st; simpl;
    [apply R_fn | | apply R_fn].
  unfold bind.
  pose proof (R_fn path (Some (info_of (Dir n r kids)))
                (if r then None else Some (PathError "open" path)) st) as Hf.
  destruct (fn path (Some (info_of (Dir n r kids))) _ st) as [[err1|] st1]; simpl in *;
    [|exact Hf].
  destruct r, err1; simpl; try exact Hf.
  eapply R_trans; [exact Hf|]. now apply walk_names_rel.
Qed.

End AnyOutcome.

(** An invariant that every call of the function keeps when it returns
    without an error is kept by a walk that returns without an error. *)
Section GoodOutcome.
Variable I : State -> Prop.

Hypothesis I_fn : forall path info err st,
  returns_ok (fn path info err st) -> I st -> I (snd (fn path info err st)).

Lemma walk_names_inv (rec : string -> entry -> M walk_ret) path names :
  Forall (fun k => forall p st, returns_ok (rec p k st) -> I st -> I (snd (rec p k st))) names ->
  forall st, returns_ok (walk_names rec fn path names st) -> I st ->
             I (snd (walk_names rec fn path names st)).
Proof.
  induction 1 as [|k rest Hk _ IH]; intros st; simpl; [auto|].
  destruct k as [n|n r kids|n]; unfold bind.
  - specialize (Hk (filepath_Join path n) st). simpl entry_name.
    destruct (rec (filepath_Join path n) (File n) st) as [[[| |e]|] st1];
      unfold returns_ok in *; simpl in *; auto; try tauto.
  - specialize (Hk (filepath_Join path n) st). simpl entry_name.
    destruct (rec (filepath_Join path n) (Dir n r kids) st) as [[[| |e]|] st1];
      unfold returns_ok in *; simpl in *; auto; try tauto.
  - simpl entry_name.
    pose proof (I_fn (filepath_Join path n) None
                  (Some (PathError "lstat" (filepath_Join path n))) st) as Hf.
    destruct (fn (filepath_Join path n) None _ st) as [[[| |e]|] st1];
      unfold returns_ok in *; simpl in *; auto; try tauto.
Qed.

Lemma walk_inv e :
  forall path st, returns_ok (walk fn path e st) -> I st -> I (snd (walk fn path e st)).
Proof.
  induction e as [n|n r kids IH|n] using entry_ind'; intros path st; simpl;
    [apply I_fn | | apply I_fn].
  unfold bind.
  pose proof (I_fn path (Some (info_of (Dir n r kids)))
                (if r then None else Some (PathError "open" path)) st) as Hf.
  destruct (fn path (Some (info_of (Dir n r kids))) _ st) as [[err1|] st1];
    [|unfold returns_ok; simpl; tauto].
  destruct r, err1; unfold returns_ok in *; simpl in *; auto; try tauto.
  intros Hok Hst. apply walk_names_inv; auto.
Qed.

End GoodOutcome.
End WalkFacts.

(** *** The function handed to the walk *)

Lemma mark_all_snoc (b : bool) (l : list string) (x : string) (m : gmap string bool) :
  mark_all b (l ++ [x])%list m = <[x := b]> (mark_all b l m).
Proof. unfold mark_all. now rewrite foldl_app. Qed.

Lemma lookup_mark_all (b : bool) (l : list string) (m : gmap string bool) (k : string) :
  mark_all b l m !! k = if decide (k ∈ l) then Some b else m !! k.
Proof.
  induction l as [|x l IH] using rev_ind.
  - simpl. destruct (decide (k ∈ [])) as [Hin|_]; [inversion Hin | reflexivity].
  - rewrite mark_all_snoc. destruct (decide (x = k)) as [->|Hne].
    + rewrite lookup_insert_eq. destruct (decide (k ∈ (l ++ [k])%list)) as [_|Hn]; [reflexivity|].
      exfalso. apply Hn. apply elem_of_app. right. now left.
    + rewrite lookup_insert_ne by exact Hne. rewrite IH.
      destruct (decide (k ∈ l)) as [Hin|Hn], (decide (k ∈ (l ++ [x])%list)) as [Hin'|Hn'];
        try reflexivity.
      * exfalso. apply Hn'. apply elem_of_app. now left.
      * exfalso. apply elem_of_app in Hin' as [?|Hx]; [contradiction|].
        apply list_elem_of_singleton in Hx. congruence.
Qed.

Lemma append_assoc (a b c : string) : (a +:+ b) +:+ c = a +:+ (b +:+ c).
Proof.
  induction a as [|x a IH]; [reflexivity|].
  change (String x ((a +:+ b) +:+ c) = String x (a +:+ (b +:+ c))).
  f_equal. exact IH.
Qed.

Lemma index_content_snoc (recs : list FileInfo) (v : FileInfo) (c b : string) :
  index_content recs = Some c -> json_Marshal_FileInfo v = Ok b ->
  index_content (recs ++ [v])%list = Some ((c +:+ b) +:+ newline).
Proof.
  revert c. induction recs as [|u recs IH]; intros c; simpl.
  - intros Hc Hb. inversion Hc; subst. rewrite Hb. simpl.
    now rewrite append_assoc.
  - destruct (json_Marshal_FileInfo u) as [bu|]; [|discriminate].
    destruct (index_content recs) as [tail|]; [|discriminate].
    intros Hc Hb. inversion Hc; subst. rewrite (IH tail eq_refl Hb).
    now rewrite !append_assoc.
Qed.

(** The function writes only the index file and never changes the
    configuration, whatever it returns. *)
Lemma indexEntry_frame w reg index abs path info err st :
  let res := indexEntry w reg index abs path info err st in
  only_writes index st (snd res) /\ same_config st (snd res).
Proof.
  unfold indexEntry, bind, get_ic, put_ic, ret, panic, on_files, same_config.
  destruct err as [e|]; [simpl; split; [apply only_writes_refl | auto]|].
  destruct info as [i|]; [|simpl; split; [apply only_writes_refl | auto]].
  simpl.
  destruct (map_get (ignoreNameMap (ic st)) (info_Name i)).
  { destruct (info_IsDir i); simpl; split; auto using only_writes_refl. }
  destruct (info_IsDir i); [simpl; split; auto using only_writes_refl|].
  destruct (map_get (extMap (ic st)) (getExt (info_Name i)));
    [simpl; split; auto using only_writes_refl|].
  simpl.
  destruct (parseTag (info_Name i) reg) as [[tags [perr|]]|];
    try (simpl; split; [intros g Hg; reflexivity | auto]).
  simpl.
  destruct (json_Marshal_FileInfo _) as [b|merr];
    [|simpl; split; [intros g Hg; reflexivity | auto]].
  simpl.
  destruct (file_Write w index b (files st)) as [e1 fs1] eqn:Hw1.
  apply file_Write_frame in Hw1 as [Hfr1 _]. simpl.
  destruct e1 as [werr|]; [simpl; split; [intros g Hg; simpl; auto | auto]|].
  simpl.
  destruct (file_Write w index newline fs1) as [e2 fs2] eqn:Hw2.
  apply file_Write_frame in Hw2 as [Hfr2 _]. simpl.
  destruct e2 as [werr|]; simpl; (split; [intros g Hg; simpl; rewrite Hfr2, Hfr1; auto | auto]).
Qed.

Lemma map_get_mark_all_false (exts : list string) (m0 : gmap string bool) (ext : string) :
  Forall (fun e => map_get m0 e = false) exts ->
  map_get (mark_all false exts m0) ext = map_get m0 ext.
Proof.
  intros HF. unfold map_get. rewrite lookup_mark_all.
  destruct (decide (ext ∈ exts)) as [Hin|_]; [|reflexivity].
  rewrite Forall_forall in HF. symmetry. exact (HF _ Hin).
Qed.

(** A call that returns without an error either leaves the build where it
    is or appends one record whose extension the initial map does not mark
    [true]. *)
Lemma indexEntry_indexed w reg index abs m0 path info err st :
  returns_ok (indexEntry w reg index abs path info err st) ->
  (exists recs, indexed index m0 recs st) ->
  exists recs, indexed index m0 recs (snd (indexEntry w reg index abs path info err st)).
Proof.
  unfold returns_ok, indexEntry, bind, get_ic, put_ic, ret, panic, on_files.
  destruct err as [e|]; [simpl; auto|].
  destruct info as [i|]; [|simpl; tauto].
  simpl.
  destruct (map_get (ignoreNameMap (ic st)) (info_Name i)).
  { destruct (info_IsDir i); simpl; auto. }
  destruct (info_IsDir i); [simpl; auto|].
  destruct (map_get (extMap (ic st)) (getExt (info_Name i))) eqn:Hext; [simpl; auto|].
  simpl.
  destruct (parseTag (info_Name i) reg) as [[tags [perr|]]|]; try (simpl; tauto).
  simpl.
  destruct (json_Marshal_FileInfo _) as [b|merr] eqn:Hb; [|simpl; tauto].
  simpl.
  destruct (file_Write w index b (files st)) as [e1 fs1] eqn:Hw1.
  apply file_Write_frame in Hw1 as [_ Hc1]. simpl.
  destruct e1 as [werr|]; [simpl; tauto|].
  simpl.
  destruct (file_Write w index newline fs1) as [e2 fs2] eqn:Hw2.
  apply file_Write_frame in Hw2 as [_ Hc2]. simpl.
  destruct e2 as [werr|]; [simpl; tauto|].
  simpl. intros _ (recs & Hmap & HF & c & Hcont & Hfile).
  set (v := {| Name := info_Name i;
               Path := normalizePath (GoStrings.TrimPrefix path abs);
               Tags := tags; Ext := getExt (info_Name i) |}) in *.
  assert (Hexts : Forall (fun e => map_get m0 e = false) (map Ext recs)).
  { apply Forall_map. eapply Forall_impl; [exact HF|]. intros u [_ Hu]. exact Hu. }
  exists (recs ++ [v])%list. unfold indexed. split; [|split].
  - rewrite map_app. change (map Ext [v]) with [getExt (info_Name i)].
    rewrite mark_all_snoc, <- Hmap. reflexivity.
  - apply Forall_app. split; [exact HF|]. constructor; [|constructor].
    split; [reflexivity|]. change (Ext v) with (getExt (info_Name i)).
    rewrite Hmap, map_get_mark_all_false in Hext by exact Hexts. exact Hext.
  - exists ((c +:+ b) +:+ newline). split.
    + now apply index_content_snoc.
    + cbn [files]. rewrite Hc2, Hc1 by reflexivity. rewrite Hfile. reflexivity.
Qed.

(** On a file whose extension the extension map marks [true], the function
    returns nil at once: no record, no change of the maps. *)
Lemma indexEntry_ignored_ext w reg index abs path (name : string) st :
  map_get (ignoreNameMap (ic st)) name = false ->
  map_get (extMap (ic st)) (getExt name) = true ->
  indexEntry w reg index abs path
             (Some {| info_Name := name; info_IsDir := false |}) None st
  = (Some WalkNil, st).
Proof.
  intros Hname Hext. unfold indexEntry, bind, get_ic, ret. simpl.
  now rewrite Hname, Hext.
Qed.

(** *** [createIndexFile] *)

Lemma createIndexFile_frame w root dataRoot st :
  let res := createIndexFile w root dataRoot st in
  only_writes (index_path (ic st) dataRoot) st (snd res) /\ same_config st (snd res).
Proof.
  unfold createIndexFile, Walk, bind, get_ic, panic, ret, on_files, index_path.
  simpl.
  destruct (regexp_Compile (TagExpr (Config (ic st)))) as [reg|cerr];
    [|simpl; split; [apply only_writes_refl | split; reflexivity]].
  destruct (mkdir_fails w dataRoot);
    [simpl; split; [apply only_writes_refl | split; reflexivity]|].
  set (index := path_Join dataRoot (IndexFile (Config (ic st)))).
  destruct (os_OpenFile_trunc w index (files st)) as [e fs1] eqn:Hopen.
  apply os_OpenFile_trunc_frame in Hopen as [Hfr _]. simpl.
  destruct e as [err|]; [simpl; split; [exact Hfr | split; reflexivity]|].
  set (st1 := {| ic := ic st; files := fs1 |}).
  pose proof (walk_rel (indexEntry w reg index (filepath_Abs root))
                (fun a b => only_writes index a b /\ same_config a b)) as Hwalk.
  specialize (Hwalk (fun a => conj (only_writes_refl index a) (conj eq_refl eq_refl))).
  assert (Htrans : forall a b c,
             only_writes index a b /\ same_config a b ->
             only_writes index b c /\ same_config b c ->
             only_writes index a c /\ same_config a c).
  { intros a b c [H1 [H2 H3]] [H4 [H5 H6]]. split; [eapply only_writes_trans; eauto|].
    split; congruence. }
  specialize (Hwalk Htrans (indexEntry_frame w reg index (filepath_Abs root))
                (source_tree w root) root st1).
  destruct (walk _ root (source_tree w root) st1) as [[r|] st2]; simpl in *.
  - assert (Hres : only_writes index st st2 /\ same_config st st2).
    { apply (Htrans st st1 st2); [|exact Hwalk]. split; [exact Hfr | split; reflexivity]. }
    destruct r; simpl; exact Hres.
  - apply (Htrans st st1 st2); [|exact Hwalk]. split; [exact Hfr | split; reflexivity].
Qed.

(** A [createIndexFile] that returns nil leaves an index file holding the
    records of a build from the extension map it started with. *)
Lemma createIndexFile_indexed w root dataRoot st st' :
  createIndexFile w root dataRoot st = (Some None, st') ->
  exists recs, indexed (index_path (ic st) dataRoot) (extMap (ic st)) recs st'.
Proof.
  unfold createIndexFile, Walk, bind, get_ic, panic, ret, on_files, index_path.
  simpl.
  destruct (regexp_Compile (TagExpr (Config (ic st)))) as [reg|cerr]; [|discriminate].
  destruct (mkdir_fails w dataRoot); [discriminate|].
  set (index := path_Join dataRoot (IndexFile (Config (ic st)))).
  destruct (os_OpenFile_trunc w index (files st)) as [e fs1] eqn:Hopen.
  apply os_OpenFile_trunc_frame in Hopen as [_ Hc]. simpl.
  destruct e as [err|]; [discriminate|].
  set (st1 := {| ic := ic st; files := fs1 |}).
  pose proof (walk_inv (indexEntry w reg index (filepath_Abs root))
                (fun a => exists recs, indexed index (extMap (ic st)) recs a)
                (indexEntry_indexed w reg index (filepath_Abs root) (extMap (ic st)))
                (source_tree w root) root st1) as Hwalk.
  unfold returns_ok in Hwalk.
  destruct (walk _ root (source_tree w root) st1) as [[r|] st2]; simpl in *; [|discriminate].
  assert (Hinit : exists recs, indexed index (extMap (ic st)) recs st1).
  { exists []. unfold indexed. simpl. split; [reflexivity|]. split; [constructor|].
    exists "". split; [reflexivity | now apply Hc]. }
  destruct r; intros Heq; inversion Heq; subst; auto.
Qed.

(** *** The dictionaries and the metadata *)

Lemma createExtListFile_spec w dataRoot st :
  exists e st',
    createExtListFile w dataRoot st = (Some e, st') /\
    ic st' = ic st /\
    only_writes (ext_path (ic st) dataRoot) st st' /\
    (e = None -> exists data,
        json_Marshal_map (extMap (ic st)) = Ok data /\
        files st' !! ext_path (ic st) dataRoot = Some data).
Proof.
  unfold createExtListFile, ext_path, bind, get_ic. simpl.
  destruct (writeJsonFile_spec w (path_Join dataRoot (ExtListFile (Config (ic st))))
              (json_Marshal_map (extMap (ic st))) st) as (e & st' & Hrun & Hic & Hfr & Hok).
  rewrite Hrun. destruct e as [err|]; eexists _, _; (split; [reflexivity|]); auto.
Qed.

Lemma createTagListFile_spec w dataRoot st :
  exists e st',
    createTagListFile w dataRoot st = (Some e, st') /\
    ic st' = ic st /\
    only_writes (tag_path (ic st) dataRoot) st st'.
Proof.
  unfold createTagListFile, tag_path, bind, get_ic. simpl.
  destruct (writeJsonFile_spec w (path_Join dataRoot (TagListFile (Config (ic st))))
              (json_Marshal_strings
                 (foldl (fun (acc : list string) k => (acc ++ [k])%list) []
                        (range_keys w (tagMap (ic st))))) st)
    as (e & st' & Hrun & Hic & Hfr & _).
  rewrite Hrun. destruct e as [err|]; eexists _, _; (split; [reflexivity|]); auto.
Qed.

(** [getMeta] only reads. *)
Lemma getMeta_run w dataRoot st :
  getMeta w dataRoot st = (Some (loaded_meta w dataRoot st), st).
Proof.
  unfold getMeta, loaded_meta, meta_path, bind, get_ic, read_files, ret. simpl.
  destruct (os_ReadFile w _ (files st)) as [b|err]; [|reflexivity].
  destruct (json_Unmarshal_MetaData b _) as [meta' [uerr|]]; reflexivity.
Qed.

Lemma Create_run w root dataRoot st :
  Create w root dataRoot st =
  match check_mtime w root (loaded_meta w dataRoot st) with
  | None => (Some None, st)
  | Some meta' => rebuild w root dataRoot meta' st
  end.
Proof.
  unfold Create, bind at 1. rewrite getMeta_run.
  destruct (check_mtime w root (loaded_meta w dataRoot st)); reflexivity.
Qed.

Lemma rebuild_traced w root dataRoot meta st :
  rebuild_trace w root dataRoot meta st (rebuild w root dataRoot meta st).
Proof.
  unfold rebuild, bind at 1.
  destruct (createIndexFile w root dataRoot st) as [r1 st1] eqn:H1.
  pose proof (createIndexFile_frame w root dataRoot st) as [_ [Hcfg1 _]].
  rewrite H1 in Hcfg1. simpl in Hcfg1.
  destruct r1 as [[err|]|];
    [apply (stops_at_index _ _ _ _ _ _ _ H1); discriminate | |
     apply (stops_at_index _ _ _ _ _ _ _ H1); discriminate].
  unfold bind at 1.
  destruct (createExtListFile_spec w dataRoot st1) as (e2 & st2 & H2 & Hic2 & _).
  rewrite H2. destruct e2 as [err|]; [eapply stops_at_ext; eauto|].
  unfold bind at 1.
  destruct (createTagListFile_spec w dataRoot st2) as (e3 & st3 & H3 & Hic3 & _).
  rewrite H3. destruct e3 as [err|]; [eapply stops_at_tag; eauto|].
  unfold bind, get_ic. simpl.
  destruct (writeJsonFile_spec w (path_Join dataRoot (MetaFile (Config (ic st3))))
              (json_Marshal_MetaData meta) st3) as (e4 & st4 & H4 & _).
  rewrite H4.
  assert (Hpath : path_Join dataRoot (MetaFile (Config (ic st3))) = meta_path (ic st) dataRoot).
  { unfold meta_path. rewrite Hic3, Hic2, Hcfg1. reflexivity. }
  rewrite Hpath in H4.
  destruct e4 as [err|]; eapply reaches_meta; eauto.
Qed.

(** *** The order of the outputs *)

Lemma index_stage_frame w root dataRoot st r st1 (g : string) :
  createIndexFile w root dataRoot st = (r, st1) ->
  g <> index_path (ic st) dataRoot ->
  files st1 !! g = files st !! g /\ Config (ic st1) = Config (ic st).
Proof.
  intros Hrun Hg. pose proof (createIndexFile_frame w root dataRoot st) as [Hfr [Hcfg _]].
  rewrite Hrun in Hfr, Hcfg. simpl in Hfr, Hcfg. split; [now apply Hfr | exact Hcfg].
Qed.

Lemma ext_stage_frame w dataRoot st r st1 (g : string) :
  createExtListFile w dataRoot st = (r, st1) ->
  g <> ext_path (ic st) dataRoot ->
  files st1 !! g = files st !! g /\ ic st1 = ic st.
Proof.
  intros Hrun Hg.
  destruct (createExtListFile_spec w dataRoot st) as (e & st' & Hrun' & Hic & Hfr & _).
  rewrite Hrun in Hrun'. inversion Hrun'; subst. split; [now apply Hfr | exact Hic].
Qed.

Lemma tag_stage_frame w dataRoot st r st1 (g : string) :
  createTagListFile w dataRoot st = (r, st1) ->
  g <> tag_path (ic st) dataRoot ->
  files st1 !! g = files st !! g /\ ic st1 = ic st.
Proof.
  intros Hrun Hg.
  destruct (createTagListFile_spec w dataRoot st) as (e & st' & Hrun' & Hic & Hfr).
  rewrite Hrun in Hrun'. inversion Hrun'; subst. split; [now apply Hfr | exact Hic].
Qed.

Lemma paths_same_config (c1 c2 : IndexCreator) (dataRoot : string) :
  Config c1 = Config c2 ->
  index_path c1 dataRoot = index_path c2 dataRoot /\
  ext_path c1 dataRoot = ext_path c2 dataRoot /\
  tag_path c1 dataRoot = tag_path c2 dataRoot /\
  meta_path c1 dataRoot = meta_path c2 dataRoot.
Proof. unfold index_path, ext_path, tag_path, meta_path. intros ->. auto. Qed.

(** Before the metadata is written, the file at a path that is none of the
    three other outputs is as it was. *)
Lemma rebuild_trace_frame w root dataRoot meta st res (g : string) :
  rebuild_trace w root dataRoot meta st res ->
  g <> index_path (ic st) dataRoot ->
  g <> ext_path (ic st) dataRoot ->
  g <> tag_path (ic st) dataRoot ->
  files (snd res) !! g = files st !! g \/
  exists st1 st2 st3,
    createIndexFile w root dataRoot st = (Some None, st1) /\
    createExtListFile w dataRoot st1 = (Some None, st2) /\
    createTagListFile w dataRoot st2 = (Some None, st3) /\
    files st3 !! g = files st !! g /\
    res = writeJsonFile w (meta_path (ic st) dataRoot) (json_Marshal_MetaData meta) st3.
Proof.
  intros Htr Hi He Ht.
  destruct Htr as [r st1 H1 Hr|st1 err st2 H1 H2|st1 st2 err st3 H1 H2 H3
                   |st1 st2 st3 e st4 H1 H2 H3 H4].
  - left. simpl. now apply (index_stage_frame _ _ _ _ _ _ _ H1).
  - left. simpl.
    destruct (index_stage_frame _ _ _ _ _ _ g H1 Hi) as [F1 C1].
    destruct (paths_same_config _ _ dataRoot C1) as (_ & P2 & _).
    destruct (ext_stage_frame _ _ _ _ _ g H2) as [F2 _]; congruence.
  - left. simpl.
    destruct (index_stage_frame _ _ _ _ _ _ g H1 Hi) as [F1 C1].
    destruct (paths_same_config _ _ dataRoot C1) as (_ & P2 & P3 & _).
    destruct (ext_stage_frame _ _ _ _ _ g H2) as [F2 I2]; [congruence|].
    destruct (tag_stage_frame _ _ _ _ _ g H3) as [F3 _]; congruence.
  - right. exists st1, st2, st3.
    destruct (index_stage_frame _ _ _ _ _ _ g H1 Hi) as [F1 C1].
    destruct (paths_same_config _ _ dataRoot C1) as (_ & P2 & P3 & _).
    destruct (ext_stage_frame _ _ _ _ _ g H2) as [F2 I2]; [congruence|].
    destruct (tag_stage_frame _ _ _ _ _ g H3) as [F3 _]; [congruence|].
    repeat split; auto; congruence.
Qed.

End CreateFacts.

(** ** The indexer: [Create] *)

Lemma Time_eqb_eq (t u : Time) : Time_eqb t u = true <-> t = u.
Proof.
  unfold Time_eqb. destruct t as [i l], u as [i' l']. simpl.
  rewrite andb_true_iff, Z.eqb_eq. split.
  - intros [-> Hl]. f_equal.
    destruct l, l'; try discriminate; try reflexivity.
    simpl in Hl. apply Z.eqb_eq in Hl. now subst.
  - intros Heq. inversion Heq; subst. split; [reflexivity|].
    destruct l'; simpl; try reflexivity. apply Z.eqb_refl.
Qed.

Lemma Time_eqb_neq (t u : Time) : Time_eqb t u = false <-> t <> u.
Proof.
  rewrite <- Time_eqb_eq. destruct (Time_eqb t u); split; try congruence; auto.
Qed.

(** When the modification time [Create] observes on the source root is
    [==] the [last_update] of the metadata it loaded, [Create] returns nil
    and the state is the one it started from: no file is written. *)
Lemma Create_skips_on_equal_mtime `{Scan.GoRuntime}
    (w : World) (root dataRoot : string) (st : Scan.State) (t : Z) :
  os_Stat w root = Some t ->
  time_Unix t = Scan.LastUpdate (Scan.loaded_meta w dataRoot st) ->
  Scan.Create w root dataRoot st = (Some None, st).
Proof.
  intros Hstat Heq. rewrite Create_run. unfold Scan.check_mtime.
  rewrite Hstat. cbv zeta. now rewrite (proj2 (Time_eqb_eq _ _) Heq).
Qed.

Section CreateOutcome.
Context `{Scan.GoRuntime}.
Import Scan.

(** A build that returns nil went through all four outputs; the metadata
    file then holds the encoding of the metadata handed to the build. *)
Lemma rebuild_success w root dataRoot meta st st' :
  rebuild w root dataRoot meta st = (Some None, st') ->
  exists st1 st2 st3 data,
    createIndexFile w root dataRoot st = (Some None, st1) /\
    createExtListFile w dataRoot st1 = (Some None, st2) /\
    createTagListFile w dataRoot st2 = (Some None, st3) /\
    writeJsonFile w (meta_path (ic st) dataRoot) (json_Marshal_MetaData meta) st3
      = (Some None, st') /\
    json_Marshal_MetaData meta = Ok data /\
    files st' !! meta_path (ic st) dataRoot = Some data /\
    ic st' = ic st1 /\ Config (ic st1) = Config (ic st).
Proof.
  intros Hrun. pose proof (rebuild_traced w root dataRoot meta st) as Htr.
  rewrite Hrun in Htr.
  inversion Htr as [r st1 H1 Hr|st1 err st2 H1 H2|st1 st2 err st3 H1 H2 H3
                    |st1 st2 st3 e st4 H1 H2 H3 H4]; subst.
  - contradiction.
  - exists st1, st2, st3.
    destruct (writeJsonFile_spec w (meta_path (ic st) dataRoot)
                (json_Marshal_MetaData meta) st3) as (e & st4 & H4' & Hic4 & _ & Hok).
    rewrite H4 in H4'. inversion H4'; subst e st4.
    destruct (Hok eq_refl) as (data & Henc & Hfile). exists data.
    pose proof (createIndexFile_frame w root dataRoot st) as [_ [C1 _]].
    rewrite H1 in C1. simpl in C1.
    destruct (createExtListFile_spec w dataRoot st1) as (e2 & st2' & H2' & I2 & _).
    rewrite H2 in H2'. inversion H2'; subst e2 st2'.
    destruct (createTagListFile_spec w dataRoot st2) as (e3 & st3' & H3' & I3 & _).
    rewrite H3 in H3'. inversion H3'; subst e3 st3'.
    repeat split; auto; congruence.
Qed.

Lemma map_get_ignored (l : list string) (e : string) :
  map_get (mark_all true l ∅) e = false <-> e ∉ l.
Proof.
  unfold map_get. rewrite lookup_mark_all.
  destruct (decide (e ∈ l)) as [Hin|Hn]; simpl.
  - split; [discriminate | contradiction].
  - rewrite lookup_empty. simpl. tauto.
Qed.

End CreateOutcome.

(** ** The search *)

Section SearchFacts.
Context `{Stream.Codec}.
Import Search.

(** With more reads allowed than bytes are left, the records of a file end
    at a read that fails. *)
Lemma records_from_total (fuel : nat) (content : string) (pos : Z) :
  0 <= pos ->
  (Z.to_nat (Z.of_nat (String.length content) - pos) < fuel)%nat ->
  exists recs e, records_from fuel content pos = (recs, Some e).
Proof.
  revert pos. induction fuel as [|fuel IH]; intros pos Hpos Hfuel; [lia|].
  simpl. destruct (Stream.binary_Read content pos) as [v pos'|e pos'] eqn:Hread; [|eauto].
  apply Stream.binary_Read_advances in Hread.
  destruct (IH pos') as (recs & e & Hrec); [lia | lia |].
  rewrite Hrec. eauto.
Qed.

Lemma search_loop_spec (m : SearchParams) (limit : Z) (content : string) (fuel : nat) :
  forall pos rst take recs e,
    records_from fuel content pos = (recs, Some e) ->
    limit = -1 \/ 0 <= take < Z.max limit 1 ->
    search_loop fuel {| Stream.r_content := content; Stream.r_cursor := pos |}
                m limit rst take
    = Some (loop_result m limit recs e rst take).
Proof.
  induction fuel as [|fuel IH]; intros pos rst take recs e Hrecs Htake; [discriminate|].
  simpl in Hrecs. cbn [search_loop]. unfold Stream.ScanNext. cbn [Stream.r_content Stream.r_cursor].
  destruct (Stream.binary_Read content pos) as [v pos'|e' pos'] eqn:Hread.
  - destruct (records_from fuel content pos') as [recs' e''] eqn:Hrest.
    inversion Hrecs; subst recs e''. clear Hrecs.
    unfold loop_result. cbn [matching].
    destruct (isMatchSearch v m) eqn:Hm; cbn [negb].
    + destruct (Z.eqb_spec limit (-1)) as [Hl|Hl].
      * rewrite (IH _ _ _ _ _ Hrest) by (now left). unfold loop_result.
        rewrite (proj2 (Z.eqb_eq _ _) Hl). now rewrite <- app_assoc.
      * destruct Htake as [?|Htake]; [contradiction|].
        rewrite Z.geb_leb. destruct (Z.leb_spec limit (take + 1)) as [Hge|Hlt].
        -- replace (Z.to_nat (Z.max limit 1 - take)) with 1%nat by lia.
           reflexivity.
        -- rewrite (IH _ _ _ _ _ Hrest) by (right; lia). unfold loop_result.
           rewrite (proj2 (Z.eqb_neq _ _) Hl).
           replace (Z.to_nat (Z.max limit 1 - take))
             with (S (Z.to_nat (Z.max limit 1 - (take + 1)))) by lia.
           cbn [length firstn Nat.leb]. now rewrite <- !app_assoc.
    + rewrite (IH _ _ _ _ _ Hrest) by exact Htake. reflexivity.
  - inversion Hrecs; subst recs e'. unfold loop_result. cbn [matching length].
    rewrite app_nil_r.
    assert (Hend : (if error_is_EOF e then Some (Ok rst) else Some (Err e))
                   = Some (at_end e rst))
      by (unfold at_end; destruct (error_is_EOF e); reflexivity).
    rewrite Hend.
    destruct (Z.eqb_spec limit (-1)) as [Hl|Hl]; [reflexivity|].
    destruct Htake as [?|Htake]; [contradiction|].
    replace (Z.to_nat (Z.max limit 1 - take) <=? 0)%nat with false
      by (symmetry; apply Nat.leb_gt; lia).
    reflexivity.
Qed.

(** [SearchFile] returns, and what it returns is determined by the records
    read from offset 0. *)
Lemma SearchFile_spec w (fs : Files) filename m (offset limit : Z) content :
  os_ReadFile w filename fs = Ok content ->
  exists recs e,
    records_from (S (String.length content)) content 0 = (recs, Some e) /\
    SearchFile w fs filename m offset limit = Some (loop_result m limit recs e [] 0).
Proof.
  intros Hread.
  destruct (records_from_total (S (String.length content)) content 0) as (recs & e & Hrecs);
    [lia | lia |].
  exists recs, e. split; [exact Hrecs|].
  unfold SearchFile, Stream.NewJsonStream. rewrite Hread.
  apply search_loop_spec; [exact Hrecs | right; lia].
Qed.

(** X1. With a limit of at least 1, the result is the first [limit] matches in
    file order, whatever follows them in the file; with fewer matches, or
    with the sentinel -1, the scan goes to the end of the records and the
    result is all the matches, or the error of a read that failed. *)
Lemma SearchFile_first_matches w (fs : Files) filename m (offset limit : Z) content :
  os_ReadFile w filename fs = Ok content ->
  exists recs e,
    records_from (S (String.length content)) content 0 = (recs, Some e) /\
    (1 <= limit ->
     SearchFile w fs filename m offset limit
     = Some (if (Z.to_nat limit <=? length (matching m recs))%nat
             then Ok (firstn (Z.to_nat limit) (matching m recs))
             else at_end e (matching m recs))) /\
    (limit = -1 ->
     SearchFile w fs filename m offset limit = Some (at_end e (matching m recs))).
Proof.
  intros Hread. destruct (SearchFile_spec w fs filename m offset limit content Hread)
    as (recs & e & Hrecs & Hrun).
  exists recs, e. split; [exact Hrecs|]. rewrite Hrun. unfold loop_result. split.
  - intros Hl. rewrite (proj2 (Z.eqb_neq limit (-1))) by lia.
    replace (Z.max limit 1 - 0) with limit by lia. reflexivity.
  - intros ->. reflexivity.
Qed.

(** With a limit below 1 other than the sentinel, the first match is still
    appended before the count is compared with the limit. *)
Lemma SearchFile_limit_below_one w (fs : Files) filename m (offset limit : Z) content :
  os_ReadFile w filename fs = Ok content ->
  limit <= 0 -> limit <> -1 ->
  exists recs e,
    records_from (S (String.length content)) content 0 = (recs, Some e) /\
    SearchFile w fs filename m offset limit
    = Some (match matching m recs with
            | first :: _ => Ok [first]
            | [] => at_end e []
            end).
Proof.
  intros Hread Hle Hne. destruct (SearchFile_spec w fs filename m offset limit content Hread)
    as (recs & e & Hrecs & Hrun).
  exists recs, e. split; [exact Hrecs|]. rewrite Hrun. unfold loop_result.
  rewrite (proj2 (Z.eqb_neq limit (-1))) by exact Hne.
  replace (Z.to_nat (Z.max limit 1 - 0)) with 1%nat by lia.
  destruct (matching m recs); reflexivity.
Qed.

(** C3. The starting offset handed to [SearchFile] has no effect: two calls
    that differ only in it return the same; the call returns, and its result
    is the one determined by the records read from offset 0 of the file. *)
Theorem SearchFile_offset_has_no_effect w (fs : Files) filename m (limit o1 o2 : Z) :
  SearchFile w fs filename m o1 limit = SearchFile w fs filename m o2 limit /\
  (exists r, SearchFile w fs filename m o1 limit = Some r) /\
  (forall content, os_ReadFile w filename fs = Ok content ->
     exists recs e,
       records_from (S (String.length content)) content 0 = (recs, Some e) /\
       SearchFile w fs filename m o1 limit = Some (loop_result m limit recs e [] 0) /\
       SearchFile w fs filename m o2 limit = Some (loop_result m limit recs e [] 0)).
Proof.
  split; [reflexivity|]. split.
  - destruct (os_ReadFile w filename fs) as [content|e] eqn:Hread.
    + destruct (SearchFile_spec w fs filename m o1 limit content Hread) as (recs & e & _ & Hrun).
      eauto.
    + unfold SearchFile. rewrite Hread. eauto.
  - intros content Hread.
    destruct (SearchFile_spec w fs filename m o1 limit content Hread) as (recs & e & Hrecs & Hrun).
    exists recs, e. split; [exact Hrecs|]. split; [exact Hrun|].
    destruct (SearchFile_spec w fs filename m o2 limit content Hread) as (recs' & e' & Hrecs' & Hrun').
    rewrite Hrecs in Hrecs'. inversion Hrecs'; subst. exact Hrun'.
Qed.

End SearchFacts.

(* ===================================================================== *)
(** * The model on concrete inputs *)
(* ===================================================================== *)

(** The pattern of the specification compiles to one group; the matches are
    found left to right without overlap. *)
Example compile_tag_pattern_groups :
  option_map MiniRegexp.NumCap (MiniRegexp.Compile "\[(\w+)\]") = Some 1%nat.
Proof. reflexivity. Qed.

Example find_all_tag_pattern :
  option_map (fun p => MiniRegexp.FindAll p "photo[cat][2024].jpg")
             (MiniRegexp.Compile "\[(\w+)\]")
  = Some [["[cat]"; "cat"]; ["[2024]"; "2024"]].
Proof. vm_compute. reflexivity. Qed.

Example find_all_star :
  option_map (fun p => MiniRegexp.FindAll p "baaab") (MiniRegexp.Compile "a*")
  = Some [[""]; ["aaa"]; [""]].
Proof. vm_compute. reflexivity. Qed.

Example find_all_alt :
  option_map (fun p => MiniRegexp.FindAll p "xabcabx")
             (MiniRegexp.Compile "(ab|abc)(c?)")
  = Some [["abc"; "ab"; "c"]; ["ab"; "ab"; ""]].
Proof. vm_compute. reflexivity. Qed.

(** *** C4 *)

(** The claim as stated gives [.bashrc] the empty extension; [getExt]
    gives it [bashrc]. *)
Lemma getExt_dotfile_counterexample :
  Scan.getExt ".bashrc" = "bashrc" /\ Scan.getExt ".bashrc" <> "".
Proof. split; [vm_compute; reflexivity | vm_compute; discriminate]. Qed.

Lemma getExt_last_dot_witness :
  Scan.getExt "Makefile" = "" /\
  Scan.getExt "archive.tar.GZ" = "gz" /\
  Scan.getExt "notes." = "" /\
  Scan.getExt ".bashrc" = "bashrc".
Proof.
  pose proof (@getExt_last_dot MiniEngine RefRuntime) as (Hnone & Hsuf & Hdot).
  split; [apply (Hnone "Makefile"); reflexivity|].
  split; [apply (Hsuf "archive.tar" "GZ"); reflexivity|].
  split; [apply (Hsuf "notes" ""); reflexivity|].
  exact Hdot.
Defined.

(** *** C6 *)

(** C6, at the input where the code departs from it.  Both records of the
    sample index match the filter [ext = txt].  With the limit 1 the result
    is the first of them, and with the sentinel -1 both are returned, as the
    claim says; with the limit 0 the result is the first of them as well:
    one entry, where the count of matches had reached the limit before any
    record was read. *)
Theorem SearchFile_limit_zero_returns_one_match :
  let w := Ref.sample_world None (Bad "src") [] in
  let fs : Files := {[ "data/index" := Ref.sample_index ]} in
  let by_ext := {| Search.Name := ""; Search.Tag := ""; Search.Ext := "txt";
                   Search.Path := "" |} in
  Search.SearchFile w fs "data/index" by_ext 0 1
  = Some (Ok [ {| Search.Id := 0; Search.info := Ref.record_a |} ]) /\
  Search.SearchFile w fs "data/index" by_ext 0 0
  = Some (Ok [ {| Search.Id := 0; Search.info := Ref.record_a |} ]) /\
  Search.SearchFile w fs "data/index" by_ext 0 (-1)
  = Some (Ok [ {| Search.Id := 0; Search.info := Ref.record_a |};
               {| Search.Id := 21; Search.info := Ref.record_b |} ]).
Proof. vm_compute. repeat split; reflexivity. Qed.

(* ===================================================================== *)
(** * Further properties of the code *)
(* ===================================================================== *)

(** ** The search: what the entries of a result are *)

Section SearchResults.
Context `{Stream.Codec} `{Stream.SeekLimit}.
Import Search.

(** Every record of [records_from] was read at its offset, at or after the
    start, and the offsets increase strictly. *)
Lemma records_from_sound (fuel : nat) (content : string) :
  forall pos recs e,
    records_from fuel content pos = (recs, e) ->
    Forall (fun r : Z * Index =>
              pos <= fst r /\
              exists pos', Stream.binary_Read content (fst r) = Stream.ReadOk (snd r) pos') recs
    /\ StronglySorted (fun a b : Z * Index => fst a < fst b) recs.
Proof.
  induction fuel as [|fuel IH]; intros pos recs e Hrecs; simpl in Hrecs.
  - inversion Hrecs; subst. split; constructor.
  - destruct (Stream.binary_Read content pos) as [v pos'|e' pos'] eqn:Hread.
    + destruct (records_from fuel content pos') as [recs' e''] eqn:Hrest.
      inversion Hrecs; subst. clear Hrecs.
      destruct (IH _ _ _ Hrest) as [HF HS].
      pose proof (Stream.binary_Read_advances _ _ _ _ Hread) as Hadv.
      split.
      * constructor; [simpl; split; [lia | eauto]|].
        eapply Forall_impl; [exact HF|]. intros r [Hr1 Hr2]. split; [lia | exact Hr2].
      * constructor; [exact HS|].
        eapply Forall_impl; [exact HF|]. intros r [Hr1 _]. simpl. lia.
    + inversion Hrecs; subst. split; constructor.
Qed.

(** The entries of [matching] are records that match, with their offsets,
    in increasing order of offset. *)
Lemma matching_sound (m : SearchParams) (content : string) (lo : Z) (recs : list (Z * Index)) :
  Forall (fun r : Z * Index =>
            lo <= fst r /\
            exists pos', Stream.binary_Read content (fst r) = Stream.ReadOk (snd r) pos') recs ->
  StronglySorted (fun a b : Z * Index => fst a < fst b) recs ->
  Forall (fun x => isMatchSearch (info x) m = true /\ lo <= Id x /\
                   exists pos', Stream.binary_Read content (Id x) = Stream.ReadOk (info x) pos')
         (matching m recs)
  /\ StronglySorted Z.lt (map Id (matching m recs))
  /\ Forall (fun x => exists r, r ∈ recs /\ Id x = fst r) (matching m recs).
Proof.
  intros HF HS. induction recs as [|[off v] recs IH]; simpl.
  - repeat split; constructor.
  - inversion HF as [|? ? [Hlo Hread] HF']; subst.
    inversion HS as [|? ? HS' Hlt]; subst.
    destruct (IH HF' HS') as (IH1 & IH2 & IH3).
    assert (IH3' : Forall (fun x => exists r, r ∈ (off, v) :: recs /\ Id x = fst r)
                          (matching m recs)).
    { eapply Forall_impl; [exact IH3|]. intros x (r & Hr & Hx). exists r.
      split; [now right | exact Hx]. }
    destruct (isMatchSearch v m) eqn:Hm; [|auto].
    split; [|split].
    + constructor; [simpl; auto | exact IH1].
    + simpl. constructor; [exact IH2|].
      apply Forall_map. eapply Forall_impl; [exact IH3|].
      intros x (r & Hr & Hx). simpl. rewrite Hx.
      rewrite Forall_forall in Hlt. exact (Hlt r Hr).
    + constructor; [|exact IH3']. exists (off, v). split; [now left | reflexivity].
Qed.

(** A result of [SearchFile] is a prefix of the matches of the file. *)
Lemma SearchFile_result_prefix w (fs : Files) filename m (offset limit : Z) rs :
  SearchFile w fs filename m offset limit = Some (Ok rs) ->
  exists content recs e n,
    os_ReadFile w filename fs = Ok content /\
    records_from (S (String.length content)) content 0 = (recs, Some e) /\
    rs = firstn n (matching m recs).
Proof.
  intros Hrun. destruct (os_ReadFile w filename fs) as [content|err] eqn:Hread.
  - destruct (SearchFile_spec w fs filename m offset limit content Hread)
      as (recs & e & Hrecs & Hspec).
    rewrite Hspec in Hrun. exists content, recs, e.
    unfold loop_result, at_end in Hrun. simpl in Hrun.
    destruct (Z.eqb limit (-1)).
    + destruct (error_is_EOF e); [|discriminate]. inversion Hrun; subst.
      exists (length (matching m recs)). now rewrite firstn_all.
    + destruct (Z.to_nat (Z.max limit 1 - 0) <=? length (matching m recs))%nat.
      * inversion Hrun; subst. eauto.
      * destruct (error_is_EOF e); [|discriminate]. inversion Hrun; subst.
        exists (length (matching m recs)). now rewrite firstn_all.
  - unfold SearchFile in Hrun. rewrite Hread in Hrun. discriminate.
Qed.

Lemma StronglySorted_firstn {A} (R : A -> A -> Prop) (n : nat) (l : list A) :
  StronglySorted R l -> StronglySorted R (firstn n l).
Proof.
  intros HS. revert n. induction HS as [|a l HS IH Ha]; intros [|n]; simpl;
    try constructor; auto.
  apply Forall_forall. intros x Hx. rewrite Forall_forall in Ha. apply Ha.
  exact (subseteq_take n l x Hx).
Qed.

(** X2. Every entry of a result matches the filter; the ids are offsets of the
    file, at or after 0, and increase strictly along the result (file order,
    no record twice). *)
Theorem SearchFile_entries_match_in_offset_order
    w (fs : Files) filename m (offset limit : Z) rs :
  SearchFile w fs filename m offset limit = Some (Ok rs) ->
  Forall (fun x => isMatchSearch (info x) m = true /\ 0 <= Id x) rs /\
  StronglySorted Z.lt (map Id rs).
Proof.
  intros Hrun.
  destruct (SearchFile_result_prefix _ _ _ _ _ _ _ Hrun)
    as (content & recs & e & n & Hread & Hrecs & ->).
  destruct (records_from_sound _ _ _ _ _ Hrecs) as [HF HS].
  destruct (matching_sound m content 0 recs HF HS) as (H1 & H2 & _).
  split.
  - apply Forall_take. eapply Forall_impl; [exact H1|]. intros x (Hx1 & Hx2 & _). auto.
  - rewrite <- firstn_map. now apply StronglySorted_firstn.
Qed.

(** X3. The id of an entry leads back to its record: seeking a new stream over
    the same file to the id with [Offset] succeeds, and the next [ScanNext]
    returns that id and that record. *)
Theorem SearchFile_id_reads_back
    w (fs : Files) filename m (offset limit : Z) rs content x :
  SearchFile w fs filename m offset limit = Some (Ok rs) ->
  os_ReadFile w filename fs = Ok content ->
  x ∈ rs ->
  exists j,
    Stream.Offset (Stream.NewJsonStream content) (Id x) = (None, j) /\
    fst (Stream.ScanNext j) = (Id x, Some (info x), None).
Proof.
  intros Hrun Hread Hx.
  destruct (SearchFile_result_prefix _ _ _ _ _ _ _ Hrun)
    as (content' & recs & e & n & Hread' & Hrecs & ->).
  rewrite Hread in Hread'. inversion Hread'; subst content'.
  destruct (records_from_sound _ _ _ _ _ Hrecs) as [HF HS].
  destruct (matching_sound m content 0 recs HF HS) as (H1 & _ & _).
  rewrite Forall_forall in H1.
  destruct (H1 x (subseteq_take n _ x Hx)) as (_ & Hpos & pos' & Hrd).
  pose proof (Stream.binary_Read_advances _ _ _ _ Hrd) as Hin.
  unfold Stream.Offset, Stream.NewJsonStream. simpl.
  destruct (Z.ltb_spec (Id x) 0) as [Hneg|_]; [lia|].
  destruct (Z.ltb_spec (Z.max Stream.max_offset (Z.of_nat (String.length content))) (Id x))
    as [Hfar|_]; [lia|].
  eexists. split; [reflexivity|].
  unfold Stream.ScanNext. simpl. rewrite Hrd. reflexivity.
Qed.

(** X4. With a limit other than the sentinel, a result never has more than
    max(limit, 1) entries. *)
Theorem SearchFile_result_length
    w (fs : Files) filename m (offset limit : Z) rs :
  SearchFile w fs filename m offset limit = Some (Ok rs) ->
  limit <> -1 ->
  Z.of_nat (length rs) <= Z.max limit 1.
Proof.
  intros Hrun Hl. destruct (os_ReadFile w filename fs) as [content|err] eqn:Hread.
  - destruct (SearchFile_spec w fs filename m offset limit content Hread)
      as (recs & e & Hrecs & Hspec).
    rewrite Hspec in Hrun. unfold loop_result, at_end in Hrun. simpl in Hrun.
    rewrite (proj2 (Z.eqb_neq _ _) Hl) in Hrun.
    destruct (Nat.leb_spec (Z.to_nat (Z.max limit 1 - 0)) (length (matching m recs)))
      as [Hle|Hgt].
    + inversion Hrun; subst. rewrite length_take. lia.
    + destruct (error_is_EOF e); [|discriminate]. inversion Hrun; subst. lia.
  - unfold SearchFile in Hrun. rewrite Hread in Hrun. discriminate.
Qed.

(** X5. Failures of a search.  A file that cannot be opened gives its error.
    A read that fails with an error other than [io.EOF] aborts the search
    with that error and no entries, unless the limit was reached by the
    records before it: then the read is never made and the search
    succeeds. *)
Theorem SearchFile_errors
    w (fs : Files) filename m (offset limit : Z) :
  (forall err, os_ReadFile w filename fs = Err err ->
     SearchFile w fs filename m offset limit = Some (Err err)) /\
  (forall content recs e,
     os_ReadFile w filename fs = Ok content ->
     records_from (S (String.length content)) content 0 = (recs, Some e) ->
     error_is_EOF e = false ->
     (limit = -1 \/
      (length (matching m recs) < Z.to_nat (Z.max limit 1))%nat ->
      SearchFile w fs filename m offset limit = Some (Err e)) /\
     (limit <> -1 ->
      (Z.to_nat (Z.max limit 1) <= length (matching m recs))%nat ->
      SearchFile w fs filename m offset limit
      = Some (Ok (firstn (Z.to_nat (Z.max limit 1)) (matching m recs))))).
Proof.
  split.
  - intros err Hread. unfold SearchFile. now rewrite Hread.
  - intros content recs e Hread Hrecs He.
    destruct (SearchFile_spec w fs filename m offset limit content Hread)
      as (recs' & e' & Hrecs' & Hspec).
    rewrite Hrecs in Hrecs'. inversion Hrecs'; subst recs' e'.
    rewrite Hspec. unfold loop_result, at_end. simpl. rewrite He.
    replace (Z.max limit 1 - 0) with (Z.max limit 1) by lia.
    split.
    + intros [->|Hlt]; [reflexivity|].
      destruct (Z.eqb limit (-1)); [reflexivity|].
      now rewrite (proj2 (Nat.leb_gt _ _) Hlt).
    + intros Hl Hle. rewrite (proj2 (Z.eqb_neq _ _) Hl).
      now rewrite (proj2 (Nat.leb_le _ _) Hle).
Qed.

End SearchResults.

(** ** The indexer: the creator and single files *)

Section CreatorFacts.
Context `{Scan.GoRuntime}.
Import Scan.

(** X9. A new creator marks exactly the configured ignore names and ignore
    extensions; it has seen no extension and no tag yet. *)
Theorem NewIndexCreator_marks_configured (cfg : ScanConfig) :
  let c := NewIndexCreator cfg in
  Config c = cfg /\
  (forall n, map_get (ignoreNameMap c) n = true <-> n ∈ IgnoreName cfg) /\
  (forall e, map_get (extMap c) e = true <-> e ∈ IgnoreExt cfg) /\
  (forall e, extMap c !! e <> Some false) /\
  tagMap c = ∅.
Proof.
  assert (Hmark : forall l k, map_get (mark_all true l ∅) k = true <-> k ∈ l).
  { intros l k. unfold map_get. rewrite lookup_mark_all.
    destruct (decide (k ∈ l)) as [Hin|Hn]; simpl; [tauto|].
    rewrite lookup_empty. simpl. split; [discriminate | contradiction]. }
  simpl. split; [reflexivity|]. split; [apply Hmark|]. split; [apply Hmark|].
  split; [|reflexivity].
  intros e. rewrite lookup_mark_all. destruct (decide (e ∈ IgnoreExt cfg)); [discriminate|].
  rewrite lookup_empty. discriminate.
Qed.

(** X10. [writeJsonFile] truncates before it encodes.  When the file cannot be
    opened, nothing changes.  When the value cannot be encoded, the error is
    returned and the file is left empty, whatever it held.  When the write
    goes through, the file holds the encoding and nothing else. *)
Theorem writeJsonFile_outcomes w (f : string) (enc : result string) (st : State) :
  (open_fails w f = true ->
   writeJsonFile w f enc st = (Some (Some (PathError "open" f)), st)) /\
  (open_fails w f = false -> forall e, enc = Err e ->
   writeJsonFile w f enc st
   = (Some (Some e), {| ic := ic st; files := <[f := ""]> (files st) |})) /\
  (open_fails w f = false -> forall data, enc = Ok data ->
   write_fails w f "" data = false ->
   writeJsonFile w f enc st
   = (Some None, {| ic := ic st; files := <[f := data]> (files st) |})).
Proof.
  unfold writeJsonFile, bind, on_files, ret, os_OpenFile_trunc, file_Write.
  split; [|split].
  - intros Hopen. rewrite Hopen. destruct st. reflexivity.
  - intros Hopen e ->. rewrite Hopen. reflexivity.
  - intros Hopen data -> Hwrite. rewrite Hopen. simpl.
    rewrite lookup_insert_eq. simpl. rewrite Hwrite. simpl.
    now rewrite insert_insert_eq.
Qed.

(** X11. A pattern that does not compile, or a data directory that cannot be
    made, is fatal: when a build is due, [Create] panics, and it does so
    before any file is opened; every file is as it was. *)
Theorem Create_fatal_before_any_write w root dataRoot st (meta : MetaData) :
  check_mtime w root (loaded_meta w dataRoot st) = Some meta ->
  (exists e, regexp_Compile (TagExpr (Config (ic st))) = Err e) \/
  mkdir_fails w dataRoot = true ->
  Create w root dataRoot st = (None, st).
Proof.
  intros Hcheck Hfatal. rewrite Create_run, Hcheck.
  unfold rebuild, bind at 1.
  assert (Hidx : createIndexFile w root dataRoot st = (None, st)).
  { unfold createIndexFile, bind, get_ic, panic. simpl.
    destruct Hfatal as [[e He]|Hmk]; [now rewrite He|].
    destruct (regexp_Compile _); [now rewrite Hmk | reflexivity]. }
  now rewrite Hidx.
Qed.

(** X12. When the source root has a modification time other than the loaded
    [last_update], [Create] is the build with that modification time as
    [last_update] and the current time as [create_time], and a build that
    returns nil has persisted exactly these. *)
Theorem Create_persists_observed_mtime w root dataRoot st (t : Z) :
  os_Stat w root = Some t ->
  time_Unix t <> LastUpdate (loaded_meta w dataRoot st) ->
  let meta := {| LastUpdate := time_Unix t; CreateTime := time_Unix (time_Now w) |} in
  Create w root dataRoot st = rebuild w root dataRoot meta st /\
  (forall st', Create w root dataRoot st = (Some None, st') ->
     exists data,
       json_Marshal_MetaData meta = Ok data /\
       files st' !! meta_path (ic st) dataRoot = Some data).
Proof.
  intros Hstat Hne meta.
  assert (Hrun : Create w root dataRoot st = rebuild w root dataRoot meta st).
  { rewrite Create_run. unfold check_mtime. rewrite Hstat. cbv zeta.
    now rewrite (proj2 (Time_eqb_neq _ _) Hne). }
  split; [exact Hrun|]. intros st' Hok. rewrite Hrun in Hok.
  apply rebuild_success in Hok as (_ & _ & _ & data & _ & _ & _ & _ & Henc & Hfile & _).
  eauto.
Qed.

(** X13. After a call that returned nil, a second call that finds the same
    modification time on the source root returns nil without writing
    anything: the state is the one the first call left.  It takes that both
    calls can read the metadata file and that the [last_update] the first
    call may have persisted decodes to itself. *)
Theorem Create_second_call_skips w w2 root dataRoot st st1 (t : Z) :
  os_Stat w root = Some t -> os_Stat w2 root = Some t ->
  read_fails w (meta_path (ic st) dataRoot) = false ->
  read_fails w2 (meta_path (ic st) dataRoot) = false ->
  (forall data,
     json_Marshal_MetaData {| LastUpdate := time_Unix t;
                              CreateTime := time_Unix (time_Now w) |} = Ok data ->
     LastUpdate (fst (json_Unmarshal_MetaData data
                        {| LastUpdate := zeroTime; CreateTime := zeroTime |}))
     = time_Unix t) ->
  Create w root dataRoot st = (Some None, st1) ->
  Create w2 root dataRoot st1 = (Some None, st1).
Proof.
  intros Hstat Hstat2 Hread Hread2 Hround Hfirst.
  rewrite Create_run in Hfirst. rewrite Create_run.
  unfold check_mtime in *. rewrite Hstat in Hfirst. rewrite Hstat2.
  cbv zeta in *.
  destruct (Time_eqb (time_Unix t) (LastUpdate (loaded_meta w dataRoot st))) eqn:Heq.
  - inversion Hfirst; subst st1.
    assert (Hl : loaded_meta w2 dataRoot st = loaded_meta w dataRoot st).
    { unfold loaded_meta, os_ReadFile. now rewrite Hread, Hread2. }
    rewrite Hl, Heq. reflexivity.
  - apply rebuild_success in Hfirst
      as (s1 & s2 & s3 & data & _ & _ & _ & _ & Henc & Hfile & Hic & Hcfg).
    assert (Hpath : meta_path (ic st1) dataRoot = meta_path (ic st) dataRoot).
    { apply paths_same_config. congruence. }
    assert (Hl : LastUpdate (loaded_meta w2 dataRoot st1) = time_Unix t).
    { unfold loaded_meta, os_ReadFile. rewrite Hpath, Hread2, Hfile.
      exact (Hround _ Henc). }
    rewrite Hl, (proj2 (Time_eqb_eq _ _) eq_refl). reflexivity.
Qed.

End CreatorFacts.

(** ** The indexer: which records a build writes *)

Section BuildFacts.
Context `{Scan.GoRuntime}.
Import Scan.

Variables (w : World) (reg : Regexp) (index abs : string).
Variables (ign m0 t0 : gmap string bool).

Let fn : WalkFunc := indexEntry w reg index abs.

(** An entry that comes with an error is passed over. *)
Lemma indexEntry_error path info (e : error) st :
  fn path info (Some e) st = (Some WalkNil, st).
Proof. reflexivity. Qed.

(** A directory is never indexed; one with an ignored name is skipped. *)
Lemma indexEntry_directory path (n : string) st :
  fn path (Some {| info_Name := n; info_IsDir := true |}) None st
  = (Some (if map_get (ignoreNameMap (ic st)) n then SkipDir else WalkNil), st).
Proof.
  unfold fn, indexEntry, bind, get_ic, ret. simpl.
  destruct (map_get (ignoreNameMap (ic st)) n); reflexivity.
Qed.

Lemma built_ext_check recs st (ext : string) :
  built index m0 t0 recs st ->
  map_get (extMap (ic st)) ext = map_get m0 ext.
Proof.
  intros [(Hmap & HF & _) _]. rewrite Hmap. apply map_get_mark_all_false.
  apply Forall_map. eapply Forall_impl; [exact HF|]. intros v [_ Hv]. exact Hv.
Qed.

Lemma mark_all_app (b : bool) (l1 l2 : list string) (m : gmap string bool) :
  mark_all b (l1 ++ l2)%list m = mark_all b l2 (mark_all b l1 m).
Proof. unfold mark_all. apply foldl_app. Qed.

(** On a file the function, when it returns without an error, returns nil
    and has appended the record of the file, or nothing when the name or the
    extension is ignored. *)
Lemma indexEntry_file path (n : string) st recs :
  returns_ok (fn path (Some {| info_Name := n; info_IsDir := false |}) None st) ->
  built index m0 t0 recs st ->
  ignoreNameMap (ic st) = ign ->
  let res := fn path (Some {| info_Name := n; info_IsDir := false |}) None st in
  fst res = Some WalkNil /\
  built index m0 t0 (recs ++ records_under ign m0 reg abs path (File n))%list (snd res) /\
  ignoreNameMap (ic (snd res)) = ign.
Proof.
  intros Hok Hbuilt Hign. pose proof (built_ext_check _ _ (getExt n) Hbuilt) as Hchk.
  revert Hok. unfold returns_ok, fn, indexEntry, bind, get_ic, put_ic, ret, panic, on_files.
  cbn [records_under info_Name info_IsDir]. rewrite Hign, Hchk.
  destruct (map_get ign n); [simpl; rewrite app_nil_r; auto|].
  destruct (map_get m0 (getExt n)) eqn:Hext; [simpl; rewrite app_nil_r; auto|].
  simpl. unfold record_of, tags_of.
  destruct (parseTag n reg) as [[tags [perr|]]|]; try (simpl; tauto).
  simpl.
  destruct (json_Marshal_FileInfo _) as [b|merr] eqn:Hb; [|simpl; tauto].
  simpl.
  destruct (file_Write w index b (files st)) as [e1 fs1] eqn:Hw1.
  apply file_Write_frame in Hw1 as [_ Hc1]. simpl.
  destruct e1 as [werr|]; [simpl; tauto|].
  simpl.
  destruct (file_Write w index newline fs1) as [e2 fs2] eqn:Hw2.
  apply file_Write_frame in Hw2 as [_ Hc2]. simpl.
  destruct e2 as [werr|]; [simpl; tauto|].
  simpl. intros _. split; [reflexivity|]. split; [|exact Hign].
  destruct Hbuilt as [(Hmap & HF & c & Hcont & Hfile) Htags].
  set (v := {| Name := n; Path := normalizePath (GoStrings.TrimPrefix path abs);
               Tags := tags; Ext := getExt n |}) in *.
  split; [split; [|split]|].
  - cbn [ic extMap set_tagMap set_extMap]. rewrite map_app.
    change (map Ext [v]) with [getExt n]. rewrite mark_all_snoc, <- Hmap. reflexivity.
  - apply Forall_app. split; [exact HF|]. constructor; [|constructor].
    split; [reflexivity | exact Hext].
  - exists ((c +:+ b) +:+ newline). split; [now apply index_content_snoc|].
    cbn [files]. rewrite Hc2, Hc1 by reflexivity. rewrite Hfile. reflexivity.
  - cbn [ic tagMap set_tagMap set_extMap]. rewrite map_app, concat_app.
    change (concat (map Tags [v])) with (tags ++ [])%list. rewrite app_nil_r.
    rewrite mark_all_app, <- Htags. reflexivity.
Qed.

(** What a walk that returns without an error has done, for one entry. *)
Definition walk_exact_at (rec : string -> entry -> M walk_ret) (e : entry) : Prop :=
  forall path st recs,
    returns_ok (rec path e st) ->
    built index m0 t0 recs st ->
    ignoreNameMap (ic st) = ign ->
    built index m0 t0 (recs ++ records_under ign m0 reg abs path e)%list
          (snd (rec path e st)) /\
    ignoreNameMap (ic (snd (rec path e st))) = ign /\
    (fst (rec path e st) = Some SkipDir -> entry_IsDir e = true).

Lemma walk_names_exact (rec : string -> entry -> M walk_ret) path names :
  Forall (walk_exact_at rec) names ->
  forall st recs,
    returns_ok (walk_names rec fn path names st) ->
    built index m0 t0 recs st ->
    ignoreNameMap (ic st) = ign ->
    built index m0 t0
          (recs ++ flat_map (fun k => records_under ign m0 reg abs
                                        (filepath_Join path (entry_name k)) k) names)%list
          (snd (walk_names rec fn path names st)) /\
    ignoreNameMap (ic (snd (walk_names rec fn path names st))) = ign.
Proof.
  induction 1 as [|k rest Hk _ IH]; intros st recs; simpl.
  - rewrite app_nil_r. auto.
  - assert (Hstep : forall st1,
        returns_ok (rec (filepath_Join path (entry_name k)) k st) ->
        snd (rec (filepath_Join path (entry_name k)) k st) = st1 ->
        returns_ok (walk_names rec fn path rest st1) ->
        built index m0 t0 recs st -> ignoreNameMap (ic st) = ign ->
        built index m0 t0
          (recs ++ records_under ign m0 reg abs (filepath_Join path (entry_name k)) k
                ++ flat_map (fun k0 => records_under ign m0 reg abs
                                         (filepath_Join path (entry_name k0)) k0) rest)%list
          (snd (walk_names rec fn path rest st1)) /\
        ignoreNameMap (ic (snd (walk_names rec fn path rest st1))) = ign).
    { intros st1 Hok1 Hst1 Hok2 Hb Hi.
      destruct (Hk _ _ _ Hok1 Hb Hi) as (Hb1 & Hi1 & _). rewrite Hst1 in Hb1, Hi1.
      rewrite app_assoc. now apply IH. }
    destruct k as [n|n r kids|n]; unfold bind.
    + specialize (Hstep (snd (rec (filepath_Join path n) (File n) st))).
      pose proof (Hk (filepath_Join path n) st recs) as Hk'.
      simpl entry_name in *.
      destruct (rec (filepath_Join path n) (File n) st) as [[[| |e]|] st1] eqn:Hrec;
        unfold returns_ok in *; simpl in *; try tauto.
      intros Hok Hb Hi. destruct (Hk' I Hb Hi) as (_ & _ & Hdir).
      specialize (Hdir eq_refl). discriminate.
    + specialize (Hstep (snd (rec (filepath_Join path n) (Dir n r kids) st))).
      simpl entry_name in *.
      destruct (rec (filepath_Join path n) (Dir n r kids) st) as [[[| |e]|] st1] eqn:Hrec;
        unfold returns_ok in *; simpl in *; tauto.
    + simpl entry_name. rewrite ?indexEntry_error. unfold ret. simpl.
      intros Hok Hb Hi. now apply IH.
Qed.

(** A walk that returns without an error has appended exactly the records
    of the files under the entry, in order. *)
Lemma walk_exact e : walk_exact_at (walk fn) e.
Proof.
  induction e as [n|n r kids IH|n] using entry_ind'; intros path st recs.
  - cbn [walk]. unfold info_of. cbn [entry_name entry_IsDir]. intros Hok Hb Hi.
    pose proof (indexEntry_file path n st recs Hok Hb Hi) as Hfile. cbv zeta in Hfile.
    destruct Hfile as (Hr & Hb' & Hi').
    split; [exact Hb'|]. split; [exact Hi'|]. intros Hs.
    change (fst (fn path (Some {| info_Name := n; info_IsDir := false |}) None st)
            = Some SkipDir) in Hs.
    rewrite Hr in Hs. discriminate.
  - destruct r; cbn [walk records_under]; unfold bind, info_of;
      cbn [entry_name entry_IsDir].
    + rewrite indexEntry_directory. intros Hok Hb Hi. rewrite Hi in *. simpl negb.
      cbn [orb]. destruct (map_get ign n).
      * simpl. rewrite app_nil_r. auto.
      * simpl in Hok |- *.
        destruct (walk_names_exact (walk fn) path kids IH st recs Hok Hb Hi) as [Hb' Hi'].
        split; [exact Hb'|]. split; [exact Hi'|]. auto.
    + rewrite ?indexEntry_error. unfold ret. simpl. rewrite app_nil_r. auto.
  - cbn [walk records_under]. rewrite ?indexEntry_error. unfold ret. simpl.
    rewrite app_nil_r. intros _ Hb Hi. split; [exact Hb|]. split; [exact Hi|]. discriminate.
Qed.

End BuildFacts.

Section WholeBuild.
Context `{Scan.GoRuntime}.
Import Scan.

(** [createIndexFile], when it returns nil, leaves the state of a build
    that has written the records of the tree. *)
Lemma createIndexFile_built w root dataRoot st st' :
  createIndexFile w root dataRoot st = (Some None, st') ->
  exists reg,
    regexp_Compile (TagExpr (Config (ic st))) = Ok reg /\
    built (index_path (ic st) dataRoot) (extMap (ic st)) (tagMap (ic st))
          (records_under (ignoreNameMap (ic st)) (extMap (ic st)) reg
                         (filepath_Abs root) root (source_tree w root)) st'.
Proof.
  unfold createIndexFile, Walk, bind, get_ic, panic, ret, on_files, index_path.
  simpl.
  destruct (regexp_Compile (TagExpr (Config (ic st)))) as [reg|cerr]; [|discriminate].
  destruct (mkdir_fails w dataRoot); [discriminate|].
  set (index := path_Join dataRoot (IndexFile (Config (ic st)))).
  destruct (os_OpenFile_trunc w index (files st)) as [e fs1] eqn:Hopen.
  apply os_OpenFile_trunc_frame in Hopen as [_ Hc]. simpl.
  destruct e as [err|]; [discriminate|].
  set (st1 := {| ic := ic st; files := fs1 |}).
  pose proof (walk_exact w reg index (filepath_Abs root) (ignoreNameMap (ic st))
                (extMap (ic st)) (tagMap (ic st)) (source_tree w root) root st1 [])
    as Hwalk.
  unfold returns_ok in Hwalk.
  destruct (walk _ root (source_tree w root) st1) as [[r|] st2]; simpl in *; [|discriminate].
  assert (Hinit : built index (extMap (ic st)) (tagMap (ic st)) [] st1).
  { split; [|reflexivity]. split; [reflexivity|]. split; [constructor|].
    exists "". split; [reflexivity | now apply Hc]. }
  intros Hrun.
  assert (Hst : st2 = st' /\ match r with WalkErr _ => False | _ => True end).
  { destruct r; inversion Hrun; auto. }
  destruct Hst as [-> Hr].
  destruct Hwalk as (Hbuilt & _ & _);
    [destruct r; tauto | exact Hinit | reflexivity |].
  exists reg. split; [reflexivity | exact Hbuilt].
Qed.

(** X14. When [createIndexFile] returns nil, the pattern had compiled and the
    index file holds exactly the records of the files under the source
    root, in the order of the walk: files with an ignored name or an ignored
    extension, what is below a directory with an ignored name or one that
    cannot be listed, and entries that cannot be statted are left out; every
    other file has its record.  The extensions of these records are marked
    seen and their tags are marked in the tag map. *)
Theorem createIndexFile_writes_records_of_tree w root dataRoot st st' :
  createIndexFile w root dataRoot st = (Some None, st') ->
  exists reg content,
    let recs := records_under (ignoreNameMap (ic st)) (extMap (ic st)) reg
                              (filepath_Abs root) root (source_tree w root) in
    regexp_Compile (TagExpr (Config (ic st))) = Ok reg /\
    index_content recs = Some content /\
    files st' !! index_path (ic st) dataRoot = Some content /\
    extMap (ic st') = mark_all false (map Ext recs) (extMap (ic st)) /\
    tagMap (ic st') = mark_all true (concat (map Tags recs)) (tagMap (ic st)).
Proof.
  intros Hrun.
  destruct (createIndexFile_built _ _ _ _ _ Hrun)
    as (reg & Hreg & (Hmap & _ & content & Hcont & Hfile) & Htags).
  exists reg, content. cbv zeta. auto.
Qed.

(** A walk function that never returns an error, on the calls a walk makes
    (with a file info or with an error), makes the walk return without an
    error. *)
Lemma walk_names_always_ok (fn : WalkFunc) (rec : string -> entry -> M walk_ret) path names :
  (forall p info err st, info <> None \/ err <> None -> returns_ok (fn p info err st)) ->
  Forall (fun k => forall p st, returns_ok (rec p k st)) names ->
  forall st, returns_ok (walk_names rec fn path names st).
Proof.
  intros Hfn. induction 1 as [|k rest Hk _ IH]; intros st; simpl; [exact I|].
  destruct k as [n|n r kids|n]; unfold bind.
  - specialize (Hk (filepath_Join path n) st). simpl entry_name.
    destruct (rec (filepath_Join path n) (File n) st) as [[[| |e]|] st1];
      unfold returns_ok in *; simpl in *; try apply IH; try tauto.
  - specialize (Hk (filepath_Join path n) st). simpl entry_name.
    destruct (rec (filepath_Join path n) (Dir n r kids) st) as [[[| |e]|] st1];
      unfold returns_ok in *; simpl in *; try apply IH; try tauto.
  - simpl entry_name.
    assert (Hcall : (None : option WalkInfo) <> None \/
                    Some (PathError "lstat" (filepath_Join path n)) <> None)
      by (right; discriminate).
    pose proof (Hfn (filepath_Join path n) None _ st Hcall) as Hf.
    destruct (fn (filepath_Join path n) None _ st) as [[[| |e]|] st1];
      unfold returns_ok in *; simpl in *; try apply IH; try tauto.
Qed.

Lemma walk_always_ok (fn : WalkFunc) :
  (forall p info err st, info <> None \/ err <> None -> returns_ok (fn p info err st)) ->
  forall e path st, returns_ok (walk fn path e st).
Proof.
  intros Hfn. induction e as [n|n r kids IH|n] using entry_ind'; intros path st; simpl.
  - apply Hfn. left. discriminate.
  - unfold bind.
    assert (Hcall : Some (info_of (Dir n r kids)) <> None \/
                    (if r then None else Some (PathError "open" path)) <> None)
      by (left; discriminate).
    pose proof (Hfn path _ _ st Hcall) as Hf.
    destruct (fn path (Some (info_of (Dir n r kids))) _ st) as [[err1|] st1];
      [|exact Hf].
    destruct r, err1; unfold returns_ok in *; simpl in *; try tauto.
    now apply walk_names_always_ok.
  - apply Hfn. right. discriminate.
Qed.

(** With a pattern that has a capture group, records that can be encoded
    and an index file that accepts every write, the walk function never
    returns an error and never panics. *)
Lemma indexEntry_no_fault w reg index abs :
  (1 <= NumSubexp reg)%nat ->
  (forall v, exists b, json_Marshal_FileInfo v = Ok b) ->
  (forall cur data, write_fails w index cur data = false) ->
  forall path info err st,
    info <> None \/ err <> None ->
    returns_ok (indexEntry w reg index abs path info err st).
Proof.
  intros Hgroup Hmarshal Hwrite path info err st Hcall.
  unfold returns_ok, indexEntry, bind, get_ic, put_ic, ret, panic, on_files.
  destruct err as [e|]; [exact I|].
  destruct info as [i|]; [|destruct Hcall; contradiction].
  simpl.
  destruct (map_get (ignoreNameMap (ic st)) (info_Name i)).
  { destruct (info_IsDir i); exact I. }
  destruct (info_IsDir i); [exact I|].
  destruct (map_get (extMap (ic st)) (getExt (info_Name i))); [exact I|].
  simpl. unfold parseTag.
  destruct (parseTag_loop_total (FindAllStringSubmatch reg (info_Name i)) []) as [tags Ht].
  { apply Forall_forall. intros m Hm. apply list_elem_of_In in Hm.
    apply FindAllStringSubmatch_length in Hm. lia. }
  rewrite Ht. simpl.
  destruct (Hmarshal {| Name := info_Name i;
                        Path := normalizePath (GoStrings.TrimPrefix path abs);
                        Tags := tags; Ext := getExt (info_Name i) |}) as [b Hb].
  rewrite Hb. simpl. unfold file_Write. rewrite Hwrite. simpl. rewrite Hwrite. exact I.
Qed.

(** X16. When the pattern compiles and has a capture group, the data directory
    can be made, the index file can be opened and written, and records can
    be encoded, [createIndexFile] returns nil, whatever the tree holds:
    entries that cannot be statted and directories that cannot be listed do
    not make it fail. *)
Theorem createIndexFile_succeeds w root dataRoot st reg :
  regexp_Compile (TagExpr (Config (ic st))) = Ok reg ->
  (1 <= NumSubexp reg)%nat ->
  mkdir_fails w dataRoot = false ->
  open_fails w (index_path (ic st) dataRoot) = false ->
  (forall cur data, write_fails w (index_path (ic st) dataRoot) cur data = false) ->
  (forall v, exists b, json_Marshal_FileInfo v = Ok b) ->
  fst (createIndexFile w root dataRoot st) = Some None.
Proof.
  intros Hreg Hgroup Hmk Hopen Hwrite Hmarshal.
  unfold createIndexFile, Walk, bind, get_ic, panic, ret, on_files, index_path in *.
  simpl. rewrite Hreg, Hmk. unfold os_OpenFile_trunc. rewrite Hopen. simpl.
  pose proof (walk_always_ok _ (indexEntry_no_fault w reg _ (filepath_Abs root)
                                  Hgroup Hmarshal Hwrite)
                (source_tree w root) root
                {| ic := ic st;
                   files := <[path_Join dataRoot (IndexFile (Config (ic st))) := ""]>
                              (files st) |}) as Hok.
  unfold returns_ok in Hok.
  destruct (walk _ root (source_tree w root) _) as [[[| |e]|] st2]; simpl in *;
    try reflexivity; contradiction.
Qed.

(** *** The maps of a creator over its builds *)

Lemma maps_grow_refl st : maps_grow st st.
Proof. split; intros k; now left. Qed.

Lemma maps_grow_trans st1 st2 st3 :
  maps_grow st1 st2 -> maps_grow st2 st3 -> maps_grow st1 st3.
Proof.
  intros [E12 T12] [E23 T23]. split; intros k.
  - destruct (E12 k) as [H12|[H12 H12']], (E23 k) as [H23|[H23 H23']].
    + left. congruence.
    + right. split; [|exact H23']. unfold map_get in *. now rewrite <- H12.
    + right. split; [exact H12 | congruence].
    + right. auto.
  - destruct (T12 k) as [H12|H12], (T23 k) as [H23|H23]; auto.
    + left. congruence.
    + right. congruence.
Qed.

Lemma maps_grow_same_ic st st' : ic st' = ic st -> maps_grow st st'.
Proof. intros Hic. split; intros k; left; now rewrite Hic. Qed.

Lemma indexEntry_grows w reg index abs path info err st :
  maps_grow st (snd (indexEntry w reg index abs path info err st)).
Proof.
  unfold indexEntry, bind, get_ic, put_ic, ret, panic, on_files.
  destruct err as [e|]; [apply maps_grow_refl|].
  destruct info as [i|]; [|apply maps_grow_refl].
  simpl.
  destruct (map_get (ignoreNameMap (ic st)) (info_Name i)).
  { destruct (info_IsDir i); apply maps_grow_refl. }
  destruct (info_IsDir i); [apply maps_grow_refl|].
  destruct (map_get (extMap (ic st)) (getExt (info_Name i))) eqn:Hext;
    [apply maps_grow_refl|].
  assert (Hseen : forall k,
             <[getExt (info_Name i) := false]> (extMap (ic st)) !! k = extMap (ic st) !! k \/
             (map_get (extMap (ic st)) k = false /\
              <[getExt (info_Name i) := false]> (extMap (ic st)) !! k = Some false)).
  { intros k. destruct (decide (getExt (info_Name i) = k)) as [<-|Hne].
    - right. split; [exact Hext | apply lookup_insert_eq].
    - left. now apply lookup_insert_ne. }
  assert (Htag : forall tags k,
             mark_all true tags (tagMap (ic st)) !! k = tagMap (ic st) !! k \/
             mark_all true tags (tagMap (ic st)) !! k = Some true).
  { intros tags k. rewrite lookup_mark_all. destruct (decide (k ∈ tags)); auto. }
  simpl.
  destruct (parseTag (info_Name i) reg) as [[tags [perr|]]|];
    try (simpl; split; [exact Hseen | intros k; now left]).
  simpl.
  destruct (json_Marshal_FileInfo _) as [b|merr];
    [|simpl; split; [exact Hseen | apply Htag]].
  simpl.
  destruct (file_Write w index b (files st)) as [[werr|] fs1];
    [simpl; split; [exact Hseen | apply Htag]|].
  simpl.
  destruct (file_Write w index newline fs1) as [[werr|] fs2];
    simpl; (split; [exact Hseen | apply Htag]).
Qed.

Lemma createIndexFile_grows w root dataRoot st :
  maps_grow st (snd (createIndexFile w root dataRoot st)).
Proof.
  unfold createIndexFile, Walk, bind, get_ic, panic, ret, on_files. simpl.
  destruct (regexp_Compile (TagExpr (Config (ic st)))) as [reg|cerr];
    [|apply maps_grow_refl].
  destruct (mkdir_fails w dataRoot); [apply maps_grow_refl|].
  destruct (os_OpenFile_trunc w _ (files st)) as [[err|] fs1]; simpl;
    [apply maps_grow_same_ic; reflexivity|].
  set (st1 := {| ic := ic st; files := fs1 |}).
  pose proof (walk_rel (indexEntry w reg (path_Join dataRoot (IndexFile (Config (ic st))))
                          (filepath_Abs root))
                maps_grow maps_grow_refl maps_grow_trans
                (indexEntry_grows w reg _ (filepath_Abs root))
                (source_tree w root) root st1) as Hwalk.
  destruct (walk _ root (source_tree w root) st1) as [[r|] st2]; simpl in *.
  - destruct r; simpl; (eapply maps_grow_trans; [|exact Hwalk]);
      apply maps_grow_same_ic; reflexivity.
  - eapply maps_grow_trans; [|exact Hwalk]. apply maps_grow_same_ic; reflexivity.
Qed.

(** X17. Whatever [Create] returns, and also when it panics, the extension map
    and the tag map of the creator have only grown: no key is removed, an
    extension marked ignored stays so and no other becomes so, a tag once
    marked stays marked.  A creator that is used for several builds thus
    keeps the extensions and tags of earlier builds in its dictionaries. *)
Theorem Create_maps_only_grow w root dataRoot st :
  maps_grow st (snd (Create w root dataRoot st)).
Proof.
  rewrite Create_run.
  destruct (check_mtime w root (loaded_meta w dataRoot st)) as [meta|];
    [|apply maps_grow_refl].
  pose proof (rebuild_traced w root dataRoot meta st) as Htr.
  pose proof (createIndexFile_grows w root dataRoot st) as Hidx.
  destruct Htr as [r st1 H1 Hr|st1 err st2 H1 H2|st1 st2 err st3 H1 H2 H3
                   |st1 st2 st3 e st4 H1 H2 H3 H4]; rewrite H1 in Hidx; simpl in *.
  - exact Hidx.
  - destruct (createExtListFile_spec w dataRoot st1) as (e2 & s2 & H2' & I2 & _).
    rewrite H2 in H2'. inversion H2'; subst e2 s2.
    eapply maps_grow_trans; [exact Hidx | now apply maps_grow_same_ic].
  - destruct (createExtListFile_spec w dataRoot st1) as (e2 & s2 & H2' & I2 & _).
    rewrite H2 in H2'. inversion H2'; subst e2 s2.
    destruct (createTagListFile_spec w dataRoot st2) as (e3 & s3 & H3' & I3 & _).
    rewrite H3 in H3'. inversion H3'; subst e3 s3.
    eapply maps_grow_trans; [exact Hidx | apply maps_grow_same_ic; congruence].
  - destruct (createExtListFile_spec w dataRoot st1) as (e2 & s2 & H2' & I2 & _).
    rewrite H2 in H2'. inversion H2'; subst e2 s2.
    destruct (createTagListFile_spec w dataRoot st2) as (e3 & s3 & H3' & I3 & _).
    rewrite H3 in H3'. inversion H3'; subst e3 s3.
    destruct (writeJsonFile_spec w (meta_path (ic st) dataRoot)
                (json_Marshal_MetaData meta) st3) as (e4 & s4 & H4' & I4 & _).
    rewrite H4 in H4'. inversion H4'; subst e4 s4.
    eapply maps_grow_trans; [exact Hidx | apply maps_grow_same_ic; congruence].
Qed.

(** *** The four outputs of a build *)

Lemma foldl_snoc (a l : list string) :
  foldl (fun (acc : list string) k => (acc ++ [k])%list) a l = (a ++ l)%list.
Proof.
  revert a. induction l as [|k l IH]; intros a; simpl; [now rewrite app_nil_r|].
  rewrite IH, <- app_assoc. reflexivity.
Qed.

(** The keys a map yields: each key once. *)
Lemma range_keys_spec w (m : gmap string bool) :
  NoDup (range_keys w m) /\ forall k, k ∈ range_keys w m <-> is_Some (m !! k).
Proof.
  unfold range_keys. pose proof (range_order_keys w m) as Hperm.
  split; [rewrite Hperm; apply NoDup_fst_map_to_list|].
  intros k. rewrite Hperm. revert k.
  intros k. rewrite list_elem_of_fmap. split.
  - intros ([k' b] & -> & Hin). apply elem_of_map_to_list in Hin. simpl. eauto.
  - intros [b Hb]. exists (k, b). split; [reflexivity | now apply elem_of_map_to_list].
Qed.

Lemma createTagListFile_content w dataRoot st st' :
  createTagListFile w dataRoot st = (Some None, st') ->
  exists data,
    json_Marshal_strings (range_keys w (tagMap (ic st))) = Ok data /\
    files st' !! tag_path (ic st) dataRoot = Some data.
Proof.
  unfold createTagListFile, tag_path, bind, get_ic. simpl. rewrite foldl_snoc. simpl.
  destruct (writeJsonFile_spec w (path_Join dataRoot (TagListFile (Config (ic st))))
              (json_Marshal_strings (range_keys w (tagMap (ic st)))) st)
    as (e & s1 & Hrun & _ & _ & Hok).
  rewrite Hrun. destruct e as [err|]; [discriminate|].
  intros Heq. inversion Heq; subst. now apply Hok.
Qed.

(** The tag dictionary of a build that returned nil: it holds the encoding
    of the keys of the tag map the walk left. *)
Lemma rebuild_tag_dictionary w root dataRoot meta st st' :
  tag_path (ic st) dataRoot <> meta_path (ic st) dataRoot ->
  rebuild w root dataRoot meta st = (Some None, st') ->
  exists st1 dt,
    createIndexFile w root dataRoot st = (Some None, st1) /\
    ic st' = ic st1 /\
    json_Marshal_strings (range_keys w (tagMap (ic st'))) = Ok dt /\
    files st' !! tag_path (ic st) dataRoot = Some dt.
Proof.
  intros N34 Hrun.
  apply rebuild_success in Hrun
    as (st1 & st2 & st3 & dm & H1 & H2 & H3 & H4 & Hm & Hmfile & Hic' & Hcfg).
  destruct (paths_same_config _ _ dataRoot Hcfg) as (P1 & P2 & P3 & P4).
  destruct (createExtListFile_spec w dataRoot st1) as (e2 & s2 & H2' & I2 & Hfr2 & Hok2).
  rewrite H2 in H2'. inversion H2'; subst e2 s2.
  destruct (createTagListFile_content _ _ _ _ H3) as (dt & Hdt & Hdtfile).
  destruct (writeJsonFile_spec w (meta_path (ic st) dataRoot)
              (json_Marshal_MetaData meta) st3) as (e4 & s4 & H4' & I4 & Hfr4 & _).
  rewrite H4 in H4'. inversion H4'; subst e4 s4.
  exists st1, dt. split; [exact H1|]. split; [exact Hic'|].
  split; [rewrite Hic', <- I2; exact Hdt|].
  rewrite (Hfr4 _ N34). rewrite I2, P3 in Hdtfile. exact Hdtfile.
Qed.

(** X18. A build that returns nil has written all four outputs, and nothing
    else.  The index file holds the records of the tree (as for
    [createIndexFile]); the extension dictionary is the encoding of the
    extension map, as it is after the walk; the tag dictionary is the
    encoding of a list that holds each key of the tag map, as it is after
    the walk, once, in whatever order the run yields them; the metadata file
    is the encoding of the metadata of this build; every other file is as it
    was. *)
Theorem Create_writes_four_outputs w root dataRoot st st' (meta : MetaData) :
  NoDup [index_path (ic st) dataRoot; ext_path (ic st) dataRoot;
         tag_path (ic st) dataRoot; meta_path (ic st) dataRoot] ->
  check_mtime w root (loaded_meta w dataRoot st) = Some meta ->
  Create w root dataRoot st = (Some None, st') ->
  exists reg ci de tags dt dm,
    let recs := records_under (ignoreNameMap (ic st)) (extMap (ic st)) reg
                              (filepath_Abs root) root (source_tree w root) in
    regexp_Compile (TagExpr (Config (ic st))) = Ok reg /\
    extMap (ic st') = mark_all false (map Ext recs) (extMap (ic st)) /\
    tagMap (ic st') = mark_all true (concat (map Tags recs)) (tagMap (ic st)) /\
    index_content recs = Some ci /\
    files st' !! index_path (ic st) dataRoot = Some ci /\
    json_Marshal_map (extMap (ic st')) = Ok de /\
    files st' !! ext_path (ic st) dataRoot = Some de /\
    NoDup tags /\
    (forall t, t ∈ tags <-> is_Some (tagMap (ic st') !! t)) /\
    json_Marshal_strings tags = Ok dt /\
    files st' !! tag_path (ic st) dataRoot = Some dt /\
    json_Marshal_MetaData meta = Ok dm /\
    files st' !! meta_path (ic st) dataRoot = Some dm /\
    forall g, g ∉ [index_path (ic st) dataRoot; ext_path (ic st) dataRoot;
                   tag_path (ic st) dataRoot; meta_path (ic st) dataRoot] ->
              files st' !! g = files st !! g.
Proof.
  intros Hdistinct Hcheck Hrun. rewrite Create_run, Hcheck in Hrun.
  apply rebuild_success in Hrun
    as (st1 & st2 & st3 & dm & H1 & H2 & H3 & H4 & Hm & Hmfile & Hic' & Hcfg).
  destruct (createIndexFile_built _ _ _ _ _ H1)
    as (reg & Hreg & (Hext & _ & ci & Hci & Hifile) & Htags).
  destruct (paths_same_config _ _ dataRoot Hcfg) as (P1 & P2 & P3 & P4).
  pose proof (createIndexFile_frame w root dataRoot st) as [Hfr1 _].
  rewrite H1 in Hfr1. simpl in Hfr1.
  destruct (createExtListFile_spec w dataRoot st1) as (e2 & s2 & H2' & I2 & Hfr2 & Hok2).
  rewrite H2 in H2'. inversion H2'; subst e2 s2.
  destruct (Hok2 eq_refl) as (de & Hde & Hdefile).
  destruct (createTagListFile_spec w dataRoot st2) as (e3 & s3 & H3' & I3 & Hfr3).
  rewrite H3 in H3'. inversion H3'; subst e3 s3.
  destruct (createTagListFile_content _ _ _ _ H3) as (dt & Hdt & Hdtfile).
  destruct (writeJsonFile_spec w (meta_path (ic st) dataRoot)
              (json_Marshal_MetaData meta) st3) as (e4 & s4 & H4' & I4 & Hfr4 & _).
  rewrite H4 in H4'. inversion H4'; subst e4 s4.
  assert (Hne : index_path (ic st) dataRoot <> ext_path (ic st) dataRoot /\
                index_path (ic st) dataRoot <> tag_path (ic st) dataRoot /\
                index_path (ic st) dataRoot <> meta_path (ic st) dataRoot /\
                ext_path (ic st) dataRoot <> tag_path (ic st) dataRoot /\
                ext_path (ic st) dataRoot <> meta_path (ic st) dataRoot /\
                tag_path (ic st) dataRoot <> meta_path (ic st) dataRoot).
  { apply NoDup_cons in Hdistinct as [Hn1 Hd]. apply NoDup_cons in Hd as [Hn2 Hd].
    apply NoDup_cons in Hd as [Hn3 _].
    apply not_elem_of_cons in Hn1 as [N12 Hn1]. apply not_elem_of_cons in Hn1 as [N13 Hn1].
    apply not_elem_of_cons in Hn1 as [N14 _].
    apply not_elem_of_cons in Hn2 as [N23 Hn2]. apply not_elem_of_cons in Hn2 as [N24 _].
    apply not_elem_of_cons in Hn3 as [N34 _]. auto 7. }
  destruct Hne as (N12 & N13 & N14 & N23 & N24 & N34).
  assert (Hic3 : ic st3 = ic st1) by congruence.
  exists reg, ci, de, (range_keys w (tagMap (ic st'))), dt, dm. cbv zeta.
  split; [exact Hreg|]. split; [now rewrite Hic'|]. split; [now rewrite Hic'|].
  split; [exact Hci|]. split.
  { rewrite (Hfr4 _ N14), (Hfr3 _), (Hfr2 _); [exact Hifile| |]; congruence. }
  split; [now rewrite Hic'|]. split.
  { rewrite (Hfr4 _ N24), (Hfr3 _); [congruence|]. rewrite I2. congruence. }
  split; [apply range_keys_spec|]. split; [apply range_keys_spec|].
  split; [rewrite Hic', <- I2; exact Hdt|]. split.
  { rewrite (Hfr4 _ N34). rewrite I2, P3 in Hdtfile. exact Hdtfile. }
  split; [exact Hm|]. split; [exact Hmfile|].
  intros g Hg.
  assert (Hg' : g <> index_path (ic st) dataRoot /\ g <> ext_path (ic st) dataRoot /\
                g <> tag_path (ic st) dataRoot /\ g <> meta_path (ic st) dataRoot).
  { apply not_elem_of_cons in Hg as [G1 Hg]. apply not_elem_of_cons in Hg as [G2 Hg].
    apply not_elem_of_cons in Hg as [G3 Hg]. apply not_elem_of_cons in Hg as [G4 _].
    auto. }
  destruct Hg' as (G1 & G2 & G3 & G4).
  rewrite (Hfr4 _ G4), (Hfr3 _), (Hfr2 _), (Hfr1 _ G1); [reflexivity| |]; congruence.
Qed.

(** X19. The tag dictionary [InitIndex] writes.  Its creator is new, so the tags
    written are the tags of the records of this build and no others: every
    tag of a record is in the list, every tag in the list is a tag of some
    record, and no tag is there twice, however often files carry it. *)
Theorem InitIndex_tag_dictionary w (cfg : RootConfig) (fs : Files) st' (meta : MetaData) :
  let sc := cfg_ScanConfig cfg in
  let st := {| ic := NewIndexCreator sc; files := fs |} in
  tag_path (ic st) (DataRoot cfg) <> meta_path (ic st) (DataRoot cfg) ->
  check_mtime w (SrcRoot cfg) (loaded_meta w (DataRoot cfg) st) = Some meta ->
  InitIndex w cfg fs = (Some None, st') ->
  exists reg tags data,
    let recs := records_under (mark_all true (IgnoreName sc) ∅)
                              (mark_all true (IgnoreExt sc) ∅) reg
                              (filepath_Abs (SrcRoot cfg)) (SrcRoot cfg)
                              (source_tree w (SrcRoot cfg)) in
    regexp_Compile (TagExpr sc) = Ok reg /\
    json_Marshal_strings tags = Ok data /\
    files st' !! tag_path (ic st) (DataRoot cfg) = Some data /\
    NoDup tags /\
    forall t, t ∈ tags <-> exists v, v ∈ recs /\ t ∈ Tags v.
Proof.
  intros sc st Hdistinct Hcheck Hrun. unfold InitIndex in Hrun. fold sc st in Hrun.
  rewrite Create_run, Hcheck in Hrun.
  destruct (rebuild_tag_dictionary _ _ _ _ _ _ Hdistinct Hrun)
    as (st1 & dt & H1 & Hic' & Hdt & Hfile).
  destruct (createIndexFile_built _ _ _ _ _ H1) as (reg & Hreg & _ & Htags).
  rewrite <- Hic' in Htags. exists reg, (range_keys w (tagMap (ic st'))), dt. cbv zeta.
  destruct (range_keys_spec w (tagMap (ic st'))) as [Hnodup Hkeys].
  split; [exact Hreg|]. split; [exact Hdt|]. split; [exact Hfile|].
  split; [exact Hnodup|].
  intros t. rewrite Hkeys, Htags, lookup_mark_all. simpl.
  destruct (decide (t ∈ concat (map Tags _))) as [Hin|Hn].
  - split; [intros _|eauto].
    apply list_elem_of_In, in_concat in Hin as (l & Hl & Ht).
    apply in_map_iff in Hl as (v & <- & Hv).
    exists v. split; now apply list_elem_of_In.
  - rewrite lookup_empty. split; [intros [? ?]; discriminate|].
    intros (v & Hv & Ht). exfalso. apply Hn. apply list_elem_of_In, in_concat.
    exists (Tags v). split; [|now apply list_elem_of_In].
    apply in_map. now apply list_elem_of_In.
Qed.

End WholeBuild.

(** ** The records themselves *)

Section RecordFacts.
Context `{Scan.GoRuntime}.
Import Scan.

Lemma normalizePath_no_backslash (s : string) :
  GoStrings.has_no "\" (normalizePath s) = true.
Proof.
  unfold normalizePath, GoStrings.has_no. induction s as [|c s IH]; simpl; [reflexivity|].
  rewrite IH, andb_true_r. destruct (Ascii.eqb_spec c "\"%char) as [->|Hne];
    [reflexivity|].
  apply negb_true_iff. now apply Ascii.eqb_neq.
Qed.

Lemma TrimPrefix_go_spec (s prefix rest : string) :
  GoStrings.TrimPrefix_go s prefix = Some rest <-> s = prefix +:+ rest.
Proof.
  revert s. induction prefix as [|c p IH]; intros s.
  - change ("" +:+ rest) with rest.
    destruct s; simpl; split; intros Heq; inversion Heq; reflexivity.
  - change (String c p +:+ rest) with (String c (p +:+ rest)).
    destruct s as [|d s]; simpl.
    + split; [discriminate | intros Heq; inversion Heq].
    + destruct (Ascii.eqb_spec c d) as [->|Hne].
      * rewrite IH. split; intros Heq.
        -- now rewrite Heq.
        -- now inversion Heq.
      * split; [discriminate | intros Heq; inversion Heq; congruence].
Qed.

(** X20. The path of a record is what follows the absolute root in the path the
    walk hands over, with every backslash replaced by a slash; when that
    path does not begin with the absolute root (a root given relative to the
    working directory), it is the whole path, root included. *)
Theorem record_path_after_abs_root (reg : Regexp) (abs path name : string) :
  (forall rel, path = abs +:+ rel ->
     Path (record_of reg abs path name) = normalizePath rel) /\
  ((forall rel, path <> abs +:+ rel) ->
     Path (record_of reg abs path name) = normalizePath path) /\
  GoStrings.has_no "\" (Path (record_of reg abs path name)) = true.
Proof.
  unfold record_of, GoStrings.TrimPrefix. simpl. split; [|split].
  - intros rel Hrel. apply TrimPrefix_go_spec in Hrel. now rewrite Hrel.
  - intros Hno. destruct (GoStrings.TrimPrefix_go path abs) as [rest|] eqn:Htrim;
      [|reflexivity].
    apply TrimPrefix_go_spec in Htrim. exfalso. exact (Hno rest Htrim).
  - apply normalizePath_no_backslash.
Qed.

(** Every record of a tree is the record of a file whose name and extension
    are not ignored; its extension and its tags are those of its name. *)
Lemma records_under_not_ignored (ign m0 : gmap string bool) (reg : Regexp)
    (abs : string) (e : entry) :
  forall path,
    Forall (fun v => map_get ign (Name v) = false /\
                     map_get m0 (Ext v) = false /\
                     Ext v = getExt (Name v) /\
                     Tags v = tags_of (Name v) reg /\
                     GoStrings.has_no "\" (Path v) = true)
           (records_under ign m0 reg abs path e).
Proof.
  induction e as [n|n r kids IH|n] using entry_ind'; intros path; simpl.
  - destruct (map_get ign n) eqn:Hn; [constructor|].
    destruct (map_get m0 (getExt n)) eqn:He; [constructor|].
    simpl. constructor; [|constructor]. simpl.
    repeat split; auto. apply normalizePath_no_backslash.
  - destruct (negb r || map_get ign n)%bool; [constructor|].
    induction IH as [|k kids Hk _ IHkids]; simpl; [constructor|].
    apply Forall_app. split; [apply Hk | exact IHkids].
  - constructor.
Qed.

(** X15. No record for what is ignored.  When [createIndexFile] returns nil,
    every record in the index file is the record of a file whose name the
    creator does not ignore and whose extension it does not ignore; the
    extension of the record is the one [getExt] gives for its name, and its
    path holds no backslash. *)
Theorem createIndexFile_leaves_out_ignored w root dataRoot st st' :
  createIndexFile w root dataRoot st = (Some None, st') ->
  exists recs content,
    index_content recs = Some content /\
    files st' !! index_path (ic st) dataRoot = Some content /\
    Forall (fun v => map_get (ignoreNameMap (ic st)) (Name v) = false /\
                     map_get (extMap (ic st)) (Ext v) = false /\
                     Ext v = getExt (Name v) /\
                     GoStrings.has_no "\" (Path v) = true) recs.
Proof.
  intros Hrun.
  destruct (createIndexFile_built _ _ _ _ _ Hrun)
    as (reg & _ & (_ & _ & content & Hcontent & Hfile) & _).
  eexists _, content.
  split; [exact Hcontent|]. split; [exact Hfile|].
  eapply Forall_impl; [apply records_under_not_ignored|].
  simpl. intros v (Hn & He & Hx & _ & Hp). auto.
Qed.

Lemma records_under_same_marks (ign m0 m1 : gmap string bool) (reg : Regexp)
    (abs : string) (e : entry) :
  (forall k, map_get m1 k = map_get m0 k) ->
  forall path,
    records_under ign m1 reg abs path e = records_under ign m0 reg abs path e.
Proof.
  intros Hsame.
  induction e as [n|n r kids IH|n] using entry_ind'; intros path; simpl.
  - now rewrite Hsame.
  - destruct (negb r || map_get ign n)%bool; [reflexivity|].
    induction IH as [|k kids Hk _ IHkids]; simpl; [reflexivity|].
    now rewrite Hk, IHkids.
  - reflexivity.
Qed.

Lemma mark_all_idem (b : bool) (l : list string) (m : gmap string bool) :
  mark_all b l (mark_all b l m) = mark_all b l m.
Proof.
  apply map_eq. intros k. rewrite !lookup_mark_all.
  destruct (decide (k ∈ l)); reflexivity.
Qed.

(** X21. Building the index again over an unchanged tree, with the same
    creator, gives the same index file and leaves the extension map and the
    tag map as the first build left them: the extensions the first build
    marked as seen are not taken for ignored ones by the second. *)
Theorem createIndexFile_again_same_index w w2 root dataRoot st st1 st2 :
  source_tree w2 root = source_tree w root ->
  createIndexFile w root dataRoot st = (Some None, st1) ->
  createIndexFile w2 root dataRoot st1 = (Some None, st2) ->
  files st2 !! index_path (ic st) dataRoot = files st1 !! index_path (ic st) dataRoot /\
  extMap (ic st2) = extMap (ic st1) /\
  tagMap (ic st2) = tagMap (ic st1).
Proof.
  intros Htree H1 H2.
  destruct (createIndexFile_built _ _ _ _ _ H1)
    as (reg & Hreg & (Hext1 & HF1 & c1 & Hc1 & Hf1) & Ht1).
  destruct (createIndexFile_built _ _ _ _ _ H2)
    as (reg2 & Hreg2 & (Hext2 & _ & c2 & Hc2 & Hf2) & Ht2).
  pose proof (createIndexFile_frame w root dataRoot st) as [_ [Hcfg Hign]].
  rewrite H1 in Hcfg, Hign. simpl in Hcfg, Hign.
  destruct (paths_same_config _ _ dataRoot Hcfg) as (P1 & _).
  rewrite Hcfg, Hreg in Hreg2. inversion Hreg2; subst reg2. clear Hreg2.
  rewrite Hign, Htree in Hext2, Hc2, Ht2.
  assert (Hsame : forall k, map_get (extMap (ic st1)) k = map_get (extMap (ic st)) k).
  { intros k. rewrite Hext1. apply map_get_mark_all_false.
    apply Forall_map. eapply Forall_impl; [exact HF1|]. simpl. tauto. }
  rewrite (records_under_same_marks _ _ _ _ _ _ Hsame) in Hext2, Hc2, Ht2.
  rewrite P1 in Hf2. rewrite Hc1 in Hc2. inversion Hc2; subst c2.
  split; [now rewrite Hf1, Hf2|]. split.
  - rewrite Hext2, Hext1. apply mark_all_idem.
  - rewrite Ht2, Ht1. apply mark_all_idem.
Qed.

End RecordFacts.

(** ** The build as a whole *)

Section BuildClaims.
Context `{Scan.GoRuntime}.
Import Scan.

Implicit Types (st : State) (w : World).

Lemma ext_stage_ic w dataRoot st r st1 :
  createExtListFile w dataRoot st = (r, st1) -> ic st1 = ic st.
Proof.
  intros Hrun.
  destruct (createExtListFile_spec w dataRoot st) as (e & st' & Hrun' & Hic & _).
  rewrite Hrun in Hrun'. now inversion Hrun'; subst.
Qed.

Lemma tag_stage_ic w dataRoot st r st1 :
  createTagListFile w dataRoot st = (r, st1) -> ic st1 = ic st.
Proof.
  intros Hrun.
  destruct (createTagListFile_spec w dataRoot st) as (e & st' & Hrun' & Hic & _).
  rewrite Hrun in Hrun'. now inversion Hrun'; subst.
Qed.

Lemma writeJsonFile_ic w f enc st r st1 :
  writeJsonFile w f enc st = (r, st1) -> ic st1 = ic st.
Proof.
  intros Hrun.
  destruct (writeJsonFile_spec w f enc st) as (e & st' & Hrun' & Hic & _).
  rewrite Hrun in Hrun'. now inversion Hrun'; subst.
Qed.

(** After a build, whatever it returned, the creator is as the walk left
    it. *)
Lemma rebuild_keeps_walk_ic w root dataRoot meta st :
  ic (snd (rebuild w root dataRoot meta st))
  = ic (snd (createIndexFile w root dataRoot st)).
Proof.
  pose proof (rebuild_traced w root dataRoot meta st) as Htr.
  destruct Htr as [r st1 H1 Hr|st1 err st2 H1 H2|st1 st2 err st3 H1 H2 H3
                   |st1 st2 st3 e st4 H1 H2 H3 H4]; rewrite H1; simpl.
  - reflexivity.
  - exact (ext_stage_ic _ _ _ _ _ H2).
  - rewrite (tag_stage_ic _ _ _ _ _ H3). exact (ext_stage_ic _ _ _ _ _ H2).
  - rewrite (writeJsonFile_ic _ _ _ _ _ _ H4), (tag_stage_ic _ _ _ _ _ H3).
    exact (ext_stage_ic _ _ _ _ _ H2).
Qed.

(** [Create] keeps the configuration and the ignore-name map of the
    creator, and which extensions its extension map marks as ignored. *)
Lemma Create_keeps_marks w root dataRoot st :
  Config (ic (snd (Create w root dataRoot st))) = Config (ic st) /\
  ignoreNameMap (ic (snd (Create w root dataRoot st))) = ignoreNameMap (ic st) /\
  forall e, map_get (extMap (ic (snd (Create w root dataRoot st)))) e
            = map_get (extMap (ic st)) e.
Proof.
  rewrite Create_run.
  destruct (check_mtime w root (loaded_meta w dataRoot st)) as [meta|]; simpl;
    [|auto].
  rewrite rebuild_keeps_walk_ic.
  pose proof (createIndexFile_frame w root dataRoot st) as [_ [Hcfg Hign]].
  pose proof (createIndexFile_grows w root dataRoot st) as [Hext _].
  split; [exact Hcfg|]. split; [exact Hign|].
  intros e. unfold map_get in *. destruct (Hext e) as [-> | [Hf ->]]; [reflexivity|].
  simpl. now rewrite Hf.
Qed.

(** A creator of a configuration holds that configuration; its ignore-name
    map is the one [NewIndexCreator] made, and its extension map marks as
    ignored exactly what the map [NewIndexCreator] made marks. *)
Lemma creator_of_marks (cfg : ScanConfig) (c : IndexCreator) :
  creator_of cfg c ->
  Config c = cfg /\
  ignoreNameMap c = mark_all true (IgnoreName cfg) ∅ /\
  forall e, map_get (extMap c) e = map_get (mark_all true (IgnoreExt cfg) ∅) e.
Proof.
  induction 1 as [|c w root dataRoot fs Hc (IH1 & IH2 & IH3)]; [auto|].
  destruct (Create_keeps_marks w root dataRoot {| ic := c; files := fs |})
    as (C1 & C2 & C3).
  simpl in *. split; [congruence|]. split; [congruence|].
  intros e. now rewrite C3, IH3.
Qed.

(** When the three stages before the metadata have returned nil, their
    outputs are in place. *)
Lemma stages_outputs w root dataRoot st st1 st2 st3 :
  index_path (ic st) dataRoot <> ext_path (ic st) dataRoot ->
  index_path (ic st) dataRoot <> tag_path (ic st) dataRoot ->
  ext_path (ic st) dataRoot <> tag_path (ic st) dataRoot ->
  createIndexFile w root dataRoot st = (Some None, st1) ->
  createExtListFile w dataRoot st1 = (Some None, st2) ->
  createTagListFile w dataRoot st2 = (Some None, st3) ->
  outputs_of_build w root dataRoot st st3.
Proof.
  intros N12 N13 N23 H1 H2 H3.
  destruct (createIndexFile_built _ _ _ _ _ H1)
    as (reg & Hreg & (Hext & _ & ci & Hci & Hifile) & Htags).
  pose proof (createIndexFile_frame w root dataRoot st) as [_ [Hcfg _]].
  rewrite H1 in Hcfg. simpl in Hcfg.
  destruct (paths_same_config _ _ dataRoot Hcfg) as (P1 & P2 & P3 & P4).
  destruct (createExtListFile_spec w dataRoot st1) as (e2 & s2 & H2' & I2 & Hfr2 & Hok2).
  rewrite H2 in H2'. inversion H2'; subst e2 s2.
  destruct (Hok2 eq_refl) as (de & Hde & Hdefile).
  destruct (createTagListFile_spec w dataRoot st2) as (e3 & s3 & H3' & I3 & Hfr3).
  rewrite H3 in H3'. inversion H3'; subst e3 s3.
  destruct (createTagListFile_content _ _ _ _ H3) as (dt & Hdt & Hdtfile).
  exists reg, ci, de, dt. cbv zeta.
  split; [exact Hreg|]. split; [now rewrite I3, I2|]. split; [now rewrite I3, I2|].
  split; [exact Hci|]. split.
  { rewrite (Hfr3 _), (Hfr2 _); [exact Hifile| |]; congruence. }
  split; [now rewrite I3, I2|]. split.
  { rewrite (Hfr3 _); [congruence|]. rewrite I2. congruence. }
  split; [rewrite I3; exact Hdt|].
  rewrite I2, P3 in Hdtfile. exact Hdtfile.
Qed.

(** Writing the metadata file leaves the three outputs in place. *)
Lemma outputs_after_meta w root dataRoot st st3 enc r st4 :
  meta_path (ic st) dataRoot <> index_path (ic st) dataRoot ->
  meta_path (ic st) dataRoot <> ext_path (ic st) dataRoot ->
  meta_path (ic st) dataRoot <> tag_path (ic st) dataRoot ->
  outputs_of_build w root dataRoot st st3 ->
  writeJsonFile w (meta_path (ic st) dataRoot) enc st3 = (r, st4) ->
  outputs_of_build w root dataRoot st st4.
Proof.
  intros Hi He Ht (reg & ci & de & dt & Hreg & Hext & Htag & Hci & Hif & Hde & Hef
                   & Hdt & Htf) Hw.
  destruct (writeJsonFile_spec w (meta_path (ic st) dataRoot) enc st3)
    as (e & s & Hw' & Hic & Hfr & _).
  rewrite Hw in Hw'. inversion Hw'; subst r st4.
  exists reg, ci, de, dt. cbv zeta in *. rewrite Hic.
  split; [exact Hreg|]. split; [exact Hext|]. split; [exact Htag|].
  split; [exact Hci|].
  split; [rewrite Hfr; [exact Hif | congruence]|]. split; [exact Hde|].
  split; [rewrite Hfr; [exact Hef | congruence]|]. split; [exact Hdt|].
  rewrite Hfr; [exact Htf | congruence].
Qed.

(** C7. In a build, the metadata file is written last.  When writing the
    index file, the extension dictionary or the tag dictionary fails,
    [Create] returns that error and the metadata file is as it was.
    Whenever the metadata file is not as it was after [Create], the three
    other outputs were written without error before it.  And when these
    three stages have returned nil, the metadata file is still as it was,
    the three outputs are in place (the index file holds the records of the
    tree, the two dictionaries the encodings of the maps), and what is left
    of [Create] is the one write of the metadata file, which leaves these
    outputs as they are and, when it returns nil, the encoding of the
    metadata in the metadata file. *)
Theorem Create_writes_metadata_last w root dataRoot st (meta : MetaData) :
  meta_path (ic st) dataRoot <> index_path (ic st) dataRoot ->
  meta_path (ic st) dataRoot <> ext_path (ic st) dataRoot ->
  meta_path (ic st) dataRoot <> tag_path (ic st) dataRoot ->
  check_mtime w root (loaded_meta w dataRoot st) = Some meta ->
  (forall err st1,
      createIndexFile w root dataRoot st = (Some (Some err), st1) ->
      Create w root dataRoot st = (Some (Some err), st1) /\
      files st1 !! meta_path (ic st) dataRoot = files st !! meta_path (ic st) dataRoot) /\
  (forall err st1 st2,
      createIndexFile w root dataRoot st = (Some None, st1) ->
      createExtListFile w dataRoot st1 = (Some (Some err), st2) ->
      Create w root dataRoot st = (Some (Some err), st2) /\
      files st2 !! meta_path (ic st) dataRoot = files st !! meta_path (ic st) dataRoot) /\
  (forall err st1 st2 st3,
      createIndexFile w root dataRoot st = (Some None, st1) ->
      createExtListFile w dataRoot st1 = (Some None, st2) ->
      createTagListFile w dataRoot st2 = (Some (Some err), st3) ->
      Create w root dataRoot st = (Some (Some err), st3) /\
      files st3 !! meta_path (ic st) dataRoot = files st !! meta_path (ic st) dataRoot) /\
  (files (snd (Create w root dataRoot st)) !! meta_path (ic st) dataRoot
     <> files st !! meta_path (ic st) dataRoot ->
   exists st1 st2 st3,
     createIndexFile w root dataRoot st = (Some None, st1) /\
     createExtListFile w dataRoot st1 = (Some None, st2) /\
     createTagListFile w dataRoot st2 = (Some None, st3) /\
     Create w root dataRoot st
     = writeJsonFile w (meta_path (ic st) dataRoot) (json_Marshal_MetaData meta) st3) /\
  (forall st1 st2 st3,
      createIndexFile w root dataRoot st = (Some None, st1) ->
      createExtListFile w dataRoot st1 = (Some None, st2) ->
      createTagListFile w dataRoot st2 = (Some None, st3) ->
      files st3 !! meta_path (ic st) dataRoot = files st !! meta_path (ic st) dataRoot /\
      Create w root dataRoot st
      = writeJsonFile w (meta_path (ic st) dataRoot) (json_Marshal_MetaData meta) st3 /\
      (fst (Create w root dataRoot st) = Some None ->
       exists dm,
         json_Marshal_MetaData meta = Ok dm /\
         files (snd (Create w root dataRoot st)) !! meta_path (ic st) dataRoot = Some dm) /\
      (index_path (ic st) dataRoot <> ext_path (ic st) dataRoot ->
       index_path (ic st) dataRoot <> tag_path (ic st) dataRoot ->
       ext_path (ic st) dataRoot <> tag_path (ic st) dataRoot ->
       outputs_of_build w root dataRoot st st3 /\
       outputs_of_build w root dataRoot st (snd (Create w root dataRoot st)))).
Proof.
  intros Hi He Ht Hcheck.
  assert (Hrun : Create w root dataRoot st = rebuild w root dataRoot meta st)
    by (rewrite Create_run, Hcheck; reflexivity).
  pose proof (rebuild_traced w root dataRoot meta st) as Htr.
  pose proof (rebuild_trace_frame _ _ _ _ _ _ _ Htr Hi He Ht) as Hframe.
  rewrite <- Hrun in Htr, Hframe.
  split; [|split; [|split; [|split]]].
  - intros err st1 H1. split.
    + rewrite Hrun. unfold rebuild, bind. rewrite H1. reflexivity.
    + now apply (index_stage_frame _ _ _ _ _ _ _ H1).
  - intros err st1 st2 H1 H2.
    destruct (index_stage_frame _ _ _ _ _ _ _ H1 Hi) as [F1 C1].
    destruct (paths_same_config _ _ dataRoot C1) as (_ & P2 & _).
    split.
    + rewrite Hrun. unfold rebuild, bind. rewrite H1, H2. reflexivity.
    + destruct (ext_stage_frame _ _ _ _ _ (meta_path (ic st) dataRoot) H2) as [F2 _];
        congruence.
  - intros err st1 st2 st3 H1 H2 H3.
    destruct (index_stage_frame _ _ _ _ _ _ _ H1 Hi) as [F1 C1].
    destruct (paths_same_config _ _ dataRoot C1) as (_ & P2 & P3 & _).
    destruct (ext_stage_frame _ _ _ _ _ (meta_path (ic st) dataRoot) H2) as [F2 I2];
      [congruence|].
    split.
    + rewrite Hrun. unfold rebuild, bind. rewrite H1, H2, H3. reflexivity.
    + destruct (tag_stage_frame _ _ _ _ _ (meta_path (ic st) dataRoot) H3) as [F3 _];
        congruence.
  - intros Hchanged. destruct Hframe as [Hsame|(st1 & st2 & st3 & H1 & H2 & H3 & _ & Hres)];
      [contradiction|].
    exists st1, st2, st3. auto.
  - intros st1 st2 st3 H1 H2 H3.
    destruct (index_stage_frame _ _ _ _ _ _ _ H1 Hi) as [F1 C1].
    destruct (paths_same_config _ _ dataRoot C1) as (_ & P2 & P3 & P4).
    destruct (ext_stage_frame _ _ _ _ _ (meta_path (ic st) dataRoot) H2) as [F2 I2];
      [congruence|].
    destruct (tag_stage_frame _ _ _ _ _ (meta_path (ic st) dataRoot) H3) as [F3 I3];
      [congruence|].
    assert (Hlast : Create w root dataRoot st
                    = writeJsonFile w (meta_path (ic st) dataRoot)
                                    (json_Marshal_MetaData meta) st3).
    { rewrite Hrun. unfold rebuild, bind at 1. rewrite H1. unfold bind at 1. rewrite H2.
      unfold bind at 1. rewrite H3. unfold bind, get_ic. simpl.
      replace (path_Join dataRoot (MetaFile (Config (ic st3))))
        with (meta_path (ic st) dataRoot)
        by (unfold meta_path; rewrite I3, I2, C1; reflexivity).
      destruct (writeJsonFile_spec w (meta_path (ic st) dataRoot)
                  (json_Marshal_MetaData meta) st3) as (e4 & s4 & H4 & _).
      rewrite H4. destruct e4; reflexivity. }
    split; [congruence|]. split; [exact Hlast|]. split.
    + intros Hok. rewrite Hlast in Hok |- *.
      destruct (writeJsonFile_spec w (meta_path (ic st) dataRoot)
                  (json_Marshal_MetaData meta) st3) as (e4 & s4 & H4 & _ & _ & Hdone).
      rewrite H4 in Hok |- *. simpl in *. apply Hdone. congruence.
    + intros N12 N13 N23.
      pose proof (stages_outputs _ _ _ _ _ _ _ N12 N13 N23 H1 H2 H3) as Hout.
      split; [exact Hout|]. rewrite Hlast.
      destruct (writeJsonFile w (meta_path (ic st) dataRoot)
                  (json_Marshal_MetaData meta) st3) as [r st4] eqn:H4.
      exact (outputs_after_meta _ _ _ _ _ _ _ _ Hi He Ht Hout H4).
Qed.

(** C10, as the code has it.  When [os.Stat] of the source root fails,
    [Create] neither reports that error nor skips: it is the build itself,
    run with the metadata loaded at the start.  When it returns nil, the
    three outputs of a build over the tree are in place and the metadata
    file holds the encoding of exactly the loaded [last_update] and
    [create_time], not of fresh timestamps.  The loaded values are the zero
    values when the metadata file could not be read or is not valid JSON;
    for a file that is valid JSON they are what [json.Unmarshal] left in the
    zero-valued struct, also when it failed on a field. *)
Theorem Create_stat_failure_rebuilds w root dataRoot st :
  os_Stat w root = None ->
  let zero := {| LastUpdate := zeroTime; CreateTime := zeroTime |} in
  let loaded := loaded_meta w dataRoot st in
  Create w root dataRoot st = rebuild w root dataRoot loaded st /\
  (forall st', Create w root dataRoot st = (Some None, st') ->
     (exists data,
        json_Marshal_MetaData loaded = Ok data /\
        files st' !! meta_path (ic st) dataRoot = Some data) /\
     (NoDup [index_path (ic st) dataRoot; ext_path (ic st) dataRoot;
             tag_path (ic st) dataRoot; meta_path (ic st) dataRoot] ->
      outputs_of_build w root dataRoot st st')) /\
  (forall e, os_ReadFile w (meta_path (ic st) dataRoot) (files st) = Err e ->
     loaded = zero) /\
  (forall b, os_ReadFile w (meta_path (ic st) dataRoot) (files st) = Ok b ->
     loaded = fst (json_Unmarshal_MetaData b zero) /\
     (json_Valid b = false -> loaded = zero)).
Proof.
  intros Hstat zero loaded.
  assert (Hrun : Create w root dataRoot st = rebuild w root dataRoot loaded st).
  { rewrite Create_run. unfold check_mtime. rewrite Hstat. reflexivity. }
  split; [exact Hrun|]. split; [|split].
  - intros st' Hok. rewrite Hrun in Hok.
    apply rebuild_success in Hok
      as (st1 & st2 & st3 & data & H1 & H2 & H3 & H4 & Henc & Hfile & _).
    split; [eauto|]. intros Hdistinct.
    apply NoDup_cons in Hdistinct as [Hn1 Hd]. apply NoDup_cons in Hd as [Hn2 Hd].
    apply NoDup_cons in Hd as [Hn3 _].
    apply not_elem_of_cons in Hn1 as [N12 Hn1]. apply not_elem_of_cons in Hn1 as [N13 Hn1].
    apply not_elem_of_cons in Hn1 as [N14 _].
    apply not_elem_of_cons in Hn2 as [N23 Hn2]. apply not_elem_of_cons in Hn2 as [N24 _].
    apply not_elem_of_cons in Hn3 as [N34 _].
    eapply outputs_after_meta; [| | | |exact H4]; try congruence.
    exact (stages_outputs _ _ _ _ _ _ _ N12 N13 N23 H1 H2 H3).
  - intros e Hread. unfold loaded, loaded_meta. now rewrite Hread.
  - intros b Hread.
    assert (Hl : loaded = fst (json_Unmarshal_MetaData b zero))
      by (unfold loaded, loaded_meta; now rewrite Hread).
    split; [exact Hl|]. intros Hinv.
    destruct (json_Unmarshal_invalid b zero Hinv) as [e He].
    rewrite Hl, He. reflexivity.
Qed.

Lemma map_get_true (m : gmap string bool) (k : string) :
  map_get m k = true <-> m !! k = Some true.
Proof.
  unfold map_get. destruct (m !! k) as [[|]|]; simpl; split; congruence.
Qed.

(** C1, as the code has it.  In a build that returns nil, by a creator that
    [NewIndexCreator] made, used before or not, the index file holds the
    records of the files of the tree that the configuration does not
    exclude, so none for a file whose extension is in the ignore-extension
    set.  The persisted extension dictionary is the encoding of the
    creator's extension map: in it every configured ignore extension is
    present, marked [true]; every extension observed on a file that is not
    excluded, during this build, is present, marked [false]; and any other
    extension is there as it was before the build, which is marked [false]
    by an earlier build of the same creator, or not at all; a new creator
    has none of these. *)
Theorem Create_extension_dictionary w (cfg : ScanConfig) root dataRoot st st'
    (meta : MetaData) :
  creator_of cfg (ic st) ->
  index_path (ic st) dataRoot <> ext_path (ic st) dataRoot ->
  index_path (ic st) dataRoot <> tag_path (ic st) dataRoot ->
  index_path (ic st) dataRoot <> meta_path (ic st) dataRoot ->
  ext_path (ic st) dataRoot <> tag_path (ic st) dataRoot ->
  ext_path (ic st) dataRoot <> meta_path (ic st) dataRoot ->
  check_mtime w root (loaded_meta w dataRoot st) = Some meta ->
  Create w root dataRoot st = (Some None, st') ->
  exists reg content data,
    let recs := records_under (mark_all true (IgnoreName cfg) ∅)
                              (mark_all true (IgnoreExt cfg) ∅) reg
                              (filepath_Abs root) root (source_tree w root) in
    regexp_Compile (TagExpr cfg) = Ok reg /\
    index_content recs = Some content /\
    files st' !! index_path (ic st) dataRoot = Some content /\
    Forall (fun v => Ext v = getExt (Name v) /\ Ext v ∉ IgnoreExt cfg) recs /\
    json_Marshal_map (extMap (ic st')) = Ok data /\
    files st' !! ext_path (ic st) dataRoot = Some data /\
    (forall e, extMap (ic st') !! e =
               if decide (e ∈ IgnoreExt cfg) then Some true
               else if decide (e ∈ map Ext recs) then Some false
               else extMap (ic st) !! e) /\
    (forall e, e ∉ IgnoreExt cfg ->
               extMap (ic st) !! e = Some false \/ extMap (ic st) !! e = None) /\
    (ic st = NewIndexCreator cfg ->
     forall e, e ∉ IgnoreExt cfg -> extMap (ic st) !! e = None).
Proof.
  intros Hcreator Hie Hit Him Het Hem Hcheck Hrun.
  destruct (creator_of_marks _ _ Hcreator) as (Hcfg0 & Hign0 & Hext0).
  rewrite Create_run, Hcheck in Hrun.
  apply rebuild_success in Hrun
    as (st1 & st2 & st3 & mdata & H1 & H2 & H3 & H4 & _ & _ & Hic' & Hcfg).
  destruct (stages_outputs _ _ _ _ _ _ _ Hie Hit Het H1 H2 H3)
    as (reg & ci & de & dt & Hreg & Hext & _ & Hci & Hif & Hde & Hef & _).
  cbv zeta in *.
  rewrite Hign0, (records_under_same_marks _ _ _ _ _ _ Hext0) in Hext, Hci.
  set (recs := records_under (mark_all true (IgnoreName cfg) ∅)
                 (mark_all true (IgnoreExt cfg) ∅) reg (filepath_Abs root) root
                 (source_tree w root)) in *.
  destruct (writeJsonFile_spec w (meta_path (ic st) dataRoot)
              (json_Marshal_MetaData meta) st3) as (e4 & s4 & H4' & I4 & Hfr4 & _).
  rewrite H4 in H4'. inversion H4'; subst e4 s4.
  assert (HF : Forall (fun v => Ext v = getExt (Name v) /\ Ext v ∉ IgnoreExt cfg) recs).
  { eapply Forall_impl; [apply records_under_not_ignored|].
    simpl. intros v (_ & Hv & Hx & _). split; [exact Hx|]. now apply map_get_ignored. }
  assert (Hmarked : forall e, e ∈ IgnoreExt cfg -> extMap (ic st) !! e = Some true).
  { intros e Hin. apply map_get_true. rewrite Hext0. apply map_get_true.
    rewrite lookup_mark_all. now rewrite decide_True. }
  assert (Hseen : forall e, e ∉ IgnoreExt cfg ->
                            extMap (ic st) !! e = Some false \/ extMap (ic st) !! e = None).
  { intros e Hn. assert (Hf : map_get (extMap (ic st)) e = false).
    { rewrite Hext0. now apply map_get_ignored. }
    unfold map_get in Hf. destruct (extMap (ic st) !! e) as [[|]|]; simpl in Hf;
      [discriminate | now left | now right]. }
  exists reg, ci, de. cbv zeta. fold recs.
  split; [now rewrite <- Hcfg0|]. split; [exact Hci|]. split.
  { rewrite (Hfr4 _); [exact Hif | congruence]. }
  split; [exact HF|]. split; [now rewrite I4|]. split.
  { rewrite (Hfr4 _); [exact Hef | congruence]. }
  split; [|split; [exact Hseen|]].
  - intros e. rewrite I4, Hext, lookup_mark_all.
    destruct (decide (e ∈ IgnoreExt cfg)) as [Hin|Hn].
    + destruct (decide (e ∈ map Ext recs)) as [Hrec|_]; [|now apply Hmarked].
      exfalso. apply list_elem_of_fmap in Hrec as (v & -> & Hv).
      rewrite Forall_forall in HF. destruct (HF _ Hv) as [_ Hv']. contradiction.
    + destruct (decide (e ∈ map Ext recs)); reflexivity.
  - intros Hnew e Hn. rewrite Hnew. simpl. rewrite lookup_mark_all.
    now rewrite decide_False.
Qed.

End BuildClaims.

(** ** The stream *)

Section StreamFacts.
Context `{Stream.Codec} `{Stream.SeekLimit}.
Import Stream.

(** X7. Two reads in a row that succeed: the second record begins where the
    first read ended, after the first record and inside the file; the
    content of the stream never changes. *)
Theorem ScanNext_consecutive_offsets (j j1 j2 : JsonStream)
    (o1 o2 : Z) (v1 v2 : Scan.FileInfo) :
  ScanNext j = ((o1, Some v1, None), j1) ->
  ScanNext j1 = ((o2, Some v2, None), j2) ->
  o1 = r_cursor j /\ o2 = r_cursor j1 /\
  o1 < o2 < r_cursor j2 /\
  r_cursor j2 <= Z.of_nat (String.length (r_content j)) /\
  r_content j2 = r_content j.
Proof.
  unfold ScanNext. intros H1 H2.
  destruct (binary_Read (r_content j) (r_cursor j)) as [u1 p1|e1 p1] eqn:R1;
    [|discriminate].
  inversion H1; subst o1 v1 j1. clear H1. simpl in *.
  destruct (binary_Read (r_content j) p1) as [u2 p2|e2 p2] eqn:R2; [|discriminate].
  inversion H2; subst o2 v2 j2. clear H2. simpl.
  apply binary_Read_advances in R1, R2. repeat split; lia.
Qed.

(** X8. [Offset] refuses a negative offset, and an offset beyond the limit of
    the file system (and the end of the file), and leaves the stream where
    it was.  An offset from 0 up to that limit is taken as it is, also one
    beyond the end of the file, and the next [ScanNext] reports it as the
    offset of its read.  Whenever [Offset] returns nil, the cursor is at the
    offset. *)
Theorem Offset_then_ScanNext (j : JsonStream) (offset : Z) :
  (offset < 0 \/
   (max_offset < offset /\ Z.of_nat (String.length (r_content j)) < offset) ->
   exists e, Offset j offset = (Some e, j)) /\
  (0 <= offset <= max_offset ->
   exists j', Offset j offset = (None, j') /\
              r_content j' = r_content j /\
              fst (fst (fst (ScanNext j'))) = offset) /\
  (forall j', Offset j offset = (None, j') ->
              0 <= offset /\ r_cursor j' = offset /\ r_content j' = r_content j).
Proof.
  unfold Offset. split; [|split].
  - intros [Ho|[Hm Hl]].
    + rewrite (proj2 (Z.ltb_lt _ _) Ho). eauto.
    + destruct (offset <? 0); [eauto|].
      rewrite (proj2 (Z.ltb_lt _ _)) by lia. eauto.
  - intros Ho. rewrite (proj2 (Z.ltb_ge _ _)) by lia.
    rewrite (proj2 (Z.ltb_ge _ _)) by lia. eexists. split; [reflexivity|].
    split; [reflexivity|]. unfold ScanNext. simpl.
    destruct (binary_Read (r_content j) offset); reflexivity.
  - intros j'. destruct (Z.ltb_spec offset 0) as [Hneg|Hpos]; [discriminate|].
    destruct (_ <? offset); [discriminate|].
    intros Heq. inversion Heq; subst. auto.
Qed.

(** X6. With the empty filter and the sentinel limit, a search of a file that
    reads to its end lists every record of the file, each with its
    offset. *)
Theorem SearchFile_empty_filter_lists_all w (fs : Files) filename (offset : Z)
    content recs :
  os_ReadFile w filename fs = Ok content ->
  Search.records_from (S (String.length content)) content 0 = (recs, Some EOF) ->
  Search.SearchFile w fs filename
    {| Search.Name := ""; Search.Tag := ""; Search.Ext := ""; Search.Path := "" |}
    offset (-1)
  = Some (Ok (map (fun r => {| Search.Id := fst r; Search.info := snd r |}) recs)).
Proof.
  intros Hread Hrecs.
  destruct (SearchFile_spec w fs filename
              {| Search.Name := ""; Search.Tag := ""; Search.Ext := ""; Search.Path := "" |}
              offset (-1) content Hread) as (recs' & e' & Hrecs' & Hrun).
  rewrite Hrecs in Hrecs'. inversion Hrecs'; subst recs' e'.
  rewrite Hrun. unfold Search.loop_result, Search.at_end. simpl. do 2 f_equal.
  clear. induction recs as [|[off v] recs IH]; simpl; [reflexivity|].
  now rewrite IH.
Qed.

End StreamFacts.

(* ===================================================================== *)
(** * The further properties on concrete inputs *)
(* ===================================================================== *)

(** ** The search *)

Lemma SearchFile_entries_match_in_offset_order_witness :
  Search.SearchFile Ref.search_world Ref.search_files "data/index" Ref.by_ext_txt 0 (-1)
  = Some (Ok [Ref.hit_a; Ref.hit_b]) /\
  Forall (fun x => Search.isMatchSearch (Search.info x) Ref.by_ext_txt = true
                   /\ 0 <= Search.Id x) [Ref.hit_a; Ref.hit_b] /\
  StronglySorted Z.lt (map Search.Id [Ref.hit_a; Ref.hit_b]).
Proof.
  assert (Hrun : Search.SearchFile Ref.search_world Ref.search_files "data/index"
                   Ref.by_ext_txt 0 (-1) = Some (Ok [Ref.hit_a; Ref.hit_b]))
    by (vm_compute; reflexivity).
  split; [exact Hrun|].
  exact (SearchFile_entries_match_in_offset_order _ _ _ _ _ _ _ Hrun).
Defined.

Lemma SearchFile_id_reads_back_witness :
  exists j,
    Stream.Offset (Stream.NewJsonStream Ref.sample_index) 21 = (None, j) /\
    fst (Stream.ScanNext j) = (21, Some Ref.record_b, None).
Proof.
  assert (Hrun : Search.SearchFile Ref.search_world Ref.search_files "data/index"
                   Ref.by_ext_txt 0 (-1) = Some (Ok [Ref.hit_a; Ref.hit_b]))
    by (vm_compute; reflexivity).
  assert (Hread : os_ReadFile Ref.search_world "data/index" Ref.search_files
                  = Ok Ref.sample_index) by (vm_compute; reflexivity).
  assert (Hin : Ref.hit_b ∈ [Ref.hit_a; Ref.hit_b]) by (right; left).
  exact (SearchFile_id_reads_back _ _ _ _ _ _ _ _ _ Hrun Hread Hin).
Defined.

Lemma SearchFile_result_length_witness :
  Search.SearchFile Ref.search_world Ref.search_files "data/index" Ref.by_ext_txt 0 1
  = Some (Ok [Ref.hit_a]) /\
  Z.of_nat (length [Ref.hit_a]) <= Z.max 1 1.
Proof.
  assert (Hrun : Search.SearchFile Ref.search_world Ref.search_files "data/index"
                   Ref.by_ext_txt 0 1 = Some (Ok [Ref.hit_a]))
    by (vm_compute; reflexivity).
  split; [exact Hrun|].
  refine (SearchFile_result_length _ _ _ _ _ _ _ Hrun _). discriminate.
Defined.

(** The broken index: the third read fails.  With the limit 5 the search
    fails with that error; with the limit 2 the two records before it fill
    the limit and the search succeeds. *)
Lemma SearchFile_errors_witness :
  Search.SearchFile Ref.search_world Ref.search_files "data/broken" Ref.by_ext_txt 0 5
  = Some (Err (SyntaxError "malformed record")) /\
  Search.SearchFile Ref.search_world Ref.search_files "data/broken" Ref.by_ext_txt 0 2
  = Some (Ok [Ref.hit_a; Ref.hit_b]) /\
  Search.SearchFile Ref.search_world Ref.search_files "data/none" Ref.by_ext_txt 0 2
  = Some (Err (PathError "open" "data/none")).
Proof.
  assert (Hread : os_ReadFile Ref.search_world "data/broken" Ref.search_files
                  = Ok Ref.broken_index) by (vm_compute; reflexivity).
  assert (Hrecs : Search.records_from (S (String.length Ref.broken_index))
                    Ref.broken_index 0
                  = ([(0, Ref.record_a); (21, Ref.record_b)],
                     Some (SyntaxError "malformed record")))
    by (vm_compute; reflexivity).
  split; [|split].
  - refine (proj1 (proj2 (SearchFile_errors Ref.search_world Ref.search_files
                            "data/broken" Ref.by_ext_txt 0 5)
                     _ _ _ Hread Hrecs eq_refl) _).
    right. vm_compute. lia.
  - refine (proj2 (proj2 (SearchFile_errors Ref.search_world Ref.search_files
                            "data/broken" Ref.by_ext_txt 0 2)
                     _ _ _ Hread Hrecs eq_refl) _ _).
    + discriminate.
    + vm_compute. lia.
  - refine (proj1 (SearchFile_errors Ref.search_world Ref.search_files
                     "data/none" Ref.by_ext_txt 0 2) _ _).
    vm_compute. reflexivity.
Defined.

Lemma SearchFile_first_matches_witness :
  exists recs e,
    Search.records_from (S (String.length Ref.sample_index)) Ref.sample_index 0
    = (recs, Some e) /\
    (1 <= 1 ->
     Search.SearchFile Ref.search_world Ref.search_files "data/index" Ref.by_ext_txt 0 1
     = Some (if (Z.to_nat 1 <=? length (Search.matching Ref.by_ext_txt recs))%nat
             then Ok (firstn (Z.to_nat 1) (Search.matching Ref.by_ext_txt recs))
             else Search.at_end e (Search.matching Ref.by_ext_txt recs))) /\
    (1 = -1 ->
     Search.SearchFile Ref.search_world Ref.search_files "data/index" Ref.by_ext_txt 0 1
     = Some (Search.at_end e (Search.matching Ref.by_ext_txt recs))).
Proof.
  refine (SearchFile_first_matches Ref.search_world Ref.search_files "data/index"
            Ref.by_ext_txt 0 1 Ref.sample_index _).
  vm_compute. reflexivity.
Defined.

Lemma SearchFile_empty_filter_lists_all_witness :
  Search.SearchFile Ref.search_world Ref.search_files "data/index"
    {| Search.Name := ""; Search.Tag := ""; Search.Ext := ""; Search.Path := "" |} 7 (-1)
  = Some (Ok (map (fun r => {| Search.Id := fst r; Search.info := snd r |})
                  [(0, Ref.record_a); (21, Ref.record_b)])).
Proof.
  refine (SearchFile_empty_filter_lists_all Ref.search_world Ref.search_files
            "data/index" 7 Ref.sample_index _ _ _).
  - vm_compute. reflexivity.
  - vm_compute. reflexivity.
Defined.

Lemma ScanNext_consecutive_offsets_witness :
  let j := Stream.NewJsonStream Ref.sample_index in
  let j1 := {| Stream.r_content := Ref.sample_index; Stream.r_cursor := 21 |} in
  let j2 := {| Stream.r_content := Ref.sample_index; Stream.r_cursor := 42 |} in
  0 = Stream.r_cursor j /\ 21 = Stream.r_cursor j1 /\
  0 < 21 < Stream.r_cursor j2 /\
  Stream.r_cursor j2 <= Z.of_nat (String.length (Stream.r_content j)) /\
  Stream.r_content j2 = Stream.r_content j.
Proof.
  intros j j1 j2.
  refine (ScanNext_consecutive_offsets j j1 j2 0 21 Ref.record_a Ref.record_b _ _).
  - vm_compute. reflexivity.
  - vm_compute. reflexivity.
Defined.

(** ** The stream and the records *)

(** On ext4: a negative offset and the offset 2^44 are refused; the offset
    1000, beyond the end of the sample index, is taken. *)
Lemma Offset_then_ScanNext_witness :
  let j := Stream.NewJsonStream Ref.sample_index in
  (exists e, Stream.Offset j (-1) = (Some e, j)) /\
  (exists e, Stream.Offset j (2 ^ 44) = (Some e, j)) /\
  (exists j', Stream.Offset j 1000 = (None, j') /\
              Stream.r_content j' = Stream.r_content j /\
              fst (fst (fst (Stream.ScanNext j'))) = 1000).
Proof.
  intros j. split; [|split].
  - refine (proj1 (Offset_then_ScanNext j (-1)) _). left. lia.
  - refine (proj1 (Offset_then_ScanNext j (2 ^ 44)) _). right.
    split; vm_compute; reflexivity.
  - refine (proj1 (proj2 (Offset_then_ScanNext j 1000)) _).
    split; vm_compute; discriminate.
Defined.

Lemma record_path_after_abs_root_witness :
  Scan.Path (Scan.record_of (Ref.MustCompile "\[(\w+)\]") "/abs/src"
               "/abs/src\docs\x[cat].txt" "x[cat].txt")
  = Scan.normalizePath "\docs\x[cat].txt" /\
  Scan.Path (Scan.record_of (Ref.MustCompile "\[(\w+)\]") "/abs/src"
               "src/docs/x[cat].txt" "x[cat].txt")
  = Scan.normalizePath "src/docs/x[cat].txt".
Proof.
  split.
  - refine (proj1 (record_path_after_abs_root (Ref.MustCompile "\[(\w+)\]") "/abs/src"
                     "/abs/src\docs\x[cat].txt" "x[cat].txt") _ _).
    reflexivity.
  - refine (proj1 (proj2 (record_path_after_abs_root (Ref.MustCompile "\[(\w+)\]")
                            "/abs/src" "src/docs/x[cat].txt" "x[cat].txt")) _).
    intros rel Heq. vm_compute in Heq. discriminate Heq.
Defined.

(** ** The creator *)

(** The three outcomes of [writeJsonFile] on a file that held [old]: a file
    that cannot be opened, a value that cannot be encoded, and a write that
    goes through. *)
Lemma writeJsonFile_outcomes_witness :
  let st := Ref.sample_state {[ "data/ext" := "old" ]} in
  Scan.writeJsonFile (Ref.sample_world None (Bad "src") ["data/ext"]) "data/ext"
    (Ok "new") st
  = (Some (Some (PathError "open" "data/ext")), st) /\
  Scan.writeJsonFile (Ref.sample_world None (Bad "src") []) "data/ext"
    (Err (SyntaxError "unsupported value")) st
  = (Some (Some (SyntaxError "unsupported value")),
     {| Scan.ic := Scan.ic st; Scan.files := <["data/ext" := ""]> (Scan.files st) |}) /\
  Scan.writeJsonFile (Ref.sample_world None (Bad "src") []) "data/ext" (Ok "new") st
  = (Some None,
     {| Scan.ic := Scan.ic st; Scan.files := <["data/ext" := "new"]> (Scan.files st) |}).
Proof.
  intros st. split; [|split].
  - refine (proj1 (writeJsonFile_outcomes
                     (Ref.sample_world None (Bad "src") ["data/ext"]) "data/ext"
                     (Ok "new") st) _).
    reflexivity.
  - refine (proj1 (proj2 (writeJsonFile_outcomes
                            (Ref.sample_world None (Bad "src") []) "data/ext"
                            (Err (SyntaxError "unsupported value")) st))
              _ _ eq_refl).
    reflexivity.
  - refine (proj2 (proj2 (writeJsonFile_outcomes
                            (Ref.sample_world None (Bad "src") []) "data/ext"
                            (Ok "new") st))
              _ _ eq_refl _); reflexivity.
Defined.

(** The pattern [(] does not compile: [Create] panics and the data files
    are as they were. *)
Lemma Create_fatal_before_any_write_witness :
  let w := Ref.sample_world (Some 1700000000) Ref.sample_tree [] in
  let st := {| Scan.ic := Scan.NewIndexCreator Ref.bad_pattern_config;
               Scan.files := {[ "data/index" := "old" ]} |} in
  Scan.Create w "src" "data" st = (None, st).
Proof.
  intros w st.
  refine (Create_fatal_before_any_write w "src" "data" st
            {| Scan.LastUpdate := time_Unix 1700000000; Scan.CreateTime := time_Unix 1700000100 |} _ _).
  - vm_compute. reflexivity.
  - left. eexists. vm_compute. reflexivity.
Defined.

(** The metadata file holds an older modification time than the source
    root has. *)
Lemma Create_persists_observed_mtime_witness :
  let w := Ref.sample_world (Some 1700000000) Ref.sample_tree [] in
  let st := Ref.sample_state {[ "data/meta" := "1600000000@8 1600000100@8" ]} in
  let meta := {| Scan.LastUpdate := time_Unix 1700000000;
                 Scan.CreateTime := time_Unix (time_Now w) |} in
  Scan.Create w "src" "data" st = Scan.rebuild w "src" "data" meta st /\
  (forall st', Scan.Create w "src" "data" st = (Some None, st') ->
     exists data,
       Scan.json_Marshal_MetaData meta = Ok data /\
       Scan.files st' !! Scan.meta_path (Scan.ic st) "data" = Some data).
Proof.
  intros w st.
  refine (Create_persists_observed_mtime w "src" "data" st 1700000000 _ _).
  - reflexivity.
  - vm_compute. discriminate.
Defined.

(** A first build over no data files, then a second call. *)
Lemma Create_second_call_skips_witness :
  let w := Ref.sample_world (Some 1700000000) Ref.sample_tree [] in
  let st := Ref.sample_state ∅ in
  exists st1,
    Scan.Create w "src" "data" st = (Some None, st1) /\
    Scan.Create w "src" "data" st1 = (Some None, st1).
Proof.
  intros w st.
  set (st1 := snd (Scan.Create w "src" "data" st)).
  assert (Hrun : Scan.Create w "src" "data" st = (Some None, st1))
    by (vm_compute; reflexivity).
  clearbody st1. exists st1. split; [exact Hrun|].
  refine (Create_second_call_skips w w "src" "data" st st1 1700000000 _ _ _ _ _ Hrun).
  - reflexivity.
  - reflexivity.
  - reflexivity.
  - reflexivity.
  - intros data Hdata. vm_compute in Hdata. inversion Hdata. vm_compute. reflexivity.
Defined.

(** ** The build *)

Lemma createIndexFile_writes_records_of_tree_witness :
  let w := Ref.sample_world (Some 1700000000) Ref.sample_tree [] in
  let st := Ref.sample_state ∅ in
  exists st',
    Scan.createIndexFile w "src" "data" st = (Some None, st') /\
    exists reg content,
      let recs := Scan.records_under (Scan.ignoreNameMap (Scan.ic st))
                    (Scan.extMap (Scan.ic st)) reg
                    (Scan.filepath_Abs "src") "src" (source_tree w "src") in
      Scan.regexp_Compile (Scan.TagExpr (Scan.Config (Scan.ic st))) = Ok reg /\
      Scan.index_content recs = Some content /\
      Scan.files st' !! Scan.index_path (Scan.ic st) "data" = Some content /\
      Scan.extMap (Scan.ic st')
      = Scan.mark_all false (map Scan.Ext recs) (Scan.extMap (Scan.ic st)) /\
      Scan.tagMap (Scan.ic st')
      = Scan.mark_all true (concat (map Scan.Tags recs)) (Scan.tagMap (Scan.ic st)).
Proof.
  intros w st.
  set (st' := snd (Scan.createIndexFile w "src" "data" st)).
  assert (Hrun : Scan.createIndexFile w "src" "data" st = (Some None, st'))
    by (vm_compute; reflexivity).
  clearbody st'. exists st'. split; [exact Hrun|].
  exact (createIndexFile_writes_records_of_tree w "src" "data" st st' Hrun).
Defined.

(** The sample tree has an entry that cannot be statted; with a directory
    that cannot be listed beside it the index is built all the same. *)
Lemma createIndexFile_succeeds_witness :
  let tree := Dir "src" true [Bad "gone"; Dir "locked" false [File "in.txt"];
                              File "x[cat].txt"] in
  let w := Ref.sample_world (Some 1700000000) tree [] in
  fst (Scan.createIndexFile w "src" "data" (Ref.sample_state ∅)) = Some None.
Proof.
  intros tree w.
  refine (createIndexFile_succeeds w "src" "data" (Ref.sample_state ∅)
            (Ref.MustCompile "\[(\w+)\]") _ _ _ _ _ _).
  - vm_compute. reflexivity.
  - vm_compute. constructor.
  - reflexivity.
  - reflexivity.
  - intros cur data. reflexivity.
  - intros v. eexists. reflexivity.
Defined.

(** A build in a run whose [range] yields the tags in the reverse order:
    the tag dictionary holds [2024,cat]. *)
Lemma Create_writes_four_outputs_witness :
  let w := Ref.reversed_world (Ref.sample_world (Some 1700000000) Ref.sample_tree []) in
  let st := Ref.sample_state {[ "data/notes" := "kept" ]} in
  let meta := {| Scan.LastUpdate := time_Unix 1700000000;
                 Scan.CreateTime := time_Unix 1700000100 |} in
  exists st',
    Scan.Create w "src" "data" st = (Some None, st') /\
    Scan.files st' !! "data/tags" = Some "2024,cat" /\
    exists reg ci de tags dt dm,
      let recs := Scan.records_under (Scan.ignoreNameMap (Scan.ic st))
                    (Scan.extMap (Scan.ic st)) reg
                    (Scan.filepath_Abs "src") "src" (source_tree w "src") in
      Scan.regexp_Compile (Scan.TagExpr (Scan.Config (Scan.ic st))) = Ok reg /\
      Scan.extMap (Scan.ic st')
      = Scan.mark_all false (map Scan.Ext recs) (Scan.extMap (Scan.ic st)) /\
      Scan.tagMap (Scan.ic st')
      = Scan.mark_all true (concat (map Scan.Tags recs)) (Scan.tagMap (Scan.ic st)) /\
      Scan.index_content recs = Some ci /\
      Scan.files st' !! Scan.index_path (Scan.ic st) "data" = Some ci /\
      Scan.json_Marshal_map (Scan.extMap (Scan.ic st')) = Ok de /\
      Scan.files st' !! Scan.ext_path (Scan.ic st) "data" = Some de /\
      NoDup tags /\
      (forall t, t ∈ tags <-> is_Some (Scan.tagMap (Scan.ic st') !! t)) /\
      Scan.json_Marshal_strings tags = Ok dt /\
      Scan.files st' !! Scan.tag_path (Scan.ic st) "data" = Some dt /\
      Scan.json_Marshal_MetaData meta = Ok dm /\
      Scan.files st' !! Scan.meta_path (Scan.ic st) "data" = Some dm /\
      forall g, g ∉ [Scan.index_path (Scan.ic st) "data"; Scan.ext_path (Scan.ic st) "data";
                     Scan.tag_path (Scan.ic st) "data"; Scan.meta_path (Scan.ic st) "data"] ->
                Scan.files st' !! g = Scan.files st !! g.
Proof.
  intros w st meta.
  set (st' := snd (Scan.Create w "src" "data" st)).
  assert (Hrun : Scan.Create w "src" "data" st = (Some None, st'))
    by (vm_compute; reflexivity).
  assert (Htags : Scan.files st' !! "data/tags" = Some "2024,cat")
    by (vm_compute; reflexivity).
  clearbody st'. exists st'. split; [exact Hrun|]. split; [exact Htags|].
  refine (Create_writes_four_outputs w "src" "data" st st' meta _ _ Hrun).
  - apply (bool_decide_unpack _). vm_compute. exact I.
  - vm_compute. reflexivity.
Defined.

Lemma InitIndex_tag_dictionary_witness :
  let w := Ref.sample_world (Some 1700000000) Ref.sample_tree [] in
  let sc := Ref.sample_config in
  exists st',
    Scan.InitIndex w Ref.sample_root_config ∅ = (Some None, st') /\
    exists reg tags data,
      let recs := Scan.records_under (Scan.mark_all true (Scan.IgnoreName sc) ∅)
                    (Scan.mark_all true (Scan.IgnoreExt sc) ∅) reg
                    (Scan.filepath_Abs "src") "src" (source_tree w "src") in
      Scan.regexp_Compile (Scan.TagExpr sc) = Ok reg /\
      Scan.json_Marshal_strings tags = Ok data /\
      Scan.files st' !! "data/tags" = Some data /\
      NoDup tags /\
      forall t, t ∈ tags <-> exists v, v ∈ recs /\ t ∈ Scan.Tags v.
Proof.
  intros w sc.
  set (st' := snd (Scan.InitIndex w Ref.sample_root_config ∅)).
  assert (Hrun : Scan.InitIndex w Ref.sample_root_config ∅ = (Some None, st'))
    by (vm_compute; reflexivity).
  clearbody st'. exists st'. split; [exact Hrun|].
  refine (InitIndex_tag_dictionary w Ref.sample_root_config ∅ st'
            {| Scan.LastUpdate := time_Unix 1700000000; Scan.CreateTime := time_Unix 1700000100 |}
            _ _ Hrun).
  - vm_compute. discriminate.
  - vm_compute. reflexivity.
Defined.

(** The sample tree holds [a.tmp], [B.TMP] and the directory [.git]; none
    of them gives a record. *)
Lemma createIndexFile_leaves_out_ignored_witness :
  let w := Ref.sample_world (Some 1700000000) Ref.sample_tree [] in
  let st := Ref.sample_state ∅ in
  exists st',
    Scan.createIndexFile w "src" "data" st = (Some None, st') /\
    exists recs content,
      Scan.index_content recs = Some content /\
      Scan.files st' !! Scan.index_path (Scan.ic st) "data" = Some content /\
      Forall (fun v => Scan.map_get (Scan.ignoreNameMap (Scan.ic st)) (Scan.Name v) = false /\
                       Scan.map_get (Scan.extMap (Scan.ic st)) (Scan.Ext v) = false /\
                       Scan.Ext v = Scan.getExt (Scan.Name v) /\
                       GoStrings.has_no "\" (Scan.Path v) = true) recs.
Proof.
  intros w st.
  set (st' := snd (Scan.createIndexFile w "src" "data" st)).
  assert (Hrun : Scan.createIndexFile w "src" "data" st = (Some None, st'))
    by (vm_compute; reflexivity).
  clearbody st'. exists st'. split; [exact Hrun|].
  exact (createIndexFile_leaves_out_ignored w "src" "data" st st' Hrun).
Defined.

(** Two builds of the index in a row over the sample tree. *)
Lemma createIndexFile_again_same_index_witness :
  let w := Ref.sample_world (Some 1700000000) Ref.sample_tree [] in
  let st := Ref.sample_state ∅ in
  exists st1 st2,
    Scan.createIndexFile w "src" "data" st = (Some None, st1) /\
    Scan.createIndexFile w "src" "data" st1 = (Some None, st2) /\
    Scan.files st2 !! Scan.index_path (Scan.ic st) "data"
    = Scan.files st1 !! Scan.index_path (Scan.ic st) "data" /\
    Scan.extMap (Scan.ic st2) = Scan.extMap (Scan.ic st1) /\
    Scan.tagMap (Scan.ic st2) = Scan.tagMap (Scan.ic st1).
Proof.
  intros w st.
  set (st1 := snd (Scan.createIndexFile w "src" "data" st)).
  set (st2 := snd (Scan.createIndexFile w "src" "data" st1)).
  assert (Hrun1 : Scan.createIndexFile w "src" "data" st = (Some None, st1))
    by (vm_compute; reflexivity).
  assert (Hrun2 : Scan.createIndexFile w "src" "data" st1 = (Some None, st2))
    by (vm_compute; reflexivity).
  clearbody st2. clearbody st1. exists st1, st2.
  split; [exact Hrun1|]. split; [exact Hrun2|].
  exact (createIndexFile_again_same_index w w "src" "data" st st1 st2 eq_refl Hrun1 Hrun2).
Defined.

(* ===================================================================== *)
(** * The claims about [Create] on concrete inputs *)
(* ===================================================================== *)

(** *** C2 *)

(** C2, at the input where the code departs from it.  A first call builds
    and persists the modification time of the source root as [last_update];
    a second call, a hundred ticks later, finds the source root with the
    same modification time.

    On a machine eight hours east of Greenwich the persisted time is written
    with the local offset and read back in [time.Local]: it is [==] the
    modification time, and the second call returns nil and leaves the state
    as it is.

    On a machine whose local zone is UTC the persisted time is written with
    [Z] and read back in UTC, while the modification time is in
    [time.Local]: the two show the same instant and are not [==].  The
    second call builds again and writes the metadata file anew, with a fresh
    [create_time], where the modification time had not changed. *)
Theorem Create_rebuilds_on_utc_host :
  let w := Ref.sample_world (Some 1700000000) Ref.sample_tree [] in
  let w2 := Ref.later_world w in
  let st := Ref.sample_state ∅ in
  let east1 := snd (@Scan.Create _ RefRuntime w "src" "data" st) in
  let utc1 := snd (@Scan.Create _ UtcRuntime w "src" "data" st) in
  let utc2 := snd (@Scan.Create _ UtcRuntime w2 "src" "data" utc1) in
  os_Stat w "src" = Some 1700000000 /\ os_Stat w2 "src" = Some 1700000000 /\
  (fst (@Scan.Create _ RefRuntime w "src" "data" st) = Some None /\
   Scan.files east1 !! "data/meta" = Some "1700000000@8 1700000100@8" /\
   @Scan.Create _ RefRuntime w2 "src" "data" east1 = (Some None, east1)) /\
  (fst (@Scan.Create _ UtcRuntime w "src" "data" st) = Some None /\
   Scan.files utc1 !! "data/meta" = Some "1700000000@Z 1700000100@Z" /\
   Scan.LastUpdate (@Scan.loaded_meta _ UtcRuntime w2 "data" utc1)
   = {| instant := 1700000000; loc := UTC |} /\
   Time_eqb (time_Unix 1700000000)
            (Scan.LastUpdate (@Scan.loaded_meta _ UtcRuntime w2 "data" utc1)) = false /\
   fst (@Scan.Create _ UtcRuntime w2 "src" "data" utc1) = Some None /\
   Scan.files utc2 !! "data/meta" = Some "1700000000@Z 1700000200@Z" /\
   Scan.files utc2 !! "data/meta" <> Scan.files utc1 !! "data/meta").
Proof. vm_compute. repeat split; try reflexivity; discriminate. Qed.

(** *** C7 *)

(** The extension dictionary cannot be opened: [Create] returns that error
    after the index file was written, and the metadata file still holds
    what it held.  With nothing in the way, the three outputs are in place
    before the metadata file changes, and afterwards the metadata file
    holds the encoding of the metadata of the build. *)
Lemma Create_writes_metadata_last_witness :
  let meta := {| Scan.LastUpdate := time_Unix 1700000000;
                 Scan.CreateTime := time_Unix 1700000100 |} in
  let st := Ref.sample_state {[ "data/meta" := "5@8 7@8" ]} in
  (let w := Ref.sample_world (Some 1700000000) Ref.sample_tree ["data/ext"] in
   let st1 := snd (Scan.createIndexFile w "src" "data" st) in
   let st2 := snd (Scan.createExtListFile w "data" st1) in
   Scan.Create w "src" "data" st = (Some (Some (PathError "open" "data/ext")), st2) /\
   Scan.files st2 !! Scan.meta_path (Scan.ic st) "data"
   = Scan.files st !! Scan.meta_path (Scan.ic st) "data") /\
  (let w := Ref.sample_world (Some 1700000000) Ref.sample_tree [] in
   exists st3,
     Scan.files st3 !! Scan.meta_path (Scan.ic st) "data"
     = Scan.files st !! Scan.meta_path (Scan.ic st) "data" /\
     Scan.Create w "src" "data" st
     = Scan.writeJsonFile w (Scan.meta_path (Scan.ic st) "data")
                          (Scan.json_Marshal_MetaData meta) st3 /\
     (exists dm,
        Scan.json_Marshal_MetaData meta = Ok dm /\
        Scan.files (snd (Scan.Create w "src" "data" st))
          !! Scan.meta_path (Scan.ic st) "data" = Some dm) /\
     Scan.outputs_of_build w "src" "data" st st3 /\
     Scan.outputs_of_build w "src" "data" st (snd (Scan.Create w "src" "data" st))).
Proof.
  intros meta st. split.
  - intros w st1 st2.
    pose proof (Create_writes_metadata_last w "src" "data" st meta) as Hlast.
    destruct Hlast as (_ & Hext & _).
    + vm_compute. discriminate.
    + vm_compute. discriminate.
    + vm_compute. discriminate.
    + vm_compute. reflexivity.
    + apply (Hext (PathError "open" "data/ext") st1 st2).
      * vm_compute. reflexivity.
      * vm_compute. reflexivity.
  - intros w.
    set (st1 := snd (Scan.createIndexFile w "src" "data" st)).
    set (st2 := snd (Scan.createExtListFile w "data" st1)).
    set (st3 := snd (Scan.createTagListFile w "data" st2)).
    assert (H1 : Scan.createIndexFile w "src" "data" st = (Some None, st1))
      by (vm_compute; reflexivity).
    assert (H2 : Scan.createExtListFile w "data" st1 = (Some None, st2))
      by (vm_compute; reflexivity).
    assert (H3 : Scan.createTagListFile w "data" st2 = (Some None, st3))
      by (vm_compute; reflexivity).
    assert (Hok : fst (Scan.Create w "src" "data" st) = Some None)
      by (vm_compute; reflexivity).
    clearbody st3. clearbody st2. clearbody st1.
    pose proof (Create_writes_metadata_last w "src" "data" st meta) as Hlast.
    destruct Hlast as (_ & _ & _ & _ & Hmeta).
    + vm_compute. discriminate.
    + vm_compute. discriminate.
    + vm_compute. discriminate.
    + vm_compute. reflexivity.
    + destruct (Hmeta st1 st2 st3 H1 H2 H3) as (Hold & Hrun & Hdone & Hout).
      exists st3. split; [exact Hold|]. split; [exact Hrun|].
      split; [exact (Hdone Hok)|].
      apply Hout; vm_compute; discriminate.
Defined.

(** *** C10 *)

(** The claim as stated has the persisted values zero when the metadata
    file is corrupt.  Here the source root cannot be statted and the second
    field of the metadata file does not decode: the file is well-formed,
    decoding it fails, the first field is loaded all the same, and it is
    what the build persists. *)
Lemma Create_stat_failure_rebuilds_counterexample :
  let w := Ref.sample_world None (Bad "src") [] in
  let st := Ref.sample_state {[ "data/meta" := "1700000000@8 yesterday" ]} in
  let zero := {| Scan.LastUpdate := zeroTime; Scan.CreateTime := zeroTime |} in
  os_Stat w "src" = None /\
  Scan.json_Valid "1700000000@8 yesterday" = true /\
  snd (Scan.json_Unmarshal_MetaData "1700000000@8 yesterday" zero)
  = Some (SyntaxError "invalid timestamp") /\
  Scan.loaded_meta w "data" st
  = {| Scan.LastUpdate := time_Unix 1700000000; Scan.CreateTime := zeroTime |} /\
  Scan.loaded_meta w "data" st <> zero /\
  fst (Scan.Create w "src" "data" st) = Some None /\
  Scan.files (snd (Scan.Create w "src" "data" st)) !! "data/meta"
  = Some "1700000000@8 0@Z".
Proof. vm_compute. repeat split; try reflexivity; discriminate. Qed.

(** The source root cannot be statted and there is no metadata file: the
    build runs and persists the zero-valued metadata. *)
Lemma Create_stat_failure_rebuilds_witness :
  let w := Ref.sample_world None (Bad "src") [] in
  let st := Ref.sample_state ∅ in
  let zero := {| Scan.LastUpdate := zeroTime; Scan.CreateTime := zeroTime |} in
  exists st',
    Scan.Create w "src" "data" st = (Some None, st') /\
    Scan.Create w "src" "data" st
    = Scan.rebuild w "src" "data" (Scan.loaded_meta w "data" st) st /\
    Scan.loaded_meta w "data" st = zero /\
    (exists data,
       Scan.json_Marshal_MetaData (Scan.loaded_meta w "data" st) = Ok data /\
       Scan.files st' !! Scan.meta_path (Scan.ic st) "data" = Some data) /\
    Scan.outputs_of_build w "src" "data" st st' /\
    Scan.files st' !! "data/meta" = Some "0@Z 0@Z".
Proof.
  intros w st zero.
  set (st' := snd (Scan.Create w "src" "data" st)).
  assert (Hrun : Scan.Create w "src" "data" st = (Some None, st'))
    by (vm_compute; reflexivity).
  assert (Hfile : Scan.files st' !! "data/meta" = Some "0@Z 0@Z")
    by (vm_compute; reflexivity).
  clearbody st'. exists st'.
  destruct (Create_stat_failure_rebuilds w "src" "data" st eq_refl)
    as (Hreb & Hok & Hzero & _).
  destruct (Hok st' Hrun) as [Hmeta Hout].
  split; [exact Hrun|]. split; [exact Hreb|]. split.
  { apply (Hzero (PathError "open" "data/meta")). vm_compute. reflexivity. }
  split; [exact Hmeta|]. split; [|exact Hfile].
  apply Hout. apply (bool_decide_unpack _). vm_compute. exact I.
Defined.

(** *** C1 *)

(** The claim as stated keeps an ignored extension out of the persisted
    dictionary and has the dictionary hold the extensions of the current
    build only.  Here [tmp] is configured as ignored, the files [a.tmp] and
    [B.TMP] produce no record, and the dictionary file written by the build
    has the entry [tmp=true].  A second build by the same creator, over a
    tree that holds the one file [readme.md], writes a dictionary that
    still has [jpg], [bashrc] and [txt], seen in the first build. *)
Lemma Create_extension_dictionary_counterexample :
  let w := Ref.sample_world (Some 1700000000) Ref.sample_tree [] in
  let st1 := snd (Scan.Create w "src" "data" (Ref.sample_state ∅)) in
  let w2 := Ref.sample_world (Some 1800000000) (Dir "src" true [File "readme.md"]) [] in
  let st2 := snd (Scan.Create w2 "src" "data" st1) in
  fst (Scan.Create w "src" "data" (Ref.sample_state ∅)) = Some None /\
  "tmp" ∈ Scan.IgnoreExt Ref.sample_config /\
  Scan.extMap (Scan.ic st1) !! "tmp" = Some true /\
  Scan.files st1 !! "data/ext" = Some "jpg=false;bashrc=false;tmp=true;txt=false" /\
  ~ (forall e, e ∈ Scan.IgnoreExt Ref.sample_config ->
               Scan.extMap (Scan.ic st1) !! e = None) /\
  fst (Scan.Create w2 "src" "data" st1) = Some None /\
  Scan.files st2 !! "data/ext"
  = Some "md=false;jpg=false;bashrc=false;tmp=true;txt=false".
Proof.
  intros w st1 w2 st2.
  assert (Htmp : Scan.extMap (Scan.ic st1) !! "tmp" = Some true) by (vm_compute; reflexivity).
  split; [vm_compute; reflexivity|].
  split; [now left|].
  split; [exact Htmp|].
  split; [vm_compute; reflexivity|].
  split.
  { intros Hnone. specialize (Hnone "tmp" ltac:(now left)). congruence. }
  split; vm_compute; reflexivity.
Qed.

(** The first build of a new creator over the sample tree. *)
Lemma Create_extension_dictionary_witness :
  let w := Ref.sample_world (Some 1700000000) Ref.sample_tree [] in
  let st := Ref.sample_state ∅ in
  let cfg := Ref.sample_config in
  exists st',
    Scan.Create w "src" "data" st = (Some None, st') /\
    exists reg content data,
      let recs := Scan.records_under (Scan.mark_all true (Scan.IgnoreName cfg) ∅)
                    (Scan.mark_all true (Scan.IgnoreExt cfg) ∅) reg
                    (Scan.filepath_Abs "src") "src" (source_tree w "src") in
      Scan.regexp_Compile (Scan.TagExpr cfg) = Ok reg /\
      Scan.index_content recs = Some content /\
      Scan.files st' !! Scan.index_path (Scan.ic st) "data" = Some content /\
      Forall (fun v => Scan.Ext v = Scan.getExt (Scan.Name v)
                       /\ Scan.Ext v ∉ Scan.IgnoreExt cfg) recs /\
      Scan.json_Marshal_map (Scan.extMap (Scan.ic st')) = Ok data /\
      Scan.files st' !! Scan.ext_path (Scan.ic st) "data" = Some data /\
      (forall e, Scan.extMap (Scan.ic st') !! e =
                 if decide (e ∈ Scan.IgnoreExt cfg) then Some true
                 else if decide (e ∈ map Scan.Ext recs) then Some false
                 else Scan.extMap (Scan.ic st) !! e) /\
      (forall e, e ∉ Scan.IgnoreExt cfg ->
                 Scan.extMap (Scan.ic st) !! e = Some false \/
                 Scan.extMap (Scan.ic st) !! e = None) /\
      (Scan.ic st = Scan.NewIndexCreator cfg ->
       forall e, e ∉ Scan.IgnoreExt cfg -> Scan.extMap (Scan.ic st) !! e = None).
Proof.
  intros w st cfg.
  set (st' := snd (Scan.Create w "src" "data" st)).
  assert (Hrun : Scan.Create w "src" "data" st = (Some None, st'))
    by (vm_compute; reflexivity).
  clearbody st'. exists st'. split; [exact Hrun|].
  refine (Create_extension_dictionary w cfg "src" "data" st st'
            {| Scan.LastUpdate := time_Unix 1700000000;
               Scan.CreateTime := time_Unix 1700000100 |}
            (Scan.creator_new cfg) _ _ _ _ _ _ Hrun).
  - vm_compute. discriminate.
  - vm_compute. discriminate.
  - vm_compute. discriminate.
  - vm_compute. discriminate.
  - vm_compute. discriminate.
  - vm_compute. reflexivity.
Defined.
